(** * ngxsmk-gatekeeper: a shallow embedding of the middleware engine

    The development follows the TypeScript sources module by module:

    - [Js]: the fragment of JavaScript values the library manipulates
      (atoms, heap-allocated objects and arrays, truthiness, member
      access, the [Outcome] of a call that may throw);
    - [ObjectUtils]: [helpers/object.utils.ts];
    - [AuthMiddleware]: [middlewares/auth.middleware.ts];
    - [DebugHook]: the debug hook module (sanitizer, execution store,
      recording functions);
    - [Extensions]: [extensions/extension.registry.ts];
    - [SecurityHeaders]: [security-headers/security-headers.middleware.ts];
    - [ChainExecutor]: the chain executor, which the sources at hand only
      declare, modelled from the specification;
    - [DebugHookMore], [ExtensionsMore]: vocabulary for further
      properties of the debug hook and of the registry;
    - [ObjectUtilsSet]: [setValueByPath] of [helpers/object.utils.ts];
    - [RoleMiddleware], [MfaMiddleware]: [middlewares/role.middleware.ts]
      and [middlewares/mfa.middleware.ts];
    - [AuditSanitize]: [extractUserId] of [audit/audit.sanitize.ts];
    - [PathKeys], [SnapshotPaths], [DebugHookSides]: vocabulary for
      statements about paths, about snapshots and about the callers and
      consumers of the debug hook;
    - [SecurityHeaderHelpers]: [generateCSP], [createCSP] and
      [createSecurityHeaders]. *)

From Stdlib Require Import ZArith QArith Ascii String List Lia.
From stdpp Require Import base option list gmap strings pretty.
From Equations Require Import Equations.

#[local] Set Warnings "-register-all".
#[local] Open Scope string_scope.

(** ** JavaScript values *)

Module Js.

(** A call either returns a value or throws. *)
Inductive Outcome (A : Type) : Type :=
  | Ok (a : A)
  | Throw (e : string).
Arguments Ok {A} a.
Arguments Throw {A} e.

#[export] Instance Outcome_ret : MRet Outcome := fun _ a => Ok a.
#[export] Instance Outcome_bind : MBind Outcome := fun _ _ f m =>
  match m with
  | Ok a => f a
  | Throw e => Throw e
  end.

Definition returns {A} (m : Outcome A) : Prop := exists a, m = Ok a.

Abbreviation addr := nat.

(** Values without own properties that the library looks at.  Numbers are
    the integers plus NaN; a function is an opaque reference. *)
Inductive Atom : Type :=
  | AUndefined
  | ANull
  | ABool (b : bool)
  | ANum (n : Z)
  | ANaN
  | AStr (s : string)
  | AFun (f : nat).

Inductive Value : Type :=
  | VAtom (p : Atom)
  | VRef (a : addr).

Inductive Cell : Type :=
  | CObj (props : gmap string Value)
  | CArr (items : list Value).

(** The heap maps addresses to objects and arrays; object graphs may be
    cyclic.  An address outside the heap reads as an empty object.  An
    object is given by its own enumerable properties: what it inherits
    from its prototype is outside the model, and so is a property named
    [__proto__], the name under which a plain object reads its prototype
    and an assignment reaches the prototype setter.  Statements that
    would depend on that name exclude it. *)
Abbreviation Heap := (gmap addr Cell).

Definition cell (h : Heap) (a : addr) : Cell := default (CObj ∅) (h !! a).

Coercion VAtom : Atom >-> Value.

Definition undefined : Value := VAtom AUndefined.
Definition null : Value := VAtom ANull.
Definition str (s : string) : Value := VAtom (AStr s).

(** [v == null] *)
Definition is_nullish (v : Value) : bool :=
  match v with
  | VAtom AUndefined | VAtom ANull => true
  | _ => false
  end.

(** [typeof v === 'object'] *)
Definition typeof_object (v : Value) : bool :=
  match v with
  | VAtom ANull => true
  | VRef _ => true
  | _ => false
  end.

(** [typeof v === 'function'] *)
Definition typeof_function (v : Value) : bool :=
  match v with
  | VAtom (AFun _) => true
  | _ => false
  end.

(** [typeof v === 'string'] *)
Definition typeof_string (v : Value) : bool :=
  match v with
  | VAtom (AStr _) => true
  | _ => false
  end.

(** [Boolean(v)] *)
Definition to_boolean (v : Value) : bool :=
  match v with
  | VAtom AUndefined | VAtom ANull | VAtom ANaN => false
  | VAtom (ABool b) => b
  | VAtom (ANum n) => negb (n =? 0)%Z
  | VAtom (AStr s) => negb (String.eqb s EmptyString)
  | VAtom (AFun _) => true
  | VRef _ => true
  end.

(** [s.toLowerCase()], on ASCII letters. *)
Definition lower_ascii (c : ascii) : ascii :=
  let n := nat_of_ascii c in
  if (65 <=? n)%nat && (n <=? 90)%nat then ascii_of_nat (n + 32) else c.

Fixpoint toLowerCase (s : string) : string :=
  match s with
  | EmptyString => EmptyString
  | String c s' => String (lower_ascii c) (toLowerCase s')
  end.

(** [s.split('.')]: never empty, [''.split('.')] is [['']]. *)
Fixpoint split_dot (s : string) : list string :=
  match s with
  | EmptyString => [EmptyString]
  | String c s' =>
      if Ascii.eqb c "."%char then EmptyString :: split_dot s'
      else match split_dot s' with
           | [] => [String c EmptyString]
           | k :: ks => String c k :: ks
           end
  end.

(** A property key that is a canonical array index: decimal digits with
    no leading zero. *)
Definition digit_of (c : ascii) : option nat :=
  let n := nat_of_ascii c in
  if (48 <=? n)%nat && (n <=? 57)%nat then Some (n - 48)%nat else None.

Fixpoint digits_value (acc : nat) (s : string) : option nat :=
  match s with
  | EmptyString => Some acc
  | String c s' =>
      match digit_of c with
      | Some d => digits_value (10 * acc + d) s'
      | None => None
      end
  end.

Definition array_index (key : string) : option nat :=
  match key with
  | EmptyString => None
  | String "0" EmptyString => Some 0%nat
  | String "0" _ => None
  | _ => digits_value 0 key
  end.

(** Own property [o[key]] of a heap cell. *)
Definition cell_member (c : Cell) (key : string) : Value :=
  match c with
  | CObj props => default undefined (props !! key)
  | CArr items =>
      if String.eqb key "length" then VAtom (ANum (Z.of_nat (length items)))
      else match array_index key with
           | Some i => default undefined (items !! i)
           | None => undefined
           end
  end.

(** [v[key]]: a TypeError on [null] and [undefined]; own properties of
    objects and arrays; members inherited from prototypes and the
    members of boxed atoms are outside the model and read as
    [undefined]. *)
Definition get_member (h : Heap) (v : Value) (key : string) : Outcome Value :=
  match v with
  | VAtom AUndefined | VAtom ANull =>
      Throw "TypeError: Cannot read properties of null or undefined"
  | VAtom _ => Ok undefined
  | VRef a => Ok (cell_member (cell h a) key)
  end.

End Js.

(** ** helpers/object.utils.ts *)

Module ObjectUtils.
Import Js.

(** The [for (const key of keys)] loop of [getValueByPath], with its early
    [return undefined]. *)
Fixpoint getValueByPath_loop (h : Heap) (current : Value) (keys : list string)
  : Outcome Value :=
  match keys with
  | [] => Ok current
  | key :: keys' =>
      if is_nullish current || negb (typeof_object current) then Ok undefined
      else next ← get_member h current key; getValueByPath_loop h next keys'
  end.

Definition getValueByPath (h : Heap) (obj : Value) (path : string) : Outcome Value :=
  getValueByPath_loop h obj (split_dot path).

(** The traversal the documentation describes: [reaches h v keys r] when
    following [keys] from [v], through objects only, ends in [r]. *)
Inductive reaches (h : Heap) : Value -> list string -> Value -> Prop :=
  | reaches_here v : reaches h v [] v
  | reaches_member a key keys r :
      reaches h (cell_member (cell h a) key) keys r ->
      reaches h (VRef a) (key :: keys) r.

(** The traversal is stuck when a key remains to be followed from a value
    that is [null], [undefined] or not an object. *)
Definition not_traversable (v : Value) : Prop :=
  is_nullish v = true \/ typeof_object v = false.

Inductive stuck (h : Heap) : Value -> list string -> Prop :=
  | stuck_here v key keys : not_traversable v -> stuck h v (key :: keys)
  | stuck_member a key keys :
      stuck h (cell_member (cell h a) key) keys ->
      stuck h (VRef a) (key :: keys).

(** *** Example data, from [object.utils.spec.ts] *)

(** [{user: {profile: {name: 'John'}}}] at address 0. *)
Definition john_heap : Heap :=
  {[ 0%nat := CObj {[ "user" := VRef 1%nat ]};
     1%nat := CObj {[ "profile" := VRef 2%nat ]};
     2%nat := CObj {[ "name" := str "John" ]} ]}.

(** [{user: {profile: 'John'}}] at address 0. *)
Definition flat_profile_heap : Heap :=
  {[ 0%nat := CObj {[ "user" := VRef 1%nat ]};
     1%nat := CObj {[ "profile" := str "John" ]} ]}.

(** [{users: [{name: 'John'}, {name: 'Jane'}]}] at address 0. *)
Definition users_heap : Heap :=
  {[ 0%nat := CObj {[ "users" := VRef 1%nat ]};
     1%nat := CArr [VRef 2%nat; VRef 3%nat];
     2%nat := CObj {[ "name" := str "John" ]};
     3%nat := CObj {[ "name" := str "Jane" ]} ]}.

End ObjectUtils.

(** ** helpers/create-middleware.ts and the core middleware types *)

Module Core.
Import Js.

(** Modelled from the spec: [helpers/create-middleware.ts] and
    [core/middleware.types.ts] are not among the sources.  Per the spec a
    middleware unit is a named function of the shared context, and
    [createMiddleware(name, handler)] is [handler] carrying [name] as its
    [middlewareName].  A handler reads and may write the heap the context
    lives in; the promise and stream calling conventions are left out. *)
Record NgxMiddleware : Type := {
  middlewareName : option string;
  call : Heap -> addr -> Outcome Value * Heap;
}.

(** Modelled from the spec: [createMiddleware] of
    [helpers/create-middleware.ts], which is not among the sources: the
    unit is [handler], named [name]. *)
Definition createMiddleware (name : string)
    (handler : Heap -> addr -> Outcome Value * Heap) : NgxMiddleware :=
  {| middlewareName := Some name; call := handler |}.

(** A handler that only reads the context. *)
Definition reading (f : Heap -> addr -> Outcome Value)
  : Heap -> addr -> Outcome Value * Heap :=
  fun h context => (f h context, h).

Definition true_ : Value := VAtom (ABool true).
Definition false_ : Value := VAtom (ABool false).

End Core.

(** ** middlewares/auth.middleware.ts *)

Module AuthMiddleware.
Import Js Core ObjectUtils.

Record AuthMiddlewareOptions : Type := {
  authPath : option string;
  requireUser : option bool;
}.

Definition createAuthMiddleware (options : AuthMiddlewareOptions) : NgxMiddleware :=
  let authPath := default "user.isAuthenticated" (authPath options) in
  let requireUser := default true (requireUser options) in
  createMiddleware "auth" (reading (fun h context =>
    userMissing ←
      (if requireUser
       then user ← getValueByPath h (VRef context) "user"; mret (is_nullish user)
       else mret false);
    if (userMissing : bool) then mret false_
    else
      isAuthenticated ← getValueByPath h (VRef context) authPath;
      mret (VAtom (ABool (to_boolean isAuthenticated))))).

(** The path the unit reads: [authPath], or its default. *)
Definition effective_authPath (options : AuthMiddlewareOptions) : string :=
  default "user.isAuthenticated" (authPath options).

(** [{user: {isAuthenticated: false}}], the context at address 0. *)
Definition unauthenticated_heap : Heap :=
  {[ 0%nat := CObj {[ "user" := VRef 1%nat ]};
     1%nat := CObj {[ "isAuthenticated" := false_ ]} ]}.

End AuthMiddleware.

(** ** The debug hook: sanitizer, execution store, recording functions *)

Module DebugHook.
Import Js Core.

(** A sanitized snapshot is a freshly built tree: atoms (functions are
    kept by reference), new arrays and new objects. *)
Inductive Out : Type :=
  | OAtom (p : Atom)
  | OArr (items : list Out)
  | OObj (props : gmap string Out).

Definition ostr (s : string) : Out := OAtom (AStr s).

(** [o[key]] on a snapshot. *)
Definition out_member (o : Out) (key : string) : Out :=
  match o with
  | OObj props => default (OAtom AUndefined) (props !! key)
  | _ => OAtom AUndefined
  end.

(** Nesting depth of a snapshot. *)
Fixpoint out_height (o : Out) : nat :=
  match o with
  | OAtom _ => 0
  | OArr items => S (foldr (fun item acc => Nat.max (out_height item) acc) 0 items)
  | OObj props => S (map_fold (fun _ item acc => Nat.max (out_height item) acc) 0 props)
  end.

Section Sanitizer.
(** [helpers/constants.ts] is not among the sources: the list of
    sensitive field names is a parameter. *)
Variable DEFAULT_SENSITIVE_FIELDS : list string.

Definition SENSITIVE_KEYS : gset string := list_to_set DEFAULT_SENSITIVE_FIELDS.

(** One iteration of the loop over [Object.entries(obj)], given the
    recursive call [recurse] on nested values.  [filtered[key] = ...]
    adds the property [key] to the copy; that is so for every key but
    [__proto__] (see [Js.Cell]), under which the copy gets no
    property. *)
Definition filter_entry (recurse : Value -> Out)
    (key : string) (value : Value) (filtered : gmap string Out) : gmap string Out :=
  let lowerKey := toLowerCase key in
  if bool_decide (lowerKey ∈ SENSITIVE_KEYS) then <[key := ostr "[Filtered]"]> filtered
  else if typeof_function value then <[key := ostr "[Function]"]> filtered
  else <[key := recurse value]> filtered.

(** What that iteration stores under [key]. *)
Definition filtered_value (recurse : Value -> Out) (key : string) (value : Value) : Out :=
  if bool_decide (toLowerCase key ∈ SENSITIVE_KEYS) then ostr "[Filtered]"
  else if typeof_function value then ostr "[Function]"
  else recurse value.

Equations? filterSensitiveData (h : Heap) (obj : Value) (depth maxDepth : nat) : Out
  by wf (S maxDepth - depth) lt :=
  filterSensitiveData h obj depth maxDepth with decide (maxDepth < depth) := {
    | left _ => ostr "[Max Depth Reached]"
    | right _ with obj := {
      | VAtom p => OAtom p
      | VRef a with cell h a := {
        | CArr items =>
            OArr (map (fun item => filterSensitiveData h item (depth + 1) maxDepth) items)
        | CObj props =>
            OObj (map_fold
                    (filter_entry
                       (fun value => filterSensitiveData h value (depth + 1) maxDepth))
                    ∅ props) } } }.
Proof. all: lia. Qed.

(** [if (context[key] && typeof context[key] === 'string')
       sanitized[key] = context[key]] *)
Definition copy_string_field (context : Cell) (key : string)
    (sanitized : gmap string Out) : gmap string Out :=
  let v := cell_member context key in
  if to_boolean v && typeof_string v then
    match v with
    | VAtom p => <[key := OAtom p]> sanitized
    | VRef _ => sanitized
    end
  else sanitized.

(** [Object.assign(target, source)]: own enumerable properties of
    [source] overwrite those of [target]. *)
Definition object_assign (target : gmap string Out) (source : Out) : gmap string Out :=
  match source with
  | OObj props => props ∪ target
  | OArr items => list_to_map (imap (fun i item => (pretty i, item)) items) ∪ target
  | OAtom _ => target
  end.

Definition sanitizeContext (h : Heap) (context : addr) : gmap string Out :=
  let c := cell h context in
  let sanitized : gmap string Out := ∅ in
  let sanitized := copy_string_field c "url" sanitized in
  let sanitized := copy_string_field c "path" sanitized in
  let sanitized := copy_string_field c "method" sanitized in
  let sanitized := copy_string_field c "contextType" sanitized in
  let filtered := filterSensitiveData h (VRef context) 0 3 in
  match filtered with
  | OAtom _ => sanitized
  | _ => object_assign sanitized filtered
  end.

End Sanitizer.

Inductive ContextType : Type := Route | Http.

(** [core/debug.ts] is not among the sources; these are the fields of
    [DebugOptions] the recording functions read. *)
Record DebugOptions : Type := {
  opt_contextType : ContextType;
  opt_contextPath : option string;
  opt_chunkName : option string;
  opt_context : addr;
}.

(** The fields of the chain result ([MiddlewareResult]) that
    [recordChainExecution] reads. *)
Record MiddlewareResult : Type := {
  result : bool;
  stoppedAt : Z;
  redirect : option string;
}.

(** Times and durations are in whole milliseconds. *)
Record MiddlewareExecutionRecord : Type := {
  me_id : string;
  me_timestamp : Z;
  me_middlewareName : string;
  me_middlewareIndex : nat;
  me_contextType : ContextType;
  me_contextPath : option string;
  me_chunkName : option string;
  me_result : bool;
  me_duration : Z;
  me_error : option string;
  me_sanitizedContext : gmap string Out;
}.

Record ChainExecutionRecord : Type := {
  ce_id : string;
  ce_timestamp : Z;
  ce_contextType : ContextType;
  ce_contextPath : option string;
  ce_chunkName : option string;
  ce_middlewareCount : nat;
  ce_result : bool;
  ce_stoppedAt : Z;
  ce_totalDuration : Z;
  ce_redirect : option string;
  ce_middlewareExecutions : list MiddlewareExecutionRecord;
}.

(** *** class ExecutionStore *)

Record ExecutionStore : Type := {
  chains : list ChainExecutionRecord;
  middlewareExecutions : list MiddlewareExecutionRecord;
}.

Definition maxRecords : nat := 100.

Definition empty_store : ExecutionStore :=
  {| chains := []; middlewareExecutions := [] |}.

(** [array.push(x); if (array.length > maxRecords) array.shift()] *)
Definition push_bounded {A} (records : list A) (x : A) : list A :=
  let records := (records ++ [x])%list in
  if (maxRecords <? length records)%nat then drop 1 records else records.

Definition addChain (chain : ChainExecutionRecord) (s : ExecutionStore) : ExecutionStore :=
  {| chains := push_bounded (chains s) chain;
     middlewareExecutions := middlewareExecutions s |}.

Definition addMiddlewareExecution (execution : MiddlewareExecutionRecord)
    (s : ExecutionStore) : ExecutionStore :=
  {| chains := chains s;
     middlewareExecutions := push_bounded (middlewareExecutions s) execution |}.

Definition getChains (s : ExecutionStore) : list ChainExecutionRecord := chains s.

Definition getMiddlewareExecutions (s : ExecutionStore)
  : list MiddlewareExecutionRecord := middlewareExecutions s.

Definition getLatestChain (s : ExecutionStore) : option ChainExecutionRecord :=
  if (0 <? length (chains s))%nat then last (chains s) else None.

Definition clear (s : ExecutionStore) : ExecutionStore := empty_store.

Record Stats : Type := {
  totalChains : nat;
  totalMiddlewareExecutions : nat;
  passedChains : nat;
  failedChains : nat;
  averageChainDuration : Q;
  averageMiddlewareDuration : Q;
}.

Definition getStats (s : ExecutionStore) : Stats :=
  let totalChains := length (chains s) in
  let totalMiddlewareExecutions := length (middlewareExecutions s) in
  let passedChains := length (List.filter ce_result (chains s)) in
  let failedChains := (totalChains - passedChains)%nat in
  let averageChainDuration :=
    if (0 <? totalChains)%nat
    then Qdiv (inject_Z (foldl (fun sum c => sum + ce_totalDuration c)%Z 0%Z (chains s)))
              (inject_Z (Z.of_nat totalChains))
    else 0%Q in
  let averageMiddlewareDuration :=
    if (0 <? totalMiddlewareExecutions)%nat
    then Qdiv (inject_Z (foldl (fun sum m => sum + me_duration m)%Z 0%Z
                           (middlewareExecutions s)))
              (inject_Z (Z.of_nat totalMiddlewareExecutions))
    else 0%Q in
  {| totalChains := totalChains;
     totalMiddlewareExecutions := totalMiddlewareExecutions;
     passedChains := passedChains;
     failedChains := failedChains;
     averageChainDuration := averageChainDuration;
     averageMiddlewareDuration := averageMiddlewareDuration |}.

(** The operations that add to the store, for statements about
    arbitrary sequences of them. *)
Inductive StoreOp : Type :=
  | AddChain (chain : ChainExecutionRecord)
  | AddMiddlewareExecution (execution : MiddlewareExecutionRecord).

Definition store_step (s : ExecutionStore) (op : StoreOp) : ExecutionStore :=
  match op with
  | AddChain chain => addChain chain s
  | AddMiddlewareExecution execution => addMiddlewareExecution execution s
  end.

Definition store_run (ops : list StoreOp) (s : ExecutionStore) : ExecutionStore :=
  foldl store_step s ops.

Definition within_bound (s : ExecutionStore) : Prop :=
  length (chains s) <= maxRecords /\ length (middlewareExecutions s) <= maxRecords.

(** The snapshot stored with the most recent middleware execution. *)
Definition latest_snapshot (s : ExecutionStore) : option (gmap string Out) :=
  me_sanitizedContext <$> last (middlewareExecutions s).

(** *** The environment and the recording functions *)

(** What the recording functions read from their surroundings:
    [process.env.NODE_ENV] (when [process] exists), whether [window]
    exists, the successive readings of [Date.now()] and the suffix
    [Math.random().toString(36).substr(2, 9)]. *)
Record Env : Type := {
  node_env : option (option string);
  has_window : bool;
  date_now : nat -> Z;
  random_suffix : string;
}.

Definition isDevelopment (env : Env) : bool :=
  match node_env env with
  | Some NODE_ENV => negb (bool_decide (NODE_ENV = Some "production"))
  | None => true
  end.

(** The recording functions do something only in development mode and
    in a browser. *)
Definition debug_active (env : Env) : bool := isDevelopment env && has_window env.

Definition getMiddlewareName (middleware : NgxMiddleware) (index : nat) : string :=
  match middlewareName middleware with
  | Some name => if to_boolean (str name) then name
                 else "Middleware[" ++ pretty index ++ "]"
  | None => "Middleware[" ++ pretty index ++ "]"
  end.

(** The state the module runs in: the heap holding the context, and the
    module-local [store]. *)
Record World : Type := {
  heap : Heap;
  store : ExecutionStore;
}.

Section Recording.
Variable DEFAULT_SENSITIVE_FIELDS : list string.

(** [error] is [String(error)] when an error was passed. *)
Definition recordMiddlewareExecution (env : Env) (options : DebugOptions)
    (middleware : NgxMiddleware) (index : nat) (startTime endTime : Z)
    (result : bool) (error : option string) (w : World) : unit * World :=
  if negb (isDevelopment env) || negb (has_window env) then (tt, w)
  else
    let execution :=
      {| me_id := pretty (date_now env 0) ++ "-" ++ pretty index ++ "-"
                    ++ random_suffix env;
         me_timestamp := startTime;
         me_middlewareName := getMiddlewareName middleware index;
         me_middlewareIndex := index;
         me_contextType := opt_contextType options;
         me_contextPath := opt_contextPath options;
         me_chunkName := opt_chunkName options;
         me_result := result;
         me_duration := endTime - startTime;
         me_error := error;
         me_sanitizedContext :=
           sanitizeContext DEFAULT_SENSITIVE_FIELDS (heap w) (opt_context options) |} in
    (tt, {| heap := heap w; store := addMiddlewareExecution execution (store w) |}).

(** [array.slice(-n || -10)] *)
Definition slice_last {A} (n : nat) (l : list A) : list A :=
  let n := if (n =? 0)%nat then 10%nat else n in
  drop (length l - n) l.

Definition recordChainExecution (env : Env) (options : DebugOptions)
    (result : MiddlewareResult) (totalDuration : Z)
    (middlewareExecutions : list MiddlewareExecutionRecord)
    (w : World) : unit * World :=
  if negb (isDevelopment env) || negb (has_window env) then (tt, w)
  else
    let recentExecutions :=
      slice_last (length middlewareExecutions)
                 (getMiddlewareExecutions (store w)) in
    let chain :=
      {| ce_id := pretty (date_now env 0) ++ "-" ++ random_suffix env;
         ce_timestamp := date_now env 1;
         ce_contextType := opt_contextType options;
         ce_contextPath := opt_contextPath options;
         ce_chunkName := opt_chunkName options;
         ce_middlewareCount := length recentExecutions;
         ce_result := DebugHook.result result;
         ce_stoppedAt := stoppedAt result;
         ce_totalDuration := totalDuration;
         ce_redirect := redirect result;
         ce_middlewareExecutions := recentExecutions |} in
    (tt, {| heap := heap w; store := addChain chain (store w) |}).
End Recording.

(** *** createDebugHook: what consumers of the hook can do *)

Record NgxsmkGatekeeperDebugHook : Type := {
  hook_getChains : World -> list ChainExecutionRecord * World;
  hook_getMiddlewareExecutions : World -> list MiddlewareExecutionRecord * World;
  hook_getLatestChain : World -> option ChainExecutionRecord * World;
  hook_clear : World -> unit * World;
  hook_getStats : World -> Stats * World;
}.

Definition createDebugHook : NgxsmkGatekeeperDebugHook :=
  {| hook_getChains := fun w => (getChains (store w), w);
     hook_getMiddlewareExecutions := fun w => (getMiddlewareExecutions (store w), w);
     hook_getLatestChain := fun w => (getLatestChain (store w), w);
     hook_clear := fun w => (tt, {| heap := heap w; store := clear (store w) |});
     hook_getStats := fun w => (getStats (store w), w) |}.

(** *** Example data *)

(** Modelled from the spec: the sensitive-field set holds
    "password/token/secret-like names"; [helpers/constants.ts], which
    defines [DEFAULT_SENSITIVE_FIELDS], is not among the sources. *)
Definition spec_sensitive_fields : list string := ["password"; "token"; "secret"].

(** [{user: {password: 'secret123', id: 'u1'}}], the context at address 0. *)
Definition user_heap : Heap :=
  {[ 0%nat := CObj {[ "user" := VRef 1%nat ]};
     1%nat := CObj {[ "password" := str "secret123"; "id" := str "u1" ]} ]}.

(** An object whose [self] property is the object itself. *)
Definition cyclic_heap : Heap :=
  {[ 0%nat := CObj {[ "self" := VRef 0%nat ]} ]}.

(** [{a: {b: {c: {d: f, e: 1}}}, password: g}] with [f] and [g]
    functions. *)
Definition deep_heap : Heap :=
  {[ 0%nat := CObj {[ "a" := VRef 1%nat; "password" := VAtom (AFun 7) ]};
     1%nat := CObj {[ "b" := VRef 2%nat ]};
     2%nat := CObj {[ "c" := VRef 3%nat ]};
     3%nat := CObj {[ "d" := VAtom (AFun 8); "e" := VAtom (ANum 1) ]} ]}.

Definition sample_chain (n : nat) : ChainExecutionRecord :=
  {| ce_id := pretty n; ce_timestamp := Z.of_nat n; ce_contextType := Route;
     ce_contextPath := None; ce_chunkName := None; ce_middlewareCount := 0;
     ce_result := true; ce_stoppedAt := (-1)%Z; ce_totalDuration := 0%Z;
     ce_redirect := None; ce_middlewareExecutions := [] |}.

Definition sample_execution (n : nat) : MiddlewareExecutionRecord :=
  {| me_id := pretty n; me_timestamp := Z.of_nat n;
     me_middlewareName := "auth"; me_middlewareIndex := n;
     me_contextType := Http; me_contextPath := None; me_chunkName := None;
     me_result := true; me_duration := 0%Z; me_error := None;
     me_sanitizedContext := ∅ |}.

(** A store that has received [n] chain records and [n] middleware
    execution records. *)
Definition store_after (n : nat) : ExecutionStore :=
  store_run (map (fun i => AddChain (sample_chain i)) (seq 0 n)
             ++ map (fun i => AddMiddlewareExecution (sample_execution i)) (seq 0 n))%list
            empty_store.

Definition browser_dev_env : Env :=
  {| node_env := None; has_window := true;
     date_now := fun _ => 1700000000000%Z; random_suffix := "k3x9q2m1z" |}.

Definition production_env : Env :=
  {| node_env := Some (Some "production"); has_window := true;
     date_now := fun _ => 1700000000000%Z; random_suffix := "k3x9q2m1z" |}.

Definition http_options : DebugOptions :=
  {| opt_contextType := Http; opt_contextPath := Some "/api/profile";
     opt_chunkName := None; opt_context := 0%nat |}.

Definition user_world : World := {| heap := user_heap; store := empty_store |}.

Definition auth_unit : NgxMiddleware :=
  AuthMiddleware.createAuthMiddleware
    {| AuthMiddleware.authPath := None; AuthMiddleware.requireUser := None |}.

Definition denied_result : MiddlewareResult :=
  {| result := false; stoppedAt := 0%Z; redirect := Some "/login" |}.

End DebugHook.

(** ** extensions/extension.registry.ts *)

Module Extensions.
Import Js.

Section Registry.
(** [NgxMiddleware | MiddlewarePipeline]: opaque to the registry. *)
Variable Middleware : Type.

(** The calls an extension can make on the [ExtensionContext] that
    change the registry ([getConfig] and [getFullConfig] only read the
    configuration). *)
Inductive ContextCall : Type :=
  | registerPreMiddleware (middlewares : list Middleware)
  | registerPostMiddleware (middlewares : list Middleware)
  | registerMiddleware (middlewares : list Middleware).

(** An extension, by what the registry observes of it: the context calls
    [initialize] makes and whether it then resolves (with an array, or
    with something else: [None]) or rejects; whether [destroy] exists
    and how it settles. *)
Record GatekeeperExtension : Type := {
  id : string;
  initialize : list ContextCall * Outcome (option (list Middleware));
  destroy : option (Outcome unit);
}.

Record ExtensionRegistration : Type := {
  extension : GatekeeperExtension;
  success : bool;
  error : option string;
  registeredMiddleware : list Middleware;
}.

Record ExtensionRegistry : Type := {
  extensions : gmap string GatekeeperExtension;
  registrations : gmap string ExtensionRegistration;
  preMiddleware : list Middleware;
  postMiddleware : list Middleware;
  mergedMiddleware : list Middleware;
}.

Definition empty_registry : ExtensionRegistry :=
  {| extensions := ∅; registrations := ∅;
     preMiddleware := []; postMiddleware := []; mergedMiddleware := [] |}.

(** The closures of [createExtensionContext]: [this.xs.push(...middlewares)]. *)
Definition context_call (r : ExtensionRegistry) (c : ContextCall) : ExtensionRegistry :=
  match c with
  | registerPreMiddleware middlewares =>
      {| extensions := extensions r; registrations := registrations r;
         preMiddleware := (preMiddleware r ++ middlewares)%list;
         postMiddleware := postMiddleware r;
         mergedMiddleware := mergedMiddleware r |}
  | registerPostMiddleware middlewares =>
      {| extensions := extensions r; registrations := registrations r;
         preMiddleware := preMiddleware r;
         postMiddleware := (postMiddleware r ++ middlewares)%list;
         mergedMiddleware := mergedMiddleware r |}
  | registerMiddleware middlewares =>
      {| extensions := extensions r; registrations := registrations r;
         preMiddleware := preMiddleware r;
         postMiddleware := postMiddleware r;
         mergedMiddleware := (mergedMiddleware r ++ middlewares)%list |}
  end.

Definition dquote : string := String (ascii_of_nat 34) EmptyString.

Definition already_registered (extensionId : string) : string :=
  "Extension with id " ++ dquote ++ extensionId ++ dquote ++ " is already registered".

(** A promise, settled. *)
Inductive Promise (A : Type) : Type :=
  | Resolved (a : A)
  | Rejected (e : string).
Arguments Resolved {A} a.
Arguments Rejected {A} e.

Definition register (ext : GatekeeperExtension) (r : ExtensionRegistry)
  : Promise ExtensionRegistration * ExtensionRegistry :=
  if bool_decide (is_Some (extensions r !! id ext)) then
    (Resolved {| extension := ext; success := false;
                 error := Some (already_registered (id ext));
                 registeredMiddleware := [] |}, r)
  else
    let '(calls, settled) := initialize ext in
    let r := foldl context_call r calls in
    match settled with
    | Ok middleware =>
        let middlewareArray := default [] middleware in
        let registration :=
          {| extension := ext; success := true; error := None;
             registeredMiddleware := middlewareArray |} in
        (Resolved registration,
         {| extensions := <[id ext := ext]> (extensions r);
            registrations := <[id ext := registration]> (registrations r);
            preMiddleware := preMiddleware r;
            postMiddleware := postMiddleware r;
            mergedMiddleware := mergedMiddleware r |})
    | Throw e =>
        (Resolved {| extension := ext; success := false; error := Some e;
                     registeredMiddleware := [] |}, r)
    end.

Definition unregister (extensionId : string) (r : ExtensionRegistry)
  : Promise bool * ExtensionRegistry :=
  match extensions r !! extensionId with
  | None => (Resolved false, r)
  | Some ext =>
      match destroy ext with
      | Some (Throw _) => (Resolved false, r)
      | _ =>
          (Resolved true,
           {| extensions := delete extensionId (extensions r);
              registrations := delete extensionId (registrations r);
              preMiddleware := [];
              postMiddleware := [];
              mergedMiddleware := [] |})
      end
  end.

Definition getRegistration (extensionId : string) (r : ExtensionRegistry)
  : option ExtensionRegistration := registrations r !! extensionId.

Definition getPreMiddleware (r : ExtensionRegistry) : list Middleware := preMiddleware r.
Definition getPostMiddleware (r : ExtensionRegistry) : list Middleware := postMiddleware r.
Definition getMergedMiddleware (r : ExtensionRegistry) : list Middleware :=
  mergedMiddleware r.

(** What can happen to a registry, one operation at a time: a
    registration, an unregistration, or a call through a context that an
    extension kept from its initialization. *)
Inductive RegistryOp : Type :=
  | OpRegister (ext : GatekeeperExtension)
  | OpUnregister (extensionId : string)
  | OpContextCall (c : ContextCall).

Definition registry_step (r : ExtensionRegistry) (op : RegistryOp) : ExtensionRegistry :=
  match op with
  | OpRegister ext => snd (register ext r)
  | OpUnregister extensionId => snd (unregister extensionId r)
  | OpContextCall c => context_call r c
  end.

Definition registry_run (ops : list RegistryOp) (r : ExtensionRegistry)
  : ExtensionRegistry := foldl registry_step r ops.

Definition is_unregister (op : RegistryOp) : bool :=
  match op with
  | OpUnregister _ => true
  | _ => false
  end.

(** The three lists of [r'] extend those of [r]: nothing removed, nothing
    reordered, new units only at the end. *)
Definition extends (r r' : ExtensionRegistry) : Prop :=
  preMiddleware r `prefix_of` preMiddleware r'
  /\ postMiddleware r `prefix_of` postMiddleware r'
  /\ mergedMiddleware r `prefix_of` mergedMiddleware r'.

(** The units an extension hands to [registerPreMiddleware] while it
    initializes, in call order. *)
Definition pre_calls (calls : list ContextCall) : list Middleware :=
  concat (map (fun c => match c with
                        | registerPreMiddleware middlewares => middlewares
                        | _ => []
                        end) calls).

End Registry.

Arguments registerPreMiddleware {Middleware} middlewares.
Arguments registerPostMiddleware {Middleware} middlewares.
Arguments registerMiddleware {Middleware} middlewares.
Arguments Resolved {A} a.
Arguments Rejected {A} e.
Arguments OpRegister {Middleware} ext.
Arguments OpUnregister {Middleware} extensionId.
Arguments OpContextCall {Middleware} c.
Arguments id {Middleware} g.
Arguments initialize {Middleware} g.
Arguments destroy {Middleware} g.
Arguments extension {Middleware} e.
Arguments success {Middleware} e.
Arguments error {Middleware} e.
Arguments registeredMiddleware {Middleware} e.
Arguments extensions {Middleware} e.
Arguments registrations {Middleware} e.
Arguments preMiddleware {Middleware} e.
Arguments postMiddleware {Middleware} e.
Arguments mergedMiddleware {Middleware} e.
Arguments empty_registry {Middleware}.
Arguments context_call {Middleware} r c.
Arguments register {Middleware} ext r.
Arguments unregister {Middleware} extensionId r.
Arguments getRegistration {Middleware} extensionId r.
Arguments getPreMiddleware {Middleware} r.
Arguments getPostMiddleware {Middleware} r.
Arguments getMergedMiddleware {Middleware} r.
Arguments registry_step {Middleware} r op.
Arguments registry_run {Middleware} ops r.
Arguments is_unregister {Middleware} op.
Arguments pre_calls {Middleware} calls.
Arguments extends {Middleware} r r'.

(** *** Example data: two extensions that each register one pre-unit *)

Definition ext_a : GatekeeperExtension string :=
  {| id := "ext-a";
     initialize := ([registerPreMiddleware ["a-unit"]], Ok (Some ["a-unit"]));
     destroy := None |}.

Definition ext_b : GatekeeperExtension string :=
  {| id := "ext-b";
     initialize := ([registerPreMiddleware ["b-unit"]], Ok (Some ["b-unit"]));
     destroy := None |}.

End Extensions.

(** ** security-headers/security-headers.middleware.ts *)

Module SecurityHeaders.
Import Js Core.

(** A header value: a static string, or a function called when the unit
    runs, which returns a string or throws. *)
Inductive HeaderValue : Type :=
  | Static (value : string)
  | Dynamic (f : unit -> Outcome string).

Record SecurityHeadersConfig : Type := {
  headers : gmap string HeaderValue;
  overwrite : option bool;
}.

Definition SECURITY_HEADERS_KEY : string := "_securityHeaders".

(** One iteration of the loop over [Object.entries(headers)]; a throwing
    function is caught (and reported with [console.warn]). *)
Definition resolve_header (key : string) (value : HeaderValue)
    (resolvedHeaders : gmap string string) : gmap string string :=
  match value with
  | Dynamic f =>
      match f () with
      | Ok v => <[key := v]> resolvedHeaders
      | Throw _ => resolvedHeaders
      end
  | Static v => <[key := v]> resolvedHeaders
  end.

Definition resolve_headers (headers : gmap string HeaderValue) : gmap string string :=
  map_fold resolve_header ∅ headers.

(** The own enumerable properties an object spread [{...v}] copies. *)
Definition spread (h : Heap) (v : Value) : gmap string Value :=
  match v with
  | VRef a =>
      match cell h a with
      | CObj props => props
      | CArr items => list_to_map (imap (fun i item => (pretty i, item)) items)
      end
  | VAtom (AStr s) =>
      list_to_map (imap (fun i c => (pretty i, str (String c EmptyString)))
                        (list_ascii_of_string s))
  | VAtom _ => ∅
  end.

(** [new object]: the cell is stored at an address the heap does not use. *)
Definition alloc (h : Heap) (c : Cell) : addr * Heap :=
  let a := fresh (dom h) in (a, <[a := c]> h).

(** [o[key] = v] on the object at [a]; arrays carry no named properties
    in this model and are left as they are. *)
Definition set_member (h : Heap) (a : addr) (key : string) (v : Value) : Heap :=
  match cell h a with
  | CObj props => <[a := CObj (<[key := v]> props)]> h
  | CArr _ => h
  end.

(** [v.key] for a truthy [v]. *)
Definition member (h : Heap) (v : Value) (key : string) : Value :=
  match v with
  | VRef a => cell_member (cell h a) key
  | VAtom _ => undefined
  end.

(** [context[SECURITY_HEADERS_KEY] = { headers, overwrite }]: the headers
    object and the entry are new objects. *)
Definition assign_entry (h : Heap) (context : addr)
    (headers : gmap string Value) (overwrite : Value) : Heap :=
  let '(headersObject, h) := alloc h (CObj headers) in
  let '(entry, h) :=
    alloc h (CObj {[ "headers" := VRef headersObject; "overwrite" := overwrite ]}) in
  set_member h context SECURITY_HEADERS_KEY (VRef entry).

Definition securityHeadersMiddleware (config : SecurityHeadersConfig) : NgxMiddleware :=
  let headers := headers config in
  let overwrite := default false (overwrite config) in
  createMiddleware "security-headers" (fun h context =>
    let resolvedHeaders : gmap string Value := str <$> resolve_headers headers in
    let existingEntry := cell_member (cell h context) SECURITY_HEADERS_KEY in
    if to_boolean existingEntry then
      let existingHeaders := spread h (member h existingEntry "headers") in
      let mergedHeaders :=
        if overwrite then resolvedHeaders ∪ existingHeaders
        else existingHeaders ∪ resolvedHeaders in
      let mergedOverwrite :=
        if overwrite then true_ else member h existingEntry "overwrite" in
      (Ok true_, assign_entry h context mergedHeaders mergedOverwrite)
    else
      (Ok true_, assign_entry h context resolvedHeaders (VAtom (ABool overwrite)))).

(** What a configured header value resolves to when the unit runs:
    nothing when its function throws. *)
Definition resolved_value (value : HeaderValue) : option string :=
  match value with
  | Static v => Some v
  | Dynamic f =>
      match f () with
      | Ok v => Some v
      | Throw _ => None
      end
  end.

(** The headers of the context's security-headers entry. *)
Definition entry_headers (h : Heap) (context : addr) : gmap string Value :=
  spread h (member h (cell_member (cell h context) SECURITY_HEADERS_KEY) "headers").

Definition entry_overwrite (h : Heap) (context : addr) : Value :=
  member h (cell_member (cell h context) SECURITY_HEADERS_KEY) "overwrite".

(** The headers already in the context, if it has a (truthy) entry. *)
Definition existing_headers (h : Heap) (context : addr) : gmap string Value :=
  let existingEntry := cell_member (cell h context) SECURITY_HEADERS_KEY in
  if to_boolean existingEntry then spread h (member h existingEntry "headers") else ∅.

(** The headers the entry must hold after the unit has run on [h]: the
    resolved headers merged with the existing ones, the resolved ones
    winning exactly when [overwrite] is set. *)
Definition merged_headers (config : SecurityHeadersConfig) (h : Heap) (context : addr)
  : gmap string Value :=
  let resolvedHeaders : gmap string Value := str <$> resolve_headers (headers config) in
  if default false (overwrite config) then resolvedHeaders ∪ existing_headers h context
  else existing_headers h context ∪ resolvedHeaders.

(** *** Example data *)

Definition frame_options_config : SecurityHeadersConfig :=
  {| headers := {[ "X-Frame-Options" := Static "SAMEORIGIN" ]};
     overwrite := Some true |}.

(** A context [{contextType: 'http', _securityHeaders: {headers:
    {'X-Existing': 'value'}, overwrite: false}}] at address 0. *)
Definition merge_heap : Heap :=
  {[ 0%nat := CObj {[ "contextType" := str "http";
                      "_securityHeaders" := VRef 1%nat ]};
     1%nat := CObj {[ "headers" := VRef 2%nat; "overwrite" := false_ ]};
     2%nat := CObj {[ "X-Existing" := str "value" ]} ]}.

Definition throwing_config : SecurityHeadersConfig :=
  {| headers := {[ "X-Frame-Options" := Static "SAMEORIGIN";
                   "X-Broken" := Dynamic (fun _ => Throw "boom") ]};
     overwrite := None |}.

End SecurityHeaders.

(** ** The chain executor *)

Module ChainExecutor.

Section Executor.
(** The shared context, threaded through the units of one run. *)
Variable Context : Type.

(** Modelled from the spec: the result a unit returns, one of three
    shapes: [true], [false], or [{allow, redirect?, reason?}]. *)
Inductive Result : Type :=
  | RBool (b : bool)
  | RVerdict (allow : bool) (redirect : option string) (reason : option string).

(** Modelled from the spec: an invocation returns a result or faults
    (throws, or its promise rejects); it may write the context. *)
Inductive Invocation : Type :=
  | Returns (r : Result)
  | Faults (error : string).

(** Modelled from the spec: a middleware unit, a named function of the
    context; its position in the list, not its name, decides when it
    runs. *)
Record Unit : Type := {
  name : string;
  invoke : Context -> Invocation * Context;
}.

(** Modelled from the spec: a result allows when it is [true] or has
    [allow: true]; [false] and [{allow: false, ...}] deny. *)
Definition allows (r : Result) : bool :=
  match r with
  | RBool b => b
  | RVerdict allow _ _ => allow
  end.

Definition result_redirect (r : Result) : option string :=
  match r with
  | RBool _ => None
  | RVerdict _ redirect _ => redirect
  end.

Definition result_reason (r : Result) : option string :=
  match r with
  | RBool _ => None
  | RVerdict _ _ reason => reason
  end.

(** Modelled from the spec: the per-unit execution record. *)
Record UnitRecord : Type := {
  ur_name : string;
  ur_index : nat;
  ur_result : bool;
  ur_error : option string;
}.

(** Modelled from the spec: the terminal states of a chain run. *)
Inductive Verdict : Type :=
  | Allowed
  | Denied (stoppedAt : nat) (redirect reason : option string)
  | Faulted (stoppedAt : nat) (error : string).

(** Modelled from the spec: what a chain run yields: the verdict, the
    per-unit records in invocation order, and the context as the last
    invoked unit left it. *)
Record ChainResult : Type := {
  verdict : Verdict;
  trace : list UnitRecord;
  final_context : Context;
}.

Definition allowed (r : ChainResult) : bool :=
  match verdict r with
  | Allowed => true
  | _ => false
  end.

Definition stoppedAt (r : ChainResult) : option nat :=
  match verdict r with
  | Allowed => None
  | Denied i _ _ => Some i
  | Faulted i _ => Some i
  end.

(** Modelled from the spec: the chain executor of section 4.2, which is
    not among the sources.  Running at index [i] with [units] left to
    run: when none is left the run is Allowed; otherwise the unit at
    [i] is invoked with the shared context and its outcome recorded; a
    denying result stops the run as Denied with [stoppedAt = i] and the
    result's redirect and reason; a fault stops it as Faulted; an
    allowing result moves on to [i + 1]. *)
Fixpoint run_from (i : nat) (units : list Unit) (context : Context)
    (trace : list UnitRecord) : ChainResult :=
  match units with
  | [] => {| verdict := Allowed; trace := trace; final_context := context |}
  | u :: units' =>
      let '(invocation, context) := invoke u context in
      match invocation with
      | Returns r =>
          let record := {| ur_name := name u; ur_index := i;
                           ur_result := allows r; ur_error := None |} in
          if allows r then run_from (S i) units' context (trace ++ [record])%list
          else {| verdict := Denied i (result_redirect r) (result_reason r);
                  trace := (trace ++ [record])%list;
                  final_context := context |}
      | Faults error =>
          let record := {| ur_name := name u; ur_index := i;
                           ur_result := false; ur_error := Some error |} in
          {| verdict := Faulted i error;
             trace := (trace ++ [record])%list;
             final_context := context |}
      end
  end.

(** Modelled from the spec: [execute(units, context)], a run from index
    0 with no record yet. *)
Definition execute (units : list Unit) (context : Context) : ChainResult :=
  run_from 0 units context [].

(** The indices of the units the run invoked, in invocation order. *)
Definition invoked (r : ChainResult) : list nat := map ur_index (trace r).

(** The context the unit at position [i] receives: the initial context
    after the units before it have run, in order. *)
Fixpoint context_at (units : list Unit) (context : Context) (i : nat) : Context :=
  match i, units with
  | S i', u :: units' => context_at units' (snd (invoke u context)) i'
  | _, _ => context
  end.

(** What the unit at position [i] answers in the run from [context]:
    [Some true] when it allows, [Some false] when it denies, [None]
    when it faults or there is no such unit. *)
Definition answer_at (units : list Unit) (context : Context) (i : nat) : option bool :=
  match units !! i with
  | Some u =>
      match fst (invoke u (context_at units context i)) with
      | Returns r => Some (allows r)
      | Faults _ => None
      end
  | None => None
  end.

End Executor.

Arguments name {Context} u.
Arguments invoke {Context} u context.
Arguments verdict {Context} c.
Arguments trace {Context} c.
Arguments final_context {Context} c.
Arguments allowed {Context} r.
Arguments stoppedAt {Context} r.
Arguments run_from {Context} i units context trace.
Arguments execute {Context} units context.
Arguments invoked {Context} r.
Arguments context_at {Context} units context i.
Arguments answer_at {Context} units context i.

(** *** Example data: units that log their invocation in the context *)

Definition logging (n : string) (r : Result) : Unit (list string) :=
  {| name := n; invoke := fun log => (Returns r, (log ++ [n])%list) |}.

Definition allow_allow_deny_allow : list (Unit (list string)) :=
  [ logging "first" (RBool true);
    logging "second" (RVerdict true None None);
    logging "third" (RBool false);
    logging "fourth" (RBool true) ].

End ChainExecutor.

(** ** More of the debug hook: what the store holds, what a chain record captures *)

Module DebugHookMore.
Import Js Core DebugHook.

(** The last [n] elements of a list, in order. *)
Definition keep_last {A} (n : nat) (l : list A) : list A := drop (length l - n) l.

(** The chain records, and the middleware execution records, that a
    sequence of store operations adds, in order. *)
Definition added_chains (ops : list StoreOp) : list ChainExecutionRecord :=
  omap (fun op => match op with
                  | AddChain chain => Some chain
                  | AddMiddlewareExecution _ => None
                  end) ops.

Definition added_executions (ops : list StoreOp) : list MiddlewareExecutionRecord :=
  omap (fun op => match op with
                  | AddChain _ => None
                  | AddMiddlewareExecution execution => Some execution
                  end) ops.

(** One call of [recordMiddlewareExecution], given by its arguments. *)
Record RecordedCall : Type := {
  rc_middleware : NgxMiddleware;
  rc_index : nat;
  rc_startTime : Z;
  rc_endTime : Z;
  rc_result : bool;
  rc_error : option string;
}.

(** The record [recordMiddlewareExecution] builds for a call. *)
Definition execution_of (DEFAULT_SENSITIVE_FIELDS : list string) (env : Env)
    (options : DebugOptions) (h : Heap) (c : RecordedCall) : MiddlewareExecutionRecord :=
  {| me_id := pretty (date_now env 0) ++ "-" ++ pretty (rc_index c) ++ "-"
                ++ random_suffix env;
     me_timestamp := rc_startTime c;
     me_middlewareName := getMiddlewareName (rc_middleware c) (rc_index c);
     me_middlewareIndex := rc_index c;
     me_contextType := opt_contextType options;
     me_contextPath := opt_contextPath options;
     me_chunkName := opt_chunkName options;
     me_result := rc_result c;
     me_duration := rc_endTime c - rc_startTime c;
     me_error := rc_error c;
     me_sanitizedContext :=
       sanitizeContext DEFAULT_SENSITIVE_FIELDS h (opt_context options) |}.

(** [recordMiddlewareExecution] called once per element of [calls], in
    order. *)
Definition record_calls (DEFAULT_SENSITIVE_FIELDS : list string) (env : Env)
    (options : DebugOptions) (calls : list RecordedCall) (w : World) : World :=
  foldl (fun w c =>
           snd (recordMiddlewareExecution DEFAULT_SENSITIVE_FIELDS env options
                  (rc_middleware c) (rc_index c) (rc_startTime c) (rc_endTime c)
                  (rc_result c) (rc_error c) w))
        w calls.

(** The chain record most recently stored. *)
Definition latest_chain (w : World) : option ChainExecutionRecord :=
  getLatestChain (store w).

(** [o[k1][k2]...[kn]] on a snapshot. *)
Definition out_path (o : Out) (keys : list string) : Out := foldl out_member o keys.

(** [follows h a keys a']: following [keys] from the object at [a], through
    own properties that hold objects, leads to the object at [a']. *)
Inductive follows (h : Heap) : addr -> list string -> addr -> Prop :=
  | follows_here a : follows h a [] a
  | follows_step a props key next keys a' :
      cell h a = CObj props -> props !! key = Some (VRef next) ->
      follows h next keys a' -> follows h a (key :: keys) a'.

(** *** Example data *)

Definition sample_call (n : nat) : RecordedCall :=
  {| rc_middleware := auth_unit; rc_index := n; rc_startTime := 1000;
     rc_endTime := 1002; rc_result := true; rc_error := None |}.

(** A world whose store has received 12 records of each kind. *)
Definition busy_world : World := {| heap := user_heap; store := store_after 12 |}.

(** [{session: {auth: {token: 't0k3n', scheme: 'bearer'}}}] at address 0. *)
Definition token_heap : Heap :=
  {[ 0%nat := CObj {[ "session" := VRef 1%nat ]};
     1%nat := CObj {[ "auth" := VRef 2%nat ]};
     2%nat := CObj {[ "token" := str "t0k3n"; "scheme" := str "bearer" ]} ]}.

End DebugHookMore.

(** ** More of the extension registry: what a reachable registry looks like *)

Module ExtensionsMore.
Import Js Extensions.

(** The two maps of the registry agree: an id has a registration exactly
    when it has an extension, and the registration is a successful one of
    that very extension, stored under the extension's own id. *)
Definition consistent {Middleware} (r : ExtensionRegistry Middleware) : Prop :=
  forall extensionId,
    (extensions r !! extensionId = None <-> registrations r !! extensionId = None)
    /\ (forall registration,
          registrations r !! extensionId = Some registration ->
          success registration = true
          /\ error registration = None
          /\ id (extension registration) = extensionId
          /\ extensions r !! extensionId = Some (extension registration)).

(** *** Example data *)

(** An extension that registers a pre-unit and then fails to initialize. *)
Definition ext_failing : GatekeeperExtension string :=
  {| id := "ext-failing";
     initialize := ([registerPreMiddleware ["orphan-unit"]], Throw "init failed");
     destroy := None |}.

(** An extension whose [destroy] throws. *)
Definition ext_sticky : GatekeeperExtension string :=
  {| id := "ext-sticky";
     initialize := ([], Ok (Some []));
     destroy := Some (Throw "cannot stop") |}.

End ExtensionsMore.

(** ** helpers/object.utils.ts: setValueByPath *)

Module ObjectUtilsSet.
Import Js ObjectUtils SecurityHeaders.

(** [v === null] *)
Definition is_null (v : Value) : bool :=
  match v with
  | VAtom ANull => true
  | _ => false
  end.

(** [key in o], for own properties.  On a plain object [key in o] also
    holds for the members [o] inherits; these are functions, so where
    [setValueByPath] tests [!(key in current) || typeof current[key] !==
    'object'] the outcome is the same, except under the key [__proto__]
    (see [Js.Cell]). *)
Definition has_member (c : Cell) (key : string) : bool :=
  match c with
  | CObj props => bool_decide (is_Some (props !! key))
  | CArr items =>
      String.eqb key "length"
      || match array_index key with
         | Some i => (i <? length items)%nat
         | None => false
         end
  end.

(** [o[key] = v] on the object or array at [a], for a key other than
    [__proto__] (see [Js.Cell]).  An array is written at an index, the gap
    up to it reading [undefined]; its [length] and its named properties
    are outside the model, and such a write leaves the heap as it is. *)
Definition assign_member (h : Heap) (a : addr) (key : string) (v : Value) : Heap :=
  match cell h a with
  | CObj props => <[a := CObj (<[key := v]> props)]> h
  | CArr items =>
      match array_index key with
      | Some i =>
          <[a := CArr (if (i <? length items)%nat then <[i := v]> items
                       else (items ++ replicate (i - length items) undefined ++ [v])%list)]> h
      | None => h
      end
  end.

(** The loop of [setValueByPath] over all keys but the last, followed by
    the write under the last key; [current] is the object reached so far. *)
Fixpoint setValueByPath_loop (h : Heap) (current : addr) (keys : list string)
    (value : Value) : Heap :=
  match keys with
  | [] => h
  | key :: keys' =>
      match keys' with
      | [] => if to_boolean (str key) then assign_member h current key value else h
      | _ :: _ =>
          if negb (to_boolean (str key)) then setValueByPath_loop h current keys' value
          else
            let member := cell_member (cell h current) key in
            if negb (has_member (cell h current) key)
               || negb (typeof_object member) || is_null member
            then
              let '(created, h) := alloc h (CObj ∅) in
              setValueByPath_loop (assign_member h current key (VRef created))
                created keys' value
            else
              match member with
              | VRef next => setValueByPath_loop h next keys' value
              | VAtom _ => h
              end
      end
  end.

Definition setValueByPath (h : Heap) (obj : addr) (path : string) (value : Value) : Heap :=
  setValueByPath_loop h obj (split_dot path) value.

(** The objects of [h] that the loop passes through and writes to, in
    order: the start, then the objects already found under the keys. *)
Fixpoint visited (h : Heap) (current : addr) (keys : list string) : list addr :=
  match keys with
  | [] => []
  | key :: keys' =>
      match keys' with
      | [] => if to_boolean (str key) then [current] else []
      | _ :: _ =>
          if negb (to_boolean (str key)) then visited h current keys'
          else current :: match cell_member (cell h current) key with
                          | VRef next => visited h next keys'
                          | VAtom _ => []
                          end
      end
  end.

Definition nonempty (key : string) : bool := to_boolean (str key).

(** *** Example data, from [object.utils.spec.ts] *)

(** [{user: {profile: {}}}] at address 0. *)
Definition empty_profile_heap : Heap :=
  {[ 0%nat := CObj {[ "user" := VRef 1%nat ]};
     1%nat := CObj {[ "profile" := VRef 2%nat ]};
     2%nat := CObj ∅ ]}.

(** [{}] at address 0. *)
Definition empty_object_heap : Heap := {[ 0%nat := CObj ∅ ]}.

(** [{users: []}] at address 0. *)
Definition empty_users_heap : Heap :=
  {[ 0%nat := CObj {[ "users" := VRef 1%nat ]}; 1%nat := CArr [] ]}.

(** An object whose [self] property is the object itself, at address 0. *)
Definition self_heap : Heap := {[ 0%nat := CObj {[ "self" := VRef 0%nat ]} ]}.

End ObjectUtilsSet.

(** ** middlewares/role.middleware.ts *)

Module RoleMiddleware.
Import Js Core ObjectUtils.

Inductive RoleMode : Type := ModeAny | ModeAll.

(** [roles: string | string[]] *)
Inductive Roles : Type :=
  | OneRole (role : string)
  | ManyRoles (roles : list string).

Record RoleMiddlewareOptions : Type := {
  roles : Roles;
  rolesPath : option string;
  mode : option RoleMode;
  requireUser : option bool;
}.

(** [userRoles.includes(role)] for a string [role]. *)
Definition includes (userRoles : list Value) (role : string) : bool :=
  existsb (fun item => match item with
                       | VAtom (AStr s) => String.eqb s role
                       | _ => false
                       end) userRoles.

Definition requiredRoles (options : RoleMiddlewareOptions) : list string :=
  match roles options with
  | ManyRoles roles => roles
  | OneRole role => [role]
  end.

Definition createRoleMiddleware (options : RoleMiddlewareOptions) : NgxMiddleware :=
  let rolesPath := default "user.roles" (rolesPath options) in
  let mode := default ModeAny (mode options) in
  let requireUser := default true (requireUser options) in
  let requiredRoles := requiredRoles options in
  createMiddleware "role" (reading (fun h context =>
    userMissing ←
      (if requireUser
       then user ← getValueByPath h (VRef context) "user"; mret (is_nullish user)
       else mret false);
    if (userMissing : bool) then mret false_
    else
      userRoles ← getValueByPath h (VRef context) rolesPath;
      match userRoles with
      | VRef a =>
          match cell h a with
          | CArr userRoles =>
              match mode with
              | ModeAll =>
                  mret (VAtom (ABool (forallb (fun role => includes userRoles role)
                                              requiredRoles)))
              | ModeAny =>
                  mret (VAtom (ABool (existsb (fun role => includes userRoles role)
                                              requiredRoles)))
              end
          | CObj _ => mret false_
          end
      | VAtom _ => mret false_
      end)).

(** The path the unit reads the roles from. *)
Definition effective_rolesPath (options : RoleMiddlewareOptions) : string :=
  default "user.roles" (rolesPath options).

Definition effective_mode (options : RoleMiddlewareOptions) : RoleMode :=
  default ModeAny (mode options).

(** The user check passes: it is switched off, or there is a user. *)
Definition user_present (options : RoleMiddlewareOptions) (h : Heap) (context : addr)
  : Prop :=
  requireUser options = Some false
  \/ exists user, getValueByPath h (VRef context) "user" = Ok user
                  /\ is_nullish user = false.

(** The same options with another mode. *)
Definition with_mode (m : RoleMode) (options : RoleMiddlewareOptions)
  : RoleMiddlewareOptions :=
  {| roles := roles options; rolesPath := rolesPath options;
     mode := Some m; requireUser := requireUser options |}.

(** *** Example data *)

(** [{user: {roles: ['editor', 'admin']}}] at address 0. *)
Definition editor_admin_heap : Heap :=
  {[ 0%nat := CObj {[ "user" := VRef 1%nat ]};
     1%nat := CObj {[ "roles" := VRef 2%nat ]};
     2%nat := CArr [str "editor"; str "admin"] ]}.

(** [{user: {roles: ['editor']}}] at address 0. *)
Definition editor_heap : Heap :=
  {[ 0%nat := CObj {[ "user" := VRef 1%nat ]};
     1%nat := CObj {[ "roles" := VRef 2%nat ]};
     2%nat := CArr [str "editor"] ]}.

Definition admin_or_moderator : RoleMiddlewareOptions :=
  {| roles := ManyRoles ["admin"; "moderator"]; rolesPath := None;
     mode := Some ModeAny; requireUser := None |}.

Definition editor_and_admin : RoleMiddlewareOptions :=
  {| roles := ManyRoles ["editor"; "admin"]; rolesPath := None;
     mode := Some ModeAll; requireUser := None |}.

End RoleMiddleware.

(** ** middlewares/mfa.middleware.ts *)

Module MfaMiddleware.
Import Js Core ObjectUtils SecurityHeaders.

Record MFAMiddlewareOptions : Type := {
  required : option bool;
  methods : option (list string);
  mfaPath : option string;
  mfaMethodPath : option string;
  redirect : option string;
  message : option string;
}.

(** [v === true] *)
Definition is_true (v : Value) : bool :=
  match v with
  | VAtom (ABool true) => true
  | _ => false
  end.

(** The two denials of the unit: [{ allow: false, redirect, reason }], a
    new object, when a redirect is configured (and not empty), the plain
    [false] otherwise. *)
Definition deny (h : Heap) (redirect : option string) (reason : string)
  : Outcome Value * Heap :=
  match redirect with
  | Some target =>
      if to_boolean (str target) then
        let '(response, h) :=
          alloc h (CObj {[ "allow" := false_; "redirect" := str target;
                           "reason" := str reason ]}) in
        (Ok (VRef response), h)
      else (Ok false_, h)
  | None => (Ok false_, h)
  end.

Definition createMFAMiddleware (options : MFAMiddlewareOptions) : NgxMiddleware :=
  let required := default true (required options) in
  let methods := default ["totp"; "sms"; "email"] (methods options) in
  let mfaPath := default "user.mfaVerified" (mfaPath options) in
  let mfaMethodPath := default "user.mfaMethod" (mfaMethodPath options) in
  let redirect := redirect options in
  let message := default "Multi-factor authentication required" (message options) in
  createMiddleware "mfa" (fun h context =>
    if negb required then (Ok true_, h)
    else
      match getValueByPath h (VRef context) mfaPath with
      | Throw e => (Throw e, h)
      | Ok mfaVerified =>
          match getValueByPath h (VRef context) mfaMethodPath with
          | Throw e => (Throw e, h)
          | Ok mfaMethod =>
              if negb (is_true mfaVerified) then deny h redirect message
              else if to_boolean mfaMethod && typeof_string mfaMethod
                      && (0 <? length methods)%nat
              then
                match mfaMethod with
                | VAtom (AStr method) =>
                    if negb (bool_decide (method ∈ methods))
                    then deny h redirect ("MFA method " ++ method ++ " is not allowed")
                    else (Ok true_, h)
                | _ => (Ok true_, h)
                end
              else (Ok true_, h)
          end
      end).

Definition effective_mfaPath (options : MFAMiddlewareOptions) : string :=
  default "user.mfaVerified" (mfaPath options).

Definition effective_mfaMethodPath (options : MFAMiddlewareOptions) : string :=
  default "user.mfaMethod" (mfaMethodPath options).

Definition effective_methods (options : MFAMiddlewareOptions) : list string :=
  default ["totp"; "sms"; "email"] (methods options).

(** The method the context names is acceptable: it is not a non-empty
    string outside a non-empty list of allowed methods. *)
Definition method_allowed (allowed : list string) (mfaMethod : Value) : Prop :=
  forall method,
    mfaMethod = str method -> method <> EmptyString -> allowed <> [] ->
    method ∈ allowed.

(** *** Example data *)

(** [{user: {mfaVerified: true, mfaMethod: 'push'}}] at address 0. *)
Definition push_heap : Heap :=
  {[ 0%nat := CObj {[ "user" := VRef 1%nat ]};
     1%nat := CObj {[ "mfaVerified" := true_; "mfaMethod" := str "push" ]} ]}.

(** [{user: {mfaVerified: 1, mfaMethod: 'totp'}}] at address 0. *)
Definition truthy_heap : Heap :=
  {[ 0%nat := CObj {[ "user" := VRef 1%nat ]};
     1%nat := CObj {[ "mfaVerified" := VAtom (ANum 1); "mfaMethod" := str "totp" ]} ]}.

(** [{user: {mfaVerified: true, mfaMethod: 'totp'}}] at address 0. *)
Definition totp_heap : Heap :=
  {[ 0%nat := CObj {[ "user" := VRef 1%nat ]};
     1%nat := CObj {[ "mfaVerified" := true_; "mfaMethod" := str "totp" ]} ]}.

Definition default_options : MFAMiddlewareOptions :=
  {| required := None; methods := None; mfaPath := None; mfaMethodPath := None;
     redirect := None; message := None |}.

Definition redirecting_options : MFAMiddlewareOptions :=
  {| required := None; methods := None; mfaPath := None; mfaMethodPath := None;
     redirect := Some "/mfa"; message := None |}.

End MfaMiddleware.

(** ** audit/audit.sanitize.ts: the user identifier *)

Module AuditSanitize.
Import Js ObjectUtils.

(** [typeof v === 'number'] *)
Definition typeof_number (v : Value) : bool :=
  match v with
  | VAtom (ANum _) | VAtom ANaN => true
  | _ => false
  end.

(** [String(v)] for a number: the decimal digits of an integer, with its
    sign (as JavaScript prints the integers below 1e21), and [NaN]. *)
Definition number_to_string (v : Value) : string :=
  match v with
  | VAtom (ANum n) => pretty n
  | _ => "NaN"
  end.

Definition DEFAULT_USER_ID_PATHS : list string :=
  ["user.id"; "user.sessionId"; "user.userId"; "session.id"].

(** The [for (const path of userIdPaths)] loop, with its two early
    returns. *)
Fixpoint extractUserId_loop (h : Heap) (context : Value) (userIdPaths : list string)
  : Outcome Value :=
  match userIdPaths with
  | [] => Ok undefined
  | path :: userIdPaths' =>
      value ← getValueByPath h context path;
      if negb (is_nullish value) && typeof_string value then Ok value
      else if negb (is_nullish value) && typeof_number value
           then Ok (str (number_to_string value))
           else extractUserId_loop h context userIdPaths'
  end.

Definition extractUserId (h : Heap) (context : Value) (userIdPaths : option (list string))
  : Outcome Value :=
  extractUserId_loop h context (default DEFAULT_USER_ID_PATHS userIdPaths).

(** The identifier a single path yields: the string found there, or the
    number found there printed; nothing for any other value. *)
Definition identifier (h : Heap) (context : Value) (path : string) : option string :=
  match getValueByPath h context path with
  | Ok (VAtom (AStr s)) => Some s
  | Ok (VAtom (ANum n)) => Some (pretty n)
  | Ok (VAtom ANaN) => Some "NaN"
  | _ => None
  end.

(** *** Example data *)

(** [{user: {id: {}, sessionId: '', userId: 7}, session: {id: 's-1'}}] at
    address 0. *)
Definition session_heap : Heap :=
  {[ 0%nat := CObj {[ "user" := VRef 1%nat; "session" := VRef 3%nat ]};
     1%nat := CObj {[ "id" := VRef 2%nat; "sessionId" := str EmptyString;
                      "userId" := VAtom (ANum 7) ]};
     2%nat := CObj ∅;
     3%nat := CObj {[ "id" := str "s-1" ]} ]}.

End AuditSanitize.

(** ** security-headers: the policy generator and the helper units *)

Module SecurityHeaderHelpers.
Import Js Core SecurityHeaders.

(** [parts.join(sep)] on an array of strings. *)
Fixpoint join (sep : string) (parts : list string) : string :=
  match parts with
  | [] => EmptyString
  | part :: parts' =>
      match parts' with
      | [] => part
      | _ :: _ => part ++ sep ++ join sep parts'
      end
  end.

(** The value of a directive: a boolean, an array of sources, or anything
    else (a property set to [undefined]). *)
Inductive DirectiveValue : Type :=
  | Flag (b : bool)
  | Sources (value : list string)
  | Missing.

(** A directives object, as [Object.entries] lists it: its properties in
    the order they were added (directive names are not array indices). *)
Abbreviation CSPDirectives := (list (string * DirectiveValue)).

(** One iteration of the loop over [Object.entries(directives)]. *)
Definition generateCSP_step (parts : list string) (entry : string * DirectiveValue)
  : list string :=
  let '(key, value) := entry in
  match value with
  | Flag b => if b then (parts ++ [key])%list else parts
  | Sources value =>
      if (0 <? length value)%nat then (parts ++ [(key ++ " " ++ join " " value)%string])%list
      else parts
  | Missing => parts
  end.

Definition generateCSP (directives : CSPDirectives) : string :=
  join "; " (fold_left generateCSP_step directives []).

(** A directive that contributes to the policy. *)
Definition active (entry : string * DirectiveValue) : bool :=
  match snd entry with
  | Flag b => b
  | Sources value => (0 <? length value)%nat
  | Missing => false
  end.

Record CSPOptions : Type := {
  directives : CSPDirectives;
  reportOnly : option bool;
}.

Definition csp_header_name (options : CSPOptions) : string :=
  if default false (reportOnly options) then "Content-Security-Policy-Report-Only"
  else "Content-Security-Policy".

Definition createCSP (options : CSPOptions) : NgxMiddleware :=
  let headerName := csp_header_name options in
  let headerValue := generateCSP (directives options) in
  securityHeadersMiddleware
    {| headers := {[ headerName := Static headerValue ]}; overwrite := Some true |}.

Record CommonSecurityHeadersOptions : Type := {
  requestSource : option HeaderValue;
  clientVersion : option HeaderValue;
  customHeaders : option (gmap string HeaderValue);
  common_overwrite : option bool;
}.

(** Truthiness of an optional header value: a function is truthy, a string
    unless it is empty. *)
Definition given (value : option HeaderValue) : bool :=
  match value with
  | Some (Static s) => negb (String.eqb s EmptyString)
  | Some (Dynamic _) => true
  | None => false
  end.

(** [...(value && { [name]: value })] *)
Definition spread_given (name : string) (value : option HeaderValue)
  : gmap string HeaderValue :=
  match value with
  | Some v => if given value then {[ name := v ]} else ∅
  | None => ∅
  end.

(** The [headers] object literal: a later spread replaces the properties
    of an earlier one. *)
Definition common_headers (options : CommonSecurityHeadersOptions)
  : gmap string HeaderValue :=
  default ∅ (customHeaders options)
  ∪ spread_given "X-Client-Version" (clientVersion options)
  ∪ spread_given "X-Request-Source" (requestSource options).

Definition createSecurityHeaders (options : CommonSecurityHeadersOptions) : NgxMiddleware :=
  securityHeadersMiddleware
    {| headers := common_headers options; overwrite := common_overwrite options |}.

(** *** Example data *)

Definition strict_directives : CSPDirectives :=
  [ ("default-src", Sources ["'self'"]);
    ("script-src", Sources []);
    ("upgrade-insecure-requests", Flag true);
    ("block-all-mixed-content", Flag false);
    ("img-src", Sources ["'self'"; "data:"]) ].

Definition report_only_options : CSPOptions :=
  {| directives := strict_directives; reportOnly := Some true |}.

(** A context [{contextType: 'http'}] at address 0. *)
Definition plain_heap : Heap :=
  {[ 0%nat := CObj {[ "contextType" := str "http" ]} ]}.

(** [{requestSource: 'web', clientVersion: '', customHeaders:
    {'X-Request-Source': () => 'mobile', 'X-Trace': 'on'}}] *)
Definition common_options : CommonSecurityHeadersOptions :=
  {| requestSource := Some (Static "web");
     clientVersion := Some (Static EmptyString);
     customHeaders := Some {[ "X-Request-Source" := Dynamic (fun _ => Ok "mobile");
                              "X-Trace" := Static "on" ]};
     common_overwrite := None |}.

End SecurityHeaderHelpers.

(** ** Paths, key by key *)

Module PathKeys.
Import Js Core ObjectUtils AuthMiddleware.

(** A key that holds no dot. *)
Fixpoint dotless (key : string) : bool :=
  match key with
  | EmptyString => true
  | String c key' => negb (Ascii.eqb c ".") && dotless key'
  end.

(** The path that names [keys] one after the other: [keys.join('.')]. *)
Definition path_of (keys : list string) : string := String.concat "." keys.

(** *** Example data *)

(** [{user: {isAuthenticated: true}}], the context at address 0. *)
Definition authenticated_heap : Heap :=
  {[ 0%nat := CObj {[ "user" := VRef 1%nat ]};
     1%nat := CObj {[ "isAuthenticated" := true_ ]} ]}.

(** [{user: {}, session: {auth: {verified: 'yes'}}}], the context at
    address 0. *)
Definition session_auth_heap : Heap :=
  {[ 0%nat := CObj {[ "user" := VRef 1%nat; "session" := VRef 2%nat ]};
     1%nat := CObj ∅;
     2%nat := CObj {[ "auth" := VRef 3%nat ]};
     3%nat := CObj {[ "verified" := str "yes" ]} ]}.

(** [{user: 'bob'}], the context at address 0. *)
Definition named_user_heap : Heap :=
  {[ 0%nat := CObj {[ "user" := str "bob" ]} ]}.

End PathKeys.

(** ** Snapshots, step by step *)

Module SnapshotPaths.
Import Js Core DebugHook.

(** One step into a value: a property of an object, or an item of an
    array. *)
Inductive Step : Type :=
  | Key (key : string)
  | Index (i : nat).

(** [walks h v steps v']: following [steps] from [v], through own
    properties of objects and items of arrays of the heap, leads to
    [v']. *)
Inductive walks (h : Heap) : Value -> list Step -> Value -> Prop :=
  | walks_here v : walks h v [] v
  | walks_key a props key value steps v' :
      cell h a = CObj props -> props !! key = Some value ->
      walks h value steps v' -> walks h (VRef a) (Key key :: steps) v'
  | walks_index a items i item steps v' :
      cell h a = CArr items -> items !! i = Some item ->
      walks h item steps v' -> walks h (VRef a) (Index i :: steps) v'.

(** The same step on a snapshot: [o[key]], [o[i]]. *)
Definition out_step (o : Out) (step : Step) : Out :=
  match step, o with
  | Key key, OObj props => default (OAtom AUndefined) (props !! key)
  | Index i, OArr items => default (OAtom AUndefined) (items !! i)
  | _, _ => OAtom AUndefined
  end.

Definition out_steps (o : Out) (steps : list Step) : Out := foldl out_step o steps.

(** A step the sanitizer goes through: an index, or a key that is not
    sensitive.  The key [__proto__] is set apart: on the copy the
    sanitizer builds, an assignment under that name reaches the prototype
    setter instead of creating a property. *)
Definition passed (DEFAULT_SENSITIVE_FIELDS : list string) (step : Step) : Prop :=
  match step with
  | Key key => (toLowerCase key ∉ DEFAULT_SENSITIVE_FIELDS) /\ key <> "__proto__"
  | Index _ => True
  end.

(** *** Example data *)

Definition deep_world : World := {| heap := deep_heap; store := empty_store |}.

(** A list of sensitive fields with an entry that is not lower-case. *)
Definition mixed_case_fields : list string := ["password"; "apiKey"].

(** [{apiKey: 'k-1', password: 'p'}], the context at address 0. *)
Definition api_key_world : World :=
  {| heap := {[ 0%nat := CObj {[ "apiKey" := str "k-1"; "password" := str "p" ]} ]};
     store := empty_store |}.

(** [{users: [{password: 'x', id: 'u1'}], tags: ['a', 'b']}], the context
    at address 0. *)
Definition users_world : World :=
  {| heap := {[ 0%nat := CObj {[ "users" := VRef 1%nat; "tags" := VRef 3%nat ]};
                1%nat := CArr [VRef 2%nat];
                2%nat := CObj {[ "password" := str "x"; "id" := str "u1" ]};
                3%nat := CArr [str "a"; str "b"] ]};
     store := empty_store |}.

End SnapshotPaths.

(** ** The debug hook, from its two sides *)

Module DebugHookSides.
Import Js Core DebugHook.

(** [typeof o === 'function'] on a snapshot. *)
Definition out_function (o : Out) : bool :=
  match o with
  | OAtom (AFun _) => true
  | _ => false
  end.

(** No entry of an object of the snapshot is a function, at any depth
    (an item of an array may be one). *)
Fixpoint entries_replaced (o : Out) : bool :=
  match o with
  | OAtom _ => true
  | OArr items => forallb entries_replaced items
  | OObj props =>
      map_fold (fun _ item acc => negb (out_function item) && entries_replaced item && acc)
               true props
  end.

(** What the list of a store becomes when a record is pushed: the record
    comes last, after the records held, the oldest left out when
    [maxRecords] were held. *)
Definition pushed {A} (records : list A) (x : A) : list A :=
  ((if (maxRecords <=? length records)%nat then drop 1 records else records) ++ [x])%list.

(** A caller of the module: a program that invokes units on a context
    and calls the two recording functions, each step chosen from what the
    calls before it returned. *)
Inductive Caller (R : Type) : Type :=
  | Finish (r : R)
  | Invoke (middleware : NgxMiddleware) (context : addr)
           (next : Outcome Value -> Caller R)
  | RecordMiddleware (options : DebugOptions) (middleware : NgxMiddleware)
                     (index : nat) (startTime endTime : Z) (result : bool)
                     (error : option string) (next : unit -> Caller R)
  | RecordChain (options : DebugOptions) (result : MiddlewareResult)
                (totalDuration : Z)
                (middlewareExecutions : list MiddlewareExecutionRecord)
                (next : unit -> Caller R).
Arguments Finish {R} r.
Arguments Invoke {R} middleware context next.
Arguments RecordMiddleware {R} options middleware index startTime endTime result error next.
Arguments RecordChain {R} options result totalDuration middlewareExecutions next.

Fixpoint run (DEFAULT_SENSITIVE_FIELDS : list string) (env : Env) {R}
    (c : Caller R) (w : World) : R * World :=
  match c with
  | Finish r => (r, w)
  | Invoke middleware context next =>
      let '(answer, h) := call middleware (heap w) context in
      run DEFAULT_SENSITIVE_FIELDS env (next answer) {| heap := h; store := store w |}
  | RecordMiddleware options middleware index startTime endTime result error next =>
      let '(u, w) :=
        recordMiddlewareExecution DEFAULT_SENSITIVE_FIELDS env options middleware index
          startTime endTime result error w in
      run DEFAULT_SENSITIVE_FIELDS env (next u) w
  | RecordChain options result totalDuration middlewareExecutions next =>
      let '(u, w) :=
        recordChainExecution env options result totalDuration middlewareExecutions w in
      run DEFAULT_SENSITIVE_FIELDS env (next u) w
  end.

(** The same caller with its recording calls left out. *)
Fixpoint without_recording {R} (c : Caller R) : Caller R :=
  match c with
  | Finish r => Finish r
  | Invoke middleware context next =>
      Invoke middleware context (fun answer => without_recording (next answer))
  | RecordMiddleware _ _ _ _ _ _ _ next => without_recording (next tt)
  | RecordChain _ _ _ _ next => without_recording (next tt)
  end.

(** What a consumer can call on the hook. *)
Inductive HookCall : Type :=
  | GetChains
  | GetMiddlewareExecutions
  | GetLatestChain
  | GetStats
  | Clear.

Definition hook_call (hook : NgxsmkGatekeeperDebugHook) (w : World) (c : HookCall)
  : World :=
  match c with
  | GetChains => snd (hook_getChains hook w)
  | GetMiddlewareExecutions => snd (hook_getMiddlewareExecutions hook w)
  | GetLatestChain => snd (hook_getLatestChain hook w)
  | GetStats => snd (hook_getStats hook w)
  | Clear => snd (hook_clear hook w)
  end.

Definition hook_calls (hook : NgxsmkGatekeeperDebugHook) (calls : list HookCall)
    (w : World) : World := foldl (hook_call hook) w calls.

(** Whether an answer is the plain [true]. *)
Definition plainly_true (answer : Outcome Value) : bool :=
  match answer with
  | Ok (VAtom (ABool true)) => true
  | _ => false
  end.

(** *** Example data *)

(** A chain of two units on [context]: run the first, record it, run the
    second unless the first denied, record it, record the chain; the
    verdict is whether both returned [true]. *)
Definition two_unit_chain (options : DebugOptions) (first second : NgxMiddleware)
    (context : addr) : Caller bool :=
  Invoke first context (fun answer1 =>
    let allowed1 := plainly_true answer1 in
    RecordMiddleware options first 0 1000 1001 allowed1 None (fun _ =>
      if allowed1 then
        Invoke second context (fun answer2 =>
          let allowed2 := plainly_true answer2 in
          RecordMiddleware options second 1 1001 1003 allowed2 None (fun _ =>
            RecordChain options
              {| result := allowed2; stoppedAt := if allowed2 then (-1)%Z else 1%Z;
                 redirect := None |} 3 [] (fun _ => Finish allowed2)))
      else
        RecordChain options {| result := false; stoppedAt := 0%Z; redirect := None |}
          1 [] (fun _ => Finish false))).

(** [{handlers: [f], onDone: g}], the context at address 0. *)
Definition handlers_world : World :=
  {| heap := {[ 0%nat := CObj {[ "handlers" := VRef 1%nat; "onDone" := VAtom (AFun 4) ]};
                1%nat := CArr [VAtom (AFun 3)] ]};
     store := empty_store |}.

End DebugHookSides.

(** * Properties *)

(** ** helpers/object.utils.ts *)

Section ObjectUtilsProps.
Import Js ObjectUtils.

Lemma split_dot_nonempty path : split_dot path <> [].
Proof.
  induction path as [|c path IH]; simpl; [discriminate|].
  destruct (Ascii.eqb c "."); [discriminate|].
  destruct (split_dot path); discriminate.
Qed.

Lemma getValueByPath_loop_returns h keys :
  forall current, returns (getValueByPath_loop h current keys).
Proof.
  induction keys as [|key keys IH]; intros current; simpl.
  - by exists current.
  - destruct (is_nullish current || negb (typeof_object current)) eqn:Hguard.
    + by exists undefined.
    + destruct current as [[]|a]; simpl in *; try discriminate. apply IH.
Qed.

Lemma getValueByPath_loop_reaches h current keys r :
  reaches h current keys r -> getValueByPath_loop h current keys = Ok r.
Proof. induction 1 as [v|a key keys r _ IH]; simpl; [done|apply IH]. Qed.

Lemma getValueByPath_loop_stuck h current keys :
  stuck h current keys -> getValueByPath_loop h current keys = Ok undefined.
Proof.
  induction 1 as [v key keys [Hnull|Hobj]|a key keys _ IH]; simpl.
  - by rewrite Hnull.
  - by rewrite Hobj, orb_true_r.
  - apply IH.
Qed.

(** Every traversal either ends in a value or gets stuck. *)
Lemma reaches_or_stuck h keys :
  forall current, (exists r, reaches h current keys r) \/ stuck h current keys.
Proof.
  induction keys as [|key keys IH]; intros current.
  - left. exists current. constructor.
  - destruct current as [p|a].
    + right. constructor. destruct p; unfold not_traversable; simpl; auto.
    + destruct (IH (cell_member (cell h a) key)) as [[r Hr]|Hs].
      * left. exists r. by constructor.
      * right. by constructor.
Qed.

Example getValueByPath_nested :
  getValueByPath john_heap (VRef 0) "user.profile.name" = Ok (str "John").
Proof. reflexivity. Qed.

Example getValueByPath_missing :
  getValueByPath john_heap (VRef 0) "user.profile.age" = Ok undefined.
Proof. reflexivity. Qed.

Example getValueByPath_through_string :
  getValueByPath flat_profile_heap (VRef 0) "user.profile.name" = Ok undefined.
Proof. reflexivity. Qed.

Example getValueByPath_of_null :
  getValueByPath john_heap null "user.profile.name" = Ok undefined.
Proof. reflexivity. Qed.

Example getValueByPath_array_index :
  getValueByPath users_heap (VRef 0) "users.1.name" = Ok (str "Jane").
Proof. reflexivity. Qed.

(** C8. [getValueByPath] is total and never throws: on every heap, object
    and path it returns a value; that value is the one reached by
    following the path, and it is [undefined] whenever the object is
    [null] or [undefined], or a value met before the end of the path is
    [null] or not an object. *)
Theorem getValueByPath_total h obj path :
  returns (getValueByPath h obj path)
  /\ (forall r, reaches h obj (split_dot path) r -> getValueByPath h obj path = Ok r)
  /\ (stuck h obj (split_dot path) -> getValueByPath h obj path = Ok undefined)
  /\ (is_nullish obj = true -> getValueByPath h obj path = Ok undefined)
  /\ ((exists r, reaches h obj (split_dot path) r) \/ stuck h obj (split_dot path)).
Proof.
  unfold getValueByPath. repeat split.
  - apply getValueByPath_loop_returns.
  - apply getValueByPath_loop_reaches.
  - apply getValueByPath_loop_stuck.
  - intros Hnull. pose proof (split_dot_nonempty path) as Hne.
    destruct (split_dot path) as [|key keys]; [done|].
    simpl. by rewrite Hnull.
  - apply reaches_or_stuck.
Qed.

Lemma getValueByPath_total_witness :
  getValueByPath john_heap (VRef 0) "user.profile.name" = Ok (str "John")
  /\ getValueByPath flat_profile_heap (VRef 0) "user.profile.name" = Ok undefined
  /\ getValueByPath john_heap null "user.profile.name" = Ok undefined.
Proof.
  split; [|split].
  - destruct (getValueByPath_total john_heap (VRef 0) "user.profile.name")
      as (_ & Hreach & _).
    apply Hreach. vm_compute. do 3 apply reaches_member. apply reaches_here.
  - destruct (getValueByPath_total flat_profile_heap (VRef 0) "user.profile.name")
      as (_ & _ & Hstuck & _).
    apply Hstuck. vm_compute. do 2 apply stuck_member. apply stuck_here. by right.
  - destruct (getValueByPath_total john_heap null "user.profile.name")
      as (_ & _ & _ & Hnull & _).
    apply Hnull. reflexivity.
Defined.

End ObjectUtilsProps.

(** ** middlewares/auth.middleware.ts *)

Section AuthMiddlewareProps.
Import Js Core ObjectUtils AuthMiddleware PathKeys.

(** Without a user, and unless [requireUser] is switched off, the unit
    denies with the plain boolean. *)
Lemma createAuthMiddleware_no_user options h context user :
  requireUser options <> Some false ->
  getValueByPath h (VRef context) "user" = Ok user ->
  is_nullish user = true ->
  call (createAuthMiddleware options) h context = (Ok false_, h).
Proof.
  intros Hreq Huser Hnull.
  cbv beta iota zeta delta [createAuthMiddleware createMiddleware reading call].
  destruct (requireUser options) as [[]|]; try done; cbn [default];
    by rewrite Huser; cbn; rewrite Hnull.
Qed.

Lemma split_dot_dotless key : dotless key = true -> split_dot key = [key].
Proof.
  induction key as [|c key IH]; [done|].
  cbn [dotless split_dot]. intros [Hc Hkey]%andb_prop.
  apply negb_true_iff in Hc. rewrite Hc. by rewrite IH.
Qed.

Lemma split_dot_segment key rest :
  dotless key = true -> split_dot (key ++ "." ++ rest) = key :: split_dot rest.
Proof.
  induction key as [|c key IH]; [done|].
  cbn [dotless]. intros [Hc Hkey]%andb_prop. apply negb_true_iff in Hc.
  change (String c key ++ "." ++ rest) with (String c (key ++ "." ++ rest)).
  cbn [split_dot]. rewrite Hc. by rewrite IH.
Qed.

(** Splitting a path at its dots gives back the keys it was made of. *)
Lemma split_dot_path_of keys :
  keys <> [] -> Forall (fun key => dotless key = true) keys ->
  split_dot (path_of keys) = keys.
Proof.
  intros Hne Hkeys. induction Hkeys as [|key keys Hkey Hkeys IH]; [done|].
  destruct keys as [|key' keys].
  - by apply split_dot_dotless.
  - change (path_of (key :: key' :: keys))
      with (key ++ "." ++ path_of (key' :: keys)).
    rewrite split_dot_segment by done. by rewrite IH.
Qed.

Lemma getValueByPath_user h context :
  getValueByPath h (VRef context) "user" = Ok (cell_member (cell h context) "user").
Proof. reflexivity. Qed.

(** With a user, the unit answers [Boolean] of what [getValueByPath]
    finds, whether or not [requireUser] is set. *)
Lemma createAuthMiddleware_with_user options h context isAuthenticated :
  is_nullish (cell_member (cell h context) "user") = false ->
  getValueByPath h (VRef context) (effective_authPath options) = Ok isAuthenticated ->
  call (createAuthMiddleware options) h context
  = (Ok (VAtom (ABool (to_boolean isAuthenticated))), h).
Proof.
  intros Huser Hauth.
  cbv beta iota zeta delta [createAuthMiddleware createMiddleware reading call].
  fold (effective_authPath options). rewrite Hauth.
  destruct (default true (requireUser options)); [|done].
  by rewrite getValueByPath_user; cbn; rewrite Huser.
Qed.

(** C7. The auth unit configured with [authPath: 'user.isAuthenticated']
    answers the plain boolean [false] on [{user: {isAuthenticated:
    false}}], and leaves the context as it was.  More generally, with
    that path (given or by default) and a user object in the context, it
    answers [Boolean] of the user object's [isAuthenticated] property; and
    with any path, made of the keys [keys] joined by dots, whenever the
    context's [user] is neither [null] nor [undefined], it answers
    [Boolean] of the value that following [keys] from the context
    reaches, which is [false] when the keys cannot be followed to the
    end. *)
Theorem createAuthMiddleware_boolean :
  call (createAuthMiddleware {| authPath := Some "user.isAuthenticated";
                                requireUser := None |})
       unauthenticated_heap 0
    = (Ok false_, unauthenticated_heap)
  /\ (forall options h context user,
        effective_authPath options = "user.isAuthenticated" ->
        cell_member (cell h context) "user" = VRef user ->
        call (createAuthMiddleware options) h context
        = (Ok (VAtom (ABool (to_boolean
                               (cell_member (cell h user) "isAuthenticated")))), h))
  /\ (forall options h context keys,
        effective_authPath options = path_of keys ->
        keys <> [] -> Forall (fun key => dotless key = true) keys ->
        is_nullish (cell_member (cell h context) "user") = false ->
        (forall value,
           reaches h (VRef context) keys value ->
           call (createAuthMiddleware options) h context
           = (Ok (VAtom (ABool (to_boolean value))), h))
        /\ (stuck h (VRef context) keys ->
            call (createAuthMiddleware options) h context = (Ok false_, h))).
Proof.
  assert (forall options h context keys,
            effective_authPath options = path_of keys ->
            keys <> [] -> Forall (fun key => dotless key = true) keys ->
            is_nullish (cell_member (cell h context) "user") = false ->
            (forall value,
               reaches h (VRef context) keys value ->
               call (createAuthMiddleware options) h context
               = (Ok (VAtom (ABool (to_boolean value))), h))
            /\ (stuck h (VRef context) keys ->
                call (createAuthMiddleware options) h context = (Ok false_, h)))
    as Hgeneral.
  { intros options h context keys Hpath Hne Hkeys Huser. split.
    - intros value Hreaches. apply createAuthMiddleware_with_user; [done|].
      unfold getValueByPath. rewrite Hpath, split_dot_path_of by done.
      by apply getValueByPath_loop_reaches.
    - intros Hstuck.
      change false_ with (VAtom (ABool (to_boolean undefined))).
      apply createAuthMiddleware_with_user; [done|].
      unfold getValueByPath. rewrite Hpath, split_dot_path_of by done.
      by apply getValueByPath_loop_stuck. }
  split; [reflexivity|]. split; [|exact Hgeneral].
  intros options h context user Hpath Huser.
  apply (Hgeneral options h context ["user"; "isAuthenticated"]); try done.
  - repeat constructor.
  - by rewrite Huser.
  - apply reaches_member. rewrite Huser. apply reaches_member. apply reaches_here.
Qed.

Lemma createAuthMiddleware_boolean_witness :
  call (createAuthMiddleware {| authPath := None; requireUser := Some true |})
       authenticated_heap 0
    = (Ok true_, authenticated_heap)
  /\ call (createAuthMiddleware {| authPath := None; requireUser := Some true |})
          unauthenticated_heap 0
     = (Ok false_, unauthenticated_heap)
  /\ call (createAuthMiddleware {| authPath := Some "session.auth.verified";
                                   requireUser := None |})
          session_auth_heap 0
     = (Ok true_, session_auth_heap)
  /\ call (createAuthMiddleware {| authPath := None; requireUser := None |})
          named_user_heap 0
     = (Ok false_, named_user_heap).
Proof.
  destruct createAuthMiddleware_boolean as (_ & Hdefault & Hgeneral).
  split; [|split; [|split]].
  - apply (Hdefault {| authPath := None; requireUser := Some true |}
             authenticated_heap 0%nat 1%nat); reflexivity.
  - apply (Hdefault {| authPath := None; requireUser := Some true |}
             unauthenticated_heap 0%nat 1%nat); reflexivity.
  - destruct (Hgeneral {| authPath := Some "session.auth.verified"; requireUser := None |}
                session_auth_heap 0%nat ["session"; "auth"; "verified"])
      as [Hreaches _]; [reflexivity|discriminate|repeat constructor|reflexivity|].
    apply (Hreaches (str "yes")). do 3 apply reaches_member. apply reaches_here.
  - destruct (Hgeneral {| authPath := None; requireUser := None |}
                named_user_heap 0%nat ["user"; "isAuthenticated"])
      as [_ Hstuck]; [reflexivity|discriminate|repeat constructor|reflexivity|].
    apply Hstuck. apply stuck_member. apply stuck_here. by right.
Defined.

End AuthMiddlewareProps.

(** ** The execution store *)

Section ExecutionStoreProps.
Import Js DebugHook.

Lemma push_bounded_below {A} (records : list A) x :
  length records < maxRecords -> push_bounded records x = (records ++ [x])%list.
Proof.
  intros Hlt. unfold push_bounded.
  destruct (Nat.ltb_spec maxRecords (length (records ++ [x]))) as [Hover|_]; [|done].
  rewrite length_app in Hover. simpl in Hover. lia.
Qed.

Lemma push_bounded_full {A} (records : list A) x oldest newer :
  records = oldest :: newer -> length records = maxRecords ->
  push_bounded records x = (newer ++ [x])%list.
Proof.
  intros -> Hfull. unfold push_bounded.
  destruct (Nat.ltb_spec maxRecords (length ((oldest :: newer) ++ [x]))) as [_|Hfits].
  - done.
  - rewrite length_app in Hfits. simpl in *. lia.
Qed.

Lemma push_bounded_length {A} (records : list A) x :
  length records <= maxRecords -> length (push_bounded records x) <= maxRecords.
Proof.
  intros Hle. unfold push_bounded.
  destruct (Nat.ltb_spec maxRecords (length (records ++ [x]))) as [_|Hfits]; [|done].
  rewrite length_drop, length_app. simpl. lia.
Qed.

Lemma store_step_within_bound s op : within_bound s -> within_bound (store_step s op).
Proof.
  intros [Hc Hm]. destruct op; split; simpl; auto using push_bounded_length.
Qed.

Lemma store_run_within_bound ops :
  forall s, within_bound s -> within_bound (store_run ops s).
Proof.
  unfold store_run. induction ops as [|op ops IH]; intros s Hs; simpl; [done|].
  apply IH. by apply store_step_within_bound.
Qed.

(** C2. The execution store is a ring buffer of 100 entries: whatever
    sequence of [addChain] and [addMiddlewareExecution] it has received,
    it holds at most 100 records of each kind; an add below the bound
    appends, and an add to a full list drops exactly the oldest record
    and keeps the newer ones, in insertion order, before the new one;
    neither operation touches the other list. *)
Theorem store_ring_buffer :
  maxRecords = 100
  /\ (forall ops,
        length (chains (store_run ops empty_store)) <= maxRecords
        /\ length (middlewareExecutions (store_run ops empty_store)) <= maxRecords)
  /\ (forall s chain,
        middlewareExecutions (addChain chain s) = middlewareExecutions s
        /\ (length (chains s) < maxRecords ->
            chains (addChain chain s) = (chains s ++ [chain])%list)
        /\ (forall oldest newer,
              chains s = oldest :: newer -> length (chains s) = maxRecords ->
              chains (addChain chain s) = (newer ++ [chain])%list))
  /\ (forall s execution,
        chains (addMiddlewareExecution execution s) = chains s
        /\ (length (middlewareExecutions s) < maxRecords ->
            middlewareExecutions (addMiddlewareExecution execution s)
            = (middlewareExecutions s ++ [execution])%list)
        /\ (forall oldest newer,
              middlewareExecutions s = oldest :: newer ->
              length (middlewareExecutions s) = maxRecords ->
              middlewareExecutions (addMiddlewareExecution execution s)
              = (newer ++ [execution])%list)).
Proof.
  split; [reflexivity|]. split; [|split].
  - intros ops. apply (store_run_within_bound ops empty_store).
    split; simpl; unfold maxRecords; lia.
  - intros s chain. split; [done|]. split.
    + apply push_bounded_below.
    + intros oldest newer. apply push_bounded_full.
  - intros s execution. split; [done|]. split.
    + apply push_bounded_below.
    + intros oldest newer. apply push_bounded_full.
Qed.

Lemma store_ring_buffer_witness :
  chains (addChain (sample_chain 100) (store_after 100))
    = (map sample_chain (seq 1 99) ++ [sample_chain 100])%list
  /\ middlewareExecutions (addMiddlewareExecution (sample_execution 100) (store_after 100))
    = (map sample_execution (seq 1 99) ++ [sample_execution 100])%list
  /\ chains (addChain (sample_chain 3) (store_after 3))
    = (chains (store_after 3) ++ [sample_chain 3])%list
  /\ middlewareExecutions (addMiddlewareExecution (sample_execution 3) (store_after 3))
    = (middlewareExecutions (store_after 3) ++ [sample_execution 3])%list.
Proof.
  destruct store_ring_buffer as (_ & _ & Hchain & Hexecution).
  split; [|split; [|split]].
  - destruct (Hchain (store_after 100) (sample_chain 100)) as (_ & _ & Hfull).
    apply (Hfull (sample_chain 0)); vm_compute; reflexivity.
  - destruct (Hexecution (store_after 100) (sample_execution 100)) as (_ & _ & Hfull).
    apply (Hfull (sample_execution 0)); vm_compute; reflexivity.
  - destruct (Hchain (store_after 3) (sample_chain 3)) as (_ & Hbelow & _).
    apply Hbelow. vm_compute. lia.
  - destruct (Hexecution (store_after 3) (sample_execution 3)) as (_ & Hbelow & _).
    apply Hbelow. vm_compute. lia.
Defined.

End ExecutionStoreProps.

(** ** The sanitizer *)

Section SanitizerProps.
Import Js Core DebugHook.

Variable DEFAULT_SENSITIVE_FIELDS : list string.

#[local] Abbreviation SENSITIVE := (SENSITIVE_KEYS DEFAULT_SENSITIVE_FIELDS).
#[local] Abbreviation filter := (filterSensitiveData DEFAULT_SENSITIVE_FIELDS).
#[local] Abbreviation filtered_value := (DebugHook.filtered_value DEFAULT_SENSITIVE_FIELDS).

Lemma filter_entry_insert recurse key value filtered :
  filter_entry DEFAULT_SENSITIVE_FIELDS recurse key value filtered
  = <[key := filtered_value recurse key value]> filtered.
Proof.
  unfold filter_entry, DebugHook.filtered_value.
  destruct (bool_decide _); [done|]. by destruct (typeof_function value).
Qed.

Lemma filter_entries_lookup recurse (props : gmap string Value) key :
  map_fold (filter_entry DEFAULT_SENSITIVE_FIELDS recurse) ∅ props !! key
  = filtered_value recurse key <$> props !! key.
Proof.
  apply (map_fold_weak_ind
           (fun (filtered : gmap string Out) (props : gmap string Value) =>
              filtered !! key = filtered_value recurse key <$> props !! key)).
  - by rewrite !lookup_empty.
  - intros k value m filtered _ IH. rewrite filter_entry_insert.
    destruct (decide (k = key)) as [->|Hne].
    + by rewrite !lookup_insert_eq.
    + by rewrite !lookup_insert_ne.
Qed.

(** The defining equations of [filterSensitiveData], case by case. *)
Lemma filter_beyond_max h obj depth maxDepth :
  maxDepth < depth -> filter h obj depth maxDepth = ostr "[Max Depth Reached]".
Proof.
  intros Hdeep. rewrite filterSensitiveData_equation_1.
  destruct (decide (maxDepth < depth)); [done|lia].
Qed.

Lemma filter_atom h (p : Atom) depth maxDepth :
  depth <= maxDepth -> filter h (VAtom p) depth maxDepth = OAtom p.
Proof.
  intros Hle. rewrite filterSensitiveData_equation_1.
  destruct (decide (maxDepth < depth)); [lia|done].
Qed.

Lemma filter_object h a props depth maxDepth :
  depth <= maxDepth -> cell h a = CObj props ->
  filter h (VRef a) depth maxDepth
  = OObj (map_fold (filter_entry DEFAULT_SENSITIVE_FIELDS
                      (fun value => filter h value (depth + 1) maxDepth)) ∅ props).
Proof.
  intros Hle Hcell. rewrite filterSensitiveData_equation_1.
  destruct (decide (maxDepth < depth)); [lia|]. simpl. by rewrite Hcell.
Qed.

Lemma filter_array h a items depth maxDepth :
  depth <= maxDepth -> cell h a = CArr items ->
  filter h (VRef a) depth maxDepth
  = OArr (map (fun item => filter h item (depth + 1) maxDepth) items).
Proof.
  intros Hle Hcell. rewrite filterSensitiveData_equation_1.
  destruct (decide (maxDepth < depth)); [lia|]. simpl. by rewrite Hcell.
Qed.

Lemma filter_object_member h a props depth maxDepth key :
  depth <= maxDepth -> cell h a = CObj props ->
  out_member (filter h (VRef a) depth maxDepth) key
  = default (OAtom AUndefined)
      (filtered_value (fun value => filter h value (depth + 1) maxDepth) key
         <$> props !! key).
Proof.
  intros Hle Hcell. rewrite (filter_object h a props) by done.
  simpl. by rewrite filter_entries_lookup.
Qed.

Lemma out_height_props_le (props : gmap string Out) n :
  (forall key item, props !! key = Some item -> out_height item <= n) ->
  map_fold (fun _ item acc => Nat.max (out_height item) acc) 0 props <= n.
Proof.
  apply (map_fold_weak_ind
           (fun r (props : gmap string Out) =>
              (forall key item, props !! key = Some item -> out_height item <= n) ->
              r <= n)).
  - lia.
  - intros key item m r Hfresh IH Hall.
    apply Nat.max_lub.
    + apply (Hall key). by rewrite lookup_insert_eq.
    + apply IH. intros k v Hk. apply (Hall k).
      rewrite lookup_insert_ne; [done|]. intros ->. congruence.
Qed.

Lemma out_height_items_le (items : list Out) n :
  Forall (fun item => out_height item <= n) items ->
  foldr (fun item acc => Nat.max (out_height item) acc) 0 items <= n.
Proof. induction 1; simpl; lia. Qed.

Lemma filter_height maxDepth h n :
  forall depth obj,
    S maxDepth - depth = n -> out_height (filter h obj depth maxDepth) <= n.
Proof.
  induction n as [|n IH]; intros depth obj Hn.
  - rewrite filter_beyond_max by lia. simpl. lia.
  - assert (depth <= maxDepth) as Hle by lia.
    destruct obj as [p|a].
    + rewrite filter_atom by done. simpl. lia.
    + destruct (cell h a) as [props|items] eqn:Hcell.
      * rewrite (filter_object h a props) by done. simpl.
        apply le_n_S, out_height_props_le. intros key item.
        rewrite filter_entries_lookup.
        destruct (props !! key) as [value|]; simpl; [|done].
        intros [= <-]. unfold DebugHook.filtered_value.
        destruct (bool_decide _); [simpl; lia|].
        destruct (typeof_function value); [simpl; lia|].
        apply IH. lia.
      * rewrite (filter_array h a items) by done. simpl.
        apply le_n_S, out_height_items_le, Forall_map, Forall_forall.
        intros item _. apply IH. lia.
Qed.

Example filter_cyclic :
  filterSensitiveData spec_sensitive_fields cyclic_heap (VRef 0) 0 3
  = OObj {[ "self" := OObj {[ "self" := OObj {[ "self" := OObj {[ "self" :=
      ostr "[Max Depth Reached]" ]} ]} ]} ]}.
Proof. vm_compute. reflexivity. Qed.


End SanitizerProps.



(** ** The recording functions *)

Section RecordingProps.
Import Js Core DebugHook DebugHookMore SnapshotPaths DebugHookSides.

Variable DEFAULT_SENSITIVE_FIELDS : list string.

#[local] Abbreviation SENSITIVE := (SENSITIVE_KEYS DEFAULT_SENSITIVE_FIELDS).
#[local] Abbreviation filter := (filterSensitiveData DEFAULT_SENSITIVE_FIELDS).
#[local] Abbreviation sanitize := (sanitizeContext DEFAULT_SENSITIVE_FIELDS).
#[local] Abbreviation recordMiddleware :=
  (recordMiddlewareExecution DEFAULT_SENSITIVE_FIELDS).
#[local] Abbreviation recordChain := recordChainExecution.

Lemma sensitive_key key :
  toLowerCase key ∈ SENSITIVE <-> toLowerCase key ∈ DEFAULT_SENSITIVE_FIELDS.
Proof. unfold SENSITIVE_KEYS. by rewrite elem_of_list_to_set. Qed.

Lemma filtered_value_sensitive recurse key value :
  toLowerCase key ∈ DEFAULT_SENSITIVE_FIELDS ->
  filtered_value DEFAULT_SENSITIVE_FIELDS recurse key value = ostr "[Filtered]".
Proof.
  intros Hin. unfold filtered_value.
  by rewrite bool_decide_eq_true_2 by by apply sensitive_key.
Qed.

Lemma filtered_value_plain recurse key value :
  toLowerCase key ∉ DEFAULT_SENSITIVE_FIELDS -> typeof_function value = false ->
  filtered_value DEFAULT_SENSITIVE_FIELDS recurse key value = recurse value.
Proof.
  intros Hout Hfun. unfold filtered_value.
  rewrite bool_decide_eq_false_2 by by rewrite sensitive_key.
  by rewrite Hfun.
Qed.

(** What the snapshot of a context object holds under each of the
    context's own keys. *)
Lemma sanitizeContext_lookup h context props key value :
  cell h context = CObj props -> props !! key = Some value ->
  sanitize h context !! key
  = Some (filtered_value DEFAULT_SENSITIVE_FIELDS
            (fun value => filter h value 1 3) key value).
Proof.
  intros Hcell Hkey. unfold sanitizeContext.
  rewrite (filter_object DEFAULT_SENSITIVE_FIELDS h context props) by (done || lia).
  unfold object_assign. apply lookup_union_Some_l.
  by rewrite filter_entries_lookup, Hkey.
Qed.

Lemma last_push_bounded {A} (records : list A) x :
  last (push_bounded records x) = Some x.
Proof.
  unfold push_bounded.
  destruct (maxRecords <? length (records ++ [x])%list)%nat eqn:Hover.
  - destruct records as [|oldest newer]; [done|]. simpl. by rewrite drop_0, last_snoc.
  - by rewrite last_snoc.
Qed.

Lemma recordMiddlewareExecution_snapshot env options middleware index
    startTime endTime result error w :
  isDevelopment env = true -> has_window env = true ->
  latest_snapshot
    (store (snd (recordMiddleware env options middleware index
                   startTime endTime result error w)))
  = Some (sanitize (heap w) (opt_context options)).
Proof.
  intros Hdev Hwin. unfold recordMiddlewareExecution, latest_snapshot.
  rewrite Hdev, Hwin. simpl. by rewrite last_push_bounded.
Qed.

Lemma walks_not_function h v steps v' :
  walks h v steps v' -> typeof_function v' = false -> typeof_function v = false.
Proof. by destruct 1. Qed.

Lemma out_steps_snoc o steps step :
  out_steps o (steps ++ [step]) = out_step (out_steps o steps) step.
Proof. unfold out_steps. by rewrite foldl_app. Qed.

(** Along steps the sanitizer goes through, the snapshot of a value holds
    the snapshot of the value the steps lead to, taken one level deeper
    per step. *)
Lemma filter_walks h maxDepth v steps v' :
  walks h v steps v' ->
  Forall (passed DEFAULT_SENSITIVE_FIELDS) steps ->
  typeof_function v' = false ->
  forall depth,
    depth + length steps <= S maxDepth ->
    out_steps (filter h v depth maxDepth) steps
    = filter h v' (depth + length steps) maxDepth.
Proof.
  induction 1 as [v|a props key value steps v' Hcell Hkey Hwalk IH
                 |a items i item steps v' Hcell Hitem Hwalk IH];
    intros Hpassed Hfun depth Hdepth; cbn [length] in *.
  - by rewrite Nat.add_0_r.
  - inversion Hpassed as [|? ? Hstep Hrest]; subst. destruct Hstep as [Hplain _].
    unfold out_steps. cbn [foldl].
    rewrite (filter_object DEFAULT_SENSITIVE_FIELDS h a props) by (done || lia).
    cbn [out_step]. rewrite filter_entries_lookup, Hkey. cbn.
    rewrite filtered_value_plain by eauto using walks_not_function.
    fold (out_steps (filter h value (depth + 1) maxDepth) steps).
    rewrite IH by (done || lia). f_equal. lia.
  - inversion Hpassed as [|? ? _ Hrest]; subst.
    unfold out_steps. cbn [foldl].
    rewrite (filter_array DEFAULT_SENSITIVE_FIELDS h a items) by (done || lia).
    cbn [out_step]. rewrite list_lookup_fmap, Hitem. cbn.
    fold (out_steps (filter h item (depth + 1) maxDepth) steps).
    rewrite IH by (done || lia). f_equal. lia.
Qed.

Lemma sanitizeContext_walks h context props steps v' :
  cell h context = CObj props ->
  walks h (VRef context) steps v' -> steps <> [] ->
  Forall (passed DEFAULT_SENSITIVE_FIELDS) steps ->
  typeof_function v' = false ->
  length steps <= 4 ->
  out_steps (OObj (sanitize h context)) steps = filter h v' (length steps) 3.
Proof.
  intros Hcell Hwalks Hne Hpassed Hfun Hlen.
  pose proof (filter_walks h 3 (VRef context) steps v' Hwalks Hpassed Hfun 0) as Hfilter.
  rewrite Nat.add_0_l in Hfilter. rewrite <- Hfilter by lia. clear Hfilter.
  inversion Hwalks as [|a props' key value steps' ? Hcell' Hkey Hrest
                      |a items i item steps' ? Hcell' _ _]; subst;
    [done| |congruence].
  rewrite Hcell in Hcell'. injection Hcell' as <-.
  unfold out_steps. cbn [foldl]. f_equal. cbn [out_step].
  rewrite (sanitizeContext_lookup h context props key value) by done.
  rewrite (filter_object DEFAULT_SENSITIVE_FIELDS h context props) by (done || lia).
  by rewrite filter_entries_lookup, Hkey.
Qed.

(** C3 (amended). In debug mode, the snapshot recorded with a middleware
    execution holds ['[Filtered]'] under every own key whose lower-case
    form is in the sensitive-field set, in the context and in every object
    nested at most three steps below it; it holds every scalar that is
    not a function as it is when the scalar lies at most three steps
    below the context, and ['[Max Depth Reached]'] in its place when it
    lies four steps below.  A step is a property of an object or an item
    of an array, and the steps go through keys that are not sensitive
    (and not [__proto__]).  With ['password'] in the set (and ['user'] and
    ['id'] not), the snapshot of [{user: {password: 'secret123', id:
    'u1'}}] has [user.password] equal to the marker and [user.id] equal to
    ['u1']. *)
Theorem recordMiddlewareExecution_redacts env options middleware index
    startTime endTime result error w props :
  isDevelopment env = true -> has_window env = true ->
  cell (heap w) (opt_context options) = CObj props ->
  exists snapshot,
    latest_snapshot
      (store (snd (recordMiddleware env options middleware index
                     startTime endTime result error w)))
    = Some snapshot
    /\ (forall steps a inner key value,
          walks (heap w) (VRef (opt_context options)) steps (VRef a) ->
          Forall (passed DEFAULT_SENSITIVE_FIELDS) steps ->
          length steps <= 3 ->
          cell (heap w) a = CObj inner ->
          inner !! key = Some value ->
          toLowerCase key ∈ DEFAULT_SENSITIVE_FIELDS ->
          key <> "__proto__" ->
          out_steps (OObj snapshot) (steps ++ [Key key]) = ostr "[Filtered]")
    /\ (forall steps p,
          walks (heap w) (VRef (opt_context options)) steps (VAtom p) ->
          Forall (passed DEFAULT_SENSITIVE_FIELDS) steps ->
          typeof_function (VAtom p) = false ->
          (length steps <= 3 -> out_steps (OObj snapshot) steps = OAtom p)
          /\ (length steps = 4 ->
              out_steps (OObj snapshot) steps = ostr "[Max Depth Reached]"))
    /\ ("password" ∈ DEFAULT_SENSITIVE_FIELDS ->
        "user" ∉ DEFAULT_SENSITIVE_FIELDS ->
        "id" ∉ DEFAULT_SENSITIVE_FIELDS ->
        heap w = user_heap -> opt_context options = 0%nat ->
        out_steps (OObj snapshot) [Key "user"; Key "password"] = ostr "[Filtered]"
        /\ out_steps (OObj snapshot) [Key "user"; Key "id"] = ostr "u1").
Proof.
  intros Hdev Hwin Hcell.
  exists (sanitize (heap w) (opt_context options)).
  split; [by apply recordMiddlewareExecution_snapshot|].
  assert (forall steps a inner key value,
            walks (heap w) (VRef (opt_context options)) steps (VRef a) ->
            Forall (passed DEFAULT_SENSITIVE_FIELDS) steps ->
            length steps <= 3 ->
            cell (heap w) a = CObj inner ->
            inner !! key = Some value ->
            toLowerCase key ∈ DEFAULT_SENSITIVE_FIELDS ->
            key <> "__proto__" ->
            out_steps (OObj (sanitize (heap w) (opt_context options)))
              (steps ++ [Key key]) = ostr "[Filtered]") as Hsensitive.
  { intros steps a inner key value Hwalks Hpassed Hlen Hinner Hkey Hsens _.
    rewrite out_steps_snoc. destruct steps as [|step steps].
    - inversion Hwalks; subst. rewrite Hcell in Hinner. injection Hinner as <-.
      cbn. rewrite (sanitizeContext_lookup _ _ props key value) by done.
      by rewrite filtered_value_sensitive.
    - rewrite (sanitizeContext_walks _ _ props (step :: steps) (VRef a))
        by (done || lia).
      rewrite (filter_object DEFAULT_SENSITIVE_FIELDS _ a inner) by (done || lia).
      cbn [out_step]. rewrite filter_entries_lookup, Hkey. cbn.
      by rewrite filtered_value_sensitive. }
  assert (forall steps p,
            walks (heap w) (VRef (opt_context options)) steps (VAtom p) ->
            Forall (passed DEFAULT_SENSITIVE_FIELDS) steps ->
            typeof_function (VAtom p) = false ->
            (length steps <= 3 ->
             out_steps (OObj (sanitize (heap w) (opt_context options))) steps = OAtom p)
            /\ (length steps = 4 ->
                out_steps (OObj (sanitize (heap w) (opt_context options))) steps
                = ostr "[Max Depth Reached]")) as Hscalar.
  { intros steps p Hwalks Hpassed Hfun.
    assert (steps <> []) as Hne by (intros ->; inversion Hwalks).
    split; intros Hlen;
      rewrite (sanitizeContext_walks _ _ props steps (VAtom p)) by (done || lia).
    - by rewrite filter_atom.
    - rewrite filter_beyond_max; [done|lia]. }
  split; [exact Hsensitive|]. split; [exact Hscalar|].
  intros Hpassword Huser Hid Hheap Hcontext.
  rewrite Hheap, Hcontext in *.
  assert (walks user_heap (VRef 0) [Key "user"] (VRef 1)) as Hwalks.
  { by apply (walks_key _ 0%nat {[ "user" := VRef 1%nat ]} "user" (VRef 1)); [| |constructor]. }
  assert (passed DEFAULT_SENSITIVE_FIELDS (Key "user")) as Hstep by done.
  split.
  - apply (Hsensitive [Key "user"] 1%nat
             {[ "password" := str "secret123"; "id" := str "u1" ]}
             "password" (str "secret123")); try done.
    + by constructor.
    + simpl. lia.
  - apply (Hscalar [Key "user"; Key "id"] (AStr "u1")); try done.
    + apply (walks_key _ 0%nat {[ "user" := VRef 1%nat ]} "user" (VRef 1)); [done..|].
      by apply (walks_key _ 1%nat {[ "password" := str "secret123"; "id" := str "u1" ]}
                  "id" (str "u1")); [| |constructor].
    + by repeat constructor.
    + simpl. lia.
Qed.

(** *** What the recording functions do to the world *)

Lemma push_bounded_pushed {A} (records : list A) x :
  push_bounded records x = pushed records x.
Proof.
  unfold push_bounded, pushed, maxRecords. rewrite length_app. cbn [length].
  destruct (100 <? length records + 1)%nat eqn:Hover.
  - apply Nat.ltb_lt in Hover.
    rewrite (proj2 (Nat.leb_le 100 (length records))) by lia.
    destruct records as [|oldest records]; [simpl in Hover; lia|]. done.
  - apply Nat.ltb_ge in Hover.
    by rewrite (proj2 (Nat.leb_gt 100 (length records))) by lia.
Qed.

Lemma recordMiddlewareExecution_pushes env options middleware index
    startTime endTime result error w :
  debug_active env = true ->
  recordMiddleware env options middleware index startTime endTime result error w
  = (tt, {| heap := heap w;
            store :=
              {| chains := chains (store w);
                 middlewareExecutions :=
                   pushed (middlewareExecutions (store w))
                     (execution_of DEFAULT_SENSITIVE_FIELDS env options (heap w)
                        {| rc_middleware := middleware; rc_index := index;
                           rc_startTime := startTime; rc_endTime := endTime;
                           rc_result := result; rc_error := error |}) |} |}).
Proof.
  unfold debug_active, recordMiddlewareExecution, addMiddlewareExecution.
  destruct (isDevelopment env), (has_window env); try done. intros _. cbn.
  by rewrite push_bounded_pushed.
Qed.

Lemma recordChainExecution_pushes env options chainResult totalDuration executions w :
  debug_active env = true ->
  exists chain,
    recordChain env options chainResult totalDuration executions w
    = (tt, {| heap := heap w;
              store := {| chains := pushed (chains (store w)) chain;
                          middlewareExecutions := middlewareExecutions (store w) |} |})
    /\ ce_result chain = DebugHook.result chainResult
    /\ ce_stoppedAt chain = stoppedAt chainResult
    /\ ce_redirect chain = redirect chainResult
    /\ ce_totalDuration chain = totalDuration
    /\ ce_middlewareExecutions chain
       = slice_last (length executions) (middlewareExecutions (store w))
    /\ ce_middlewareCount chain = length (ce_middlewareExecutions chain).
Proof.
  unfold debug_active, recordChainExecution, addChain.
  destruct (isDevelopment env), (has_window env); try done. intros _. cbn.
  eexists. rewrite push_bounded_pushed. by repeat split.
Qed.

Lemma recording_inactive env options middleware index startTime endTime result error
    chainResult totalDuration executions w :
  debug_active env = false ->
  recordMiddleware env options middleware index startTime endTime result error w = (tt, w)
  /\ recordChain env options chainResult totalDuration executions w = (tt, w).
Proof.
  unfold debug_active, recordMiddlewareExecution, recordChainExecution.
  by destruct (isDevelopment env), (has_window env).
Qed.

Lemma recordMiddlewareExecution_heap env options middleware index startTime endTime
    result error w :
  heap (snd (recordMiddleware env options middleware index startTime endTime
               result error w)) = heap w.
Proof.
  unfold recordMiddlewareExecution.
  by destruct (negb (isDevelopment env) || negb (has_window env)).
Qed.

Lemma recordChainExecution_heap env options chainResult totalDuration executions w :
  heap (snd (recordChain env options chainResult totalDuration executions w)) = heap w.
Proof.
  unfold recordChainExecution.
  by destruct (negb (isDevelopment env) || negb (has_window env)).
Qed.

(** *** The snapshot holds no function under a key *)

Lemma entries_replaced_props (props : gmap string Out) :
  (forall key item,
     props !! key = Some item ->
     out_function item = false /\ entries_replaced item = true) ->
  entries_replaced (OObj props) = true.
Proof.
  cbn [entries_replaced].
  apply (map_fold_weak_ind
           (fun r (props : gmap string Out) =>
              (forall key item,
                 props !! key = Some item ->
                 out_function item = false /\ entries_replaced item = true) ->
              r = true)).
  - done.
  - intros key item m r Hfresh IH Hall.
    destruct (Hall key item) as [-> ->]; [by rewrite lookup_insert_eq|]. cbn.
    apply IH. intros k v Hk. apply (Hall k).
    rewrite lookup_insert_ne; [done|]. intros ->. congruence.
Qed.

Lemma filter_not_function h obj depth maxDepth :
  typeof_function obj = false ->
  out_function (filter h obj depth maxDepth) = false.
Proof.
  intros Hfun. destruct (decide (maxDepth < depth)) as [Hdeep|Hle].
  - by rewrite filter_beyond_max.
  - destruct obj as [p|a].
    + rewrite filter_atom by lia. by destruct p.
    + destruct (cell h a) as [props|items] eqn:Hcell.
      * by rewrite (filter_object DEFAULT_SENSITIVE_FIELDS h a props) by (done || lia).
      * by rewrite (filter_array DEFAULT_SENSITIVE_FIELDS h a items) by (done || lia).
Qed.

Lemma filtered_value_entry h depth maxDepth key value :
  (forall obj, entries_replaced (filter h obj depth maxDepth) = true) ->
  out_function
    (filtered_value DEFAULT_SENSITIVE_FIELDS
       (fun value => filter h value depth maxDepth) key value) = false
  /\ entries_replaced
       (filtered_value DEFAULT_SENSITIVE_FIELDS
          (fun value => filter h value depth maxDepth) key value) = true.
Proof.
  intros Hrec. unfold filtered_value.
  destruct (bool_decide _); [done|].
  destruct (typeof_function value) eqn:Hfun; [done|].
  split; [by apply filter_not_function|apply Hrec].
Qed.

Lemma filter_entries_replaced maxDepth h n :
  forall depth obj,
    S maxDepth - depth = n -> entries_replaced (filter h obj depth maxDepth) = true.
Proof.
  induction n as [|n IH]; intros depth obj Hn.
  - by rewrite filter_beyond_max by lia.
  - assert (depth <= maxDepth) as Hle by lia.
    destruct obj as [p|a].
    + by rewrite filter_atom.
    + destruct (cell h a) as [props|items] eqn:Hcell.
      * rewrite (filter_object DEFAULT_SENSITIVE_FIELDS h a props) by done.
        apply entries_replaced_props. intros key item.
        rewrite filter_entries_lookup.
        destruct (props !! key) as [value|]; [|done]. intros [= <-].
        apply filtered_value_entry. intros obj. apply IH. lia.
      * rewrite (filter_array DEFAULT_SENSITIVE_FIELDS h a items) by done.
        cbn [entries_replaced]. apply forallb_forall. intros item Hin.
        apply in_map_iff in Hin as (value & <- & _). apply IH. lia.
Qed.

Lemma copy_string_field_lookup_None (props : gmap string Value) field sanitized key :
  props !! key = None -> sanitized !! key = None ->
  copy_string_field (CObj props) field sanitized !! key = None.
Proof.
  intros Hprops Hsanitized. unfold copy_string_field. simpl.
  destruct (decide (field = key)) as [->|Hne].
  - by rewrite Hprops.
  - destruct (to_boolean _ && typeof_string _); [|done].
    destruct (default undefined (props !! field)); [|done].
    by rewrite lookup_insert_ne.
Qed.

Lemma sanitizeContext_entries_replaced h context props :
  cell h context = CObj props ->
  entries_replaced (OObj (sanitize h context)) = true.
Proof.
  intros Hcell. apply entries_replaced_props. intros key item.
  destruct (props !! key) as [value|] eqn:Hkey.
  - rewrite (sanitizeContext_lookup h context props key value) by done.
    intros [= <-]. apply filtered_value_entry.
    intros obj. by apply (filter_entries_replaced 3 h 3).
  - assert (sanitize h context !! key = None) as ->; [|done].
    unfold sanitizeContext.
    rewrite (filter_object DEFAULT_SENSITIVE_FIELDS h context props) by (done || lia).
    unfold object_assign. apply lookup_union_None. split.
    + by rewrite filter_entries_lookup, Hkey.
    + rewrite Hcell. by repeat apply copy_string_field_lookup_None.
Qed.

(** *** The two sides of the store: callers and consumers *)

(** What a caller computes, and what it does to the context, does not
    depend on the store, nor on the environment that switches recording
    on; and it is what the caller computes with its recording calls left
    out. *)
Lemma run_without_recording {R} (c : Caller R) :
  forall env env' w w',
    heap w = heap w' ->
    fst (run DEFAULT_SENSITIVE_FIELDS env c w)
    = fst (run DEFAULT_SENSITIVE_FIELDS env' (without_recording c) w')
    /\ heap (snd (run DEFAULT_SENSITIVE_FIELDS env c w))
       = heap (snd (run DEFAULT_SENSITIVE_FIELDS env' (without_recording c) w')).
Proof.
  induction c as [r|middleware context next IH
                 |options middleware index startTime endTime result error next IH
                 |options result totalDuration executions next IH];
    intros env env' w w' Hheap; cbn [run without_recording].
  - done.
  - rewrite Hheap. destruct (call middleware (heap w') context) as [answer h].
    by apply IH.
  - pose proof (recordMiddlewareExecution_heap env options middleware index
                  startTime endTime result error w) as Hsame.
    destruct (recordMiddleware env options middleware index startTime endTime
                result error w) as [[] w1].
    apply IH. simpl in Hsame. congruence.
  - pose proof (recordChainExecution_heap env options result totalDuration
                  executions w) as Hsame.
    destruct (recordChain env options result totalDuration executions w) as [[] w1].
    apply IH. simpl in Hsame. congruence.
Qed.

Lemma run_independent {R} (c : Caller R) env env' w w' :
  heap w = heap w' ->
  fst (run DEFAULT_SENSITIVE_FIELDS env c w) = fst (run DEFAULT_SENSITIVE_FIELDS env' c w')
  /\ heap (snd (run DEFAULT_SENSITIVE_FIELDS env c w))
     = heap (snd (run DEFAULT_SENSITIVE_FIELDS env' c w')).
Proof.
  intros Hheap.
  destruct (run_without_recording c env env w w Logic.eq_refl) as [Hfst Hsnd].
  destruct (run_without_recording c env' env w' w (eq_sym Hheap)) as [Hfst' Hsnd'].
  split; congruence.
Qed.

Lemma hook_calls_store calls :
  forall w,
    heap (hook_calls createDebugHook calls w) = heap w
    /\ (store (hook_calls createDebugHook calls w) = store w
        \/ store (hook_calls createDebugHook calls w) = empty_store).
Proof.
  unfold hook_calls.
  induction calls as [|c calls IH]; intros w; cbn [foldl]; [by split; [|left]|].
  destruct (IH (hook_call createDebugHook w c)) as [Hheap Hstore].
  destruct c; cbn in *; try done.
  split; [done|]. destruct Hstore as [->| ->]; by right.
Qed.


End RecordingProps.

(** C3, as stated, does not hold.  A scalar that is not sensitive is not
    always preserved: in [{a: {b: {c: {d: f, e: 1}}}, password: g}] the
    number under [a.b.c.e] lies four steps below the context and the
    snapshot holds ['[Max Depth Reached]'] in its place.  And a key of
    the sensitive-field set is not always redacted: the key is looked up
    in lower case, so with ['apiKey'] in the set the value under
    [apiKey] is stored as it is. *)
Lemma recordMiddlewareExecution_redacts_counterexample :
  (exists snapshot,
     DebugHook.latest_snapshot
       (DebugHook.store
          (snd (DebugHook.recordMiddlewareExecution DebugHook.spec_sensitive_fields
                  DebugHook.browser_dev_env DebugHook.http_options DebugHook.auth_unit
                  0 1000 1002 true None SnapshotPaths.deep_world)))
     = Some snapshot
     /\ Js.cell_member (Js.cell DebugHook.deep_heap 3) "e" = Js.VAtom (Js.ANum 1)
     /\ SnapshotPaths.out_steps (DebugHook.OObj snapshot)
          [SnapshotPaths.Key "a"; SnapshotPaths.Key "b"; SnapshotPaths.Key "c";
           SnapshotPaths.Key "e"]
        = DebugHook.ostr "[Max Depth Reached]"
     /\ SnapshotPaths.out_steps (DebugHook.OObj snapshot)
          [SnapshotPaths.Key "a"; SnapshotPaths.Key "b"; SnapshotPaths.Key "c";
           SnapshotPaths.Key "e"]
        <> DebugHook.OAtom (Js.ANum 1))
  /\ (exists snapshot,
        DebugHook.latest_snapshot
          (DebugHook.store
             (snd (DebugHook.recordMiddlewareExecution SnapshotPaths.mixed_case_fields
                     DebugHook.browser_dev_env DebugHook.http_options DebugHook.auth_unit
                     0 1000 1002 true None SnapshotPaths.api_key_world)))
        = Some snapshot
        /\ "apiKey" ∈ SnapshotPaths.mixed_case_fields
        /\ snapshot !! "apiKey" = Some (DebugHook.ostr "k-1")
        /\ snapshot !! "apiKey" <> Some (DebugHook.ostr "[Filtered]")
        /\ snapshot !! "password" = Some (DebugHook.ostr "[Filtered]")).
Proof.
  split; eexists; (split; [reflexivity|]).
  - vm_compute. repeat split; congruence.
  - split; [apply (bool_decide_unpack _); reflexivity|].
    vm_compute. repeat split; congruence.
Qed.

Lemma recordMiddlewareExecution_redacts_witness :
  (exists snapshot,
     DebugHook.latest_snapshot
       (DebugHook.store
          (snd (DebugHook.recordMiddlewareExecution DebugHook.spec_sensitive_fields
                  DebugHook.browser_dev_env DebugHook.http_options DebugHook.auth_unit
                  0 1000 1002 false None DebugHook.user_world)))
     = Some snapshot
     /\ SnapshotPaths.out_steps (DebugHook.OObj snapshot)
          [SnapshotPaths.Key "user"; SnapshotPaths.Key "password"]
        = DebugHook.ostr "[Filtered]"
     /\ SnapshotPaths.out_steps (DebugHook.OObj snapshot)
          [SnapshotPaths.Key "user"; SnapshotPaths.Key "id"]
        = DebugHook.ostr "u1")
  /\ (exists snapshot,
        DebugHook.latest_snapshot
          (DebugHook.store
             (snd (DebugHook.recordMiddlewareExecution DebugHook.spec_sensitive_fields
                     DebugHook.browser_dev_env DebugHook.http_options DebugHook.auth_unit
                     0 1000 1002 false None SnapshotPaths.users_world)))
        = Some snapshot
        /\ SnapshotPaths.out_steps (DebugHook.OObj snapshot)
             [SnapshotPaths.Key "users"; SnapshotPaths.Index 0;
              SnapshotPaths.Key "password"]
           = DebugHook.ostr "[Filtered]"
        /\ SnapshotPaths.out_steps (DebugHook.OObj snapshot)
             [SnapshotPaths.Key "tags"; SnapshotPaths.Index 1]
           = DebugHook.ostr "b").
Proof.
  split.
  - destruct (recordMiddlewareExecution_redacts DebugHook.spec_sensitive_fields
                DebugHook.browser_dev_env DebugHook.http_options DebugHook.auth_unit
                0 1000 1002 false None DebugHook.user_world
                {[ "user" := Js.VRef 1%nat ]} eq_refl eq_refl eq_refl)
      as (snapshot & Hlatest & _ & _ & Hexample).
    exists snapshot. split; [exact Hlatest|].
    apply Hexample; try reflexivity.
    + apply (bool_decide_unpack _). reflexivity.
    + apply (bool_decide_unpack _). reflexivity.
    + apply (bool_decide_unpack _). reflexivity.
  - destruct (recordMiddlewareExecution_redacts DebugHook.spec_sensitive_fields
                DebugHook.browser_dev_env DebugHook.http_options DebugHook.auth_unit
                0 1000 1002 false None SnapshotPaths.users_world
                {[ "users" := Js.VRef 1%nat; "tags" := Js.VRef 3%nat ]}
                eq_refl eq_refl eq_refl)
      as (snapshot & Hlatest & Hsensitive & Hscalar & _).
    exists snapshot. split; [exact Hlatest|]. split.
    + apply (Hsensitive [SnapshotPaths.Key "users"; SnapshotPaths.Index 0] 2%nat
               {[ "password" := Js.str "x"; "id" := Js.str "u1" ]}
               "password" (Js.str "x")).
      * apply (SnapshotPaths.walks_key _ 0%nat
                 {[ "users" := Js.VRef 1%nat; "tags" := Js.VRef 3%nat ]}
                 "users" (Js.VRef 1)); [reflexivity|reflexivity|].
        apply (SnapshotPaths.walks_index _ 1%nat [Js.VRef 2%nat] 0%nat (Js.VRef 2));
          [reflexivity|reflexivity|]. apply SnapshotPaths.walks_here.
      * constructor; [|constructor; [exact I|constructor]].
        split; [apply (bool_decide_unpack _); reflexivity|discriminate].
      * simpl. lia.
      * reflexivity.
      * reflexivity.
      * apply (bool_decide_unpack _). reflexivity.
      * discriminate.
    + apply (Hscalar [SnapshotPaths.Key "tags"; SnapshotPaths.Index 1] (Js.AStr "b")).
      * apply (SnapshotPaths.walks_key _ 0%nat
                 {[ "users" := Js.VRef 1%nat; "tags" := Js.VRef 3%nat ]}
                 "tags" (Js.VRef 3)); [reflexivity|reflexivity|].
        apply (SnapshotPaths.walks_index _ 3%nat [Js.str "a"; Js.str "b"] 1%nat
                 (Js.str "b")); [reflexivity|reflexivity|].
        apply SnapshotPaths.walks_here.
      * constructor; [|constructor; [exact I|constructor]].
        split; [apply (bool_decide_unpack _); reflexivity|discriminate].
      * reflexivity.
      * simpl. lia.
Defined.



(** ** extensions/extension.registry.ts *)

Section ExtensionsProps.
Import Js Extensions.

Context {Middleware : Type}.
Implicit Types (r : ExtensionRegistry Middleware) (ext : GatekeeperExtension Middleware).
Implicit Types (c : ContextCall Middleware) (op : RegistryOp Middleware).

Lemma extends_refl r : extends r r.
Proof. by repeat split. Qed.

Lemma extends_trans r1 r2 r3 : extends r1 r2 -> extends r2 r3 -> extends r1 r3.
Proof.
  intros (Hpre1 & Hpost1 & Hmerged1) (Hpre2 & Hpost2 & Hmerged2).
  repeat split; by etrans.
Qed.

Lemma context_call_extends r c : extends r (context_call r c).
Proof. destruct c; repeat split; simpl; try done; by apply prefix_app_r. Qed.

Lemma context_calls_extend calls : forall r, extends r (foldl context_call r calls).
Proof.
  induction calls as [|c calls IH]; intros r; simpl; [apply extends_refl|].
  eapply extends_trans; [apply context_call_extends|apply IH].
Qed.

Lemma context_calls_pre calls :
  forall r, preMiddleware (foldl context_call r calls)
            = (preMiddleware r ++ pre_calls calls)%list.
Proof.
  unfold pre_calls.
  induction calls as [|c calls IH]; intros r; simpl; [by rewrite app_nil_r|].
  rewrite IH. destruct c; simpl; by rewrite ?app_assoc.
Qed.

Lemma context_calls_maps calls :
  forall r, extensions (foldl context_call r calls) = extensions r
            /\ registrations (foldl context_call r calls) = registrations r.
Proof.
  induction calls as [|c calls IH]; intros r; simpl; [done|].
  destruct (IH (context_call r c)) as [-> ->]. by destruct c.
Qed.

Lemma register_extends ext r : extends r (snd (register ext r)).
Proof.
  unfold register. destruct (bool_decide _); [apply extends_refl|].
  destruct (initialize ext) as [calls [middleware|e]]; simpl;
    apply (context_calls_extend calls r).
Qed.

Lemma register_fresh_pre ext r :
  extensions r !! id ext = None ->
  preMiddleware (snd (register ext r))
  = (preMiddleware r ++ pre_calls (fst (initialize ext)))%list.
Proof.
  intros Hfresh. unfold register.
  rewrite bool_decide_eq_false_2 by (rewrite Hfresh; by intros [? ?]).
  destruct (initialize ext) as [calls [middleware|e]]; simpl;
    apply context_calls_pre.
Qed.

Lemma register_extensions_other ext r extensionId :
  extensionId <> id ext ->
  extensions (snd (register ext r)) !! extensionId = extensions r !! extensionId.
Proof.
  intros Hne. unfold register. destruct (bool_decide _); [done|].
  destruct (initialize ext) as [calls [middleware|e]]; simpl.
  - rewrite lookup_insert_ne by done. by destruct (context_calls_maps calls r) as [-> _].
  - by destruct (context_calls_maps calls r) as [-> _].
Qed.

Lemma registry_run_extends ops :
  forall r, Forall (fun op => is_unregister op = false) ops ->
            extends r (registry_run ops r).
Proof.
  unfold registry_run.
  induction ops as [|op ops IH]; intros r Hops; simpl; [apply extends_refl|].
  inversion Hops as [|? ? Hop Hrest]; subst.
  eapply extends_trans; [|by apply IH].
  destruct op; simpl; try done.
  - apply register_extends.
  - apply context_call_extends.
Qed.

(** C9. Registering an extension whose id is already registered resolves
    to a failed registration, with an error naming the id and no
    registered middleware, and leaves the whole registry as it was. *)
Theorem register_duplicate_unchanged ext r :
  is_Some (extensions r !! id ext) ->
  register ext r
  = (Resolved {| extension := ext; success := false;
                 error := Some (already_registered (id ext));
                 registeredMiddleware := [] |}, r).
Proof. intros Hdup. unfold register. by rewrite bool_decide_eq_true_2. Qed.

(** X26. Registration only appends: over every sequence of registrations
    and context calls, each of the three lists keeps the units it had, in
    their order, and gains units only at its end; and when two extensions
    register pre-units, one after the other, [getPreMiddleware] returns
    the earlier units, then the first extension's, then the second's. *)
Theorem registration_appends :
  (forall ops r,
     Forall (fun op => is_unregister op = false) ops ->
     extends r (registry_run ops r))
  /\ (forall ext1 ext2 r,
        extensions r !! id ext1 = None ->
        extensions r !! id ext2 = None ->
        id ext1 <> id ext2 ->
        getPreMiddleware (registry_run [OpRegister ext1; OpRegister ext2] r)
        = (getPreMiddleware r ++ pre_calls (fst (initialize ext1))
             ++ pre_calls (fst (initialize ext2)))%list).
Proof.
  split.
  - intros ops r. apply registry_run_extends.
  - intros ext1 ext2 r Hfresh1 Hfresh2 Hne. unfold registry_run, getPreMiddleware. simpl.
    rewrite register_fresh_pre.
    + rewrite register_fresh_pre by done. by rewrite app_assoc.
    + by rewrite register_extensions_other.
Qed.

End ExtensionsProps.

Lemma register_duplicate_unchanged_witness :
  let r := Extensions.registry_run [Extensions.OpRegister Extensions.ext_a]
             Extensions.empty_registry in
  is_Some (Extensions.extensions r !! "ext-a")
  /\ snd (Extensions.register Extensions.ext_a r) = r
  /\ Extensions.success <$> Extensions.getRegistration "ext-a" r = Some true.
Proof.
  assert (is_Some (Extensions.extensions
                     (Extensions.registry_run [Extensions.OpRegister Extensions.ext_a]
                        Extensions.empty_registry) !! "ext-a")) as Hdup.
  { eexists. reflexivity. }
  split; [exact Hdup|]. split.
  - by rewrite (register_duplicate_unchanged Extensions.ext_a _ Hdup).
  - reflexivity.
Defined.

(** C6. The code breaks the claim: after two extensions have each
    registered a pre-unit, unregistering the second one empties the three
    lists.  The first extension is then still registered, with a
    successful registration that lists its unit, but [getPreMiddleware],
    which is to return all pre-middleware registered by extensions,
    returns nothing: the unit of one extension was removed by an action on
    another. *)
Lemma unregister_discards_other_extension :
  let before :=
    Extensions.registry_run [Extensions.OpRegister Extensions.ext_a;
                             Extensions.OpRegister Extensions.ext_b]
      Extensions.empty_registry in
  let after := Extensions.registry_step before (Extensions.OpUnregister "ext-b") in
  Extensions.getPreMiddleware before = ["a-unit"; "b-unit"]
  /\ Extensions.unregister "ext-b" before = (Extensions.Resolved true, after)
  /\ Extensions.getPreMiddleware after = []
  /\ Extensions.extensions after !! "ext-a" = Some Extensions.ext_a
  /\ Extensions.getRegistration "ext-a" after
     = Some {| Extensions.extension := Extensions.ext_a;
               Extensions.success := true;
               Extensions.error := None;
               Extensions.registeredMiddleware := ["a-unit"] |}
  /\ ~ (Extensions.getPreMiddleware before `prefix_of` Extensions.getPreMiddleware after).
Proof.
  repeat split.
  intros [k Hk]. vm_compute in Hk. discriminate.
Qed.

Lemma registration_appends_witness :
  Extensions.getPreMiddleware
    (Extensions.registry_run [Extensions.OpRegister Extensions.ext_a;
                              Extensions.OpRegister Extensions.ext_b]
       Extensions.empty_registry)
  = ["a-unit"; "b-unit"]
  /\ ["a-unit"] `prefix_of`
       Extensions.preMiddleware
         (Extensions.registry_run
            [Extensions.OpRegister Extensions.ext_a;
             Extensions.OpContextCall (Extensions.registerPreMiddleware ["late-unit"]);
             Extensions.OpRegister Extensions.ext_b]
            (Extensions.registry_run [Extensions.OpRegister Extensions.ext_a]
               Extensions.empty_registry)).
Proof.
  destruct (@registration_appends string) as (Hrun & Htwo).
  split.
  - apply (Htwo Extensions.ext_a Extensions.ext_b Extensions.empty_registry);
      [reflexivity|reflexivity|discriminate].
  - apply (Hrun [Extensions.OpRegister Extensions.ext_a;
                 Extensions.OpContextCall (Extensions.registerPreMiddleware ["late-unit"]);
                 Extensions.OpRegister Extensions.ext_b]
             (Extensions.registry_run [Extensions.OpRegister Extensions.ext_a]
                Extensions.empty_registry)).
    repeat constructor.
Defined.

(** ** security-headers/security-headers.middleware.ts *)

Section SecurityHeadersProps.
Import Js Core SecurityHeaders.

Lemma resolve_headers_lookup (headers : gmap string HeaderValue) key :
  resolve_headers headers !! key = headers !! key ≫= resolved_value.
Proof.
  unfold resolve_headers.
  apply (map_fold_weak_ind
           (fun (resolved : gmap string string) (headers : gmap string HeaderValue) =>
              resolved !! key = headers !! key ≫= resolved_value)).
  - by rewrite !lookup_empty.
  - intros k value m resolved Hfresh IH.
    destruct (decide (k = key)) as [->|Hne].
    + rewrite lookup_insert_eq. simpl. unfold resolve_header, resolved_value.
      destruct value as [v|f]; [by rewrite lookup_insert_eq|].
      destruct (f ()) as [v|e]; [by rewrite lookup_insert_eq|].
      by rewrite IH, Hfresh.
    + rewrite (lookup_insert_ne m) by done. rewrite <- IH.
      unfold resolve_header. destruct value as [v|f]; [by rewrite lookup_insert_ne|].
      destruct (f ()); [by rewrite lookup_insert_ne|done].
Qed.

Lemma call_allows config h context :
  fst (call (securityHeadersMiddleware config) h context) = Ok true_.
Proof.
  unfold securityHeadersMiddleware, createMiddleware. simpl.
  by destruct (to_boolean _).
Qed.

Lemma call_heap config h context :
  snd (call (securityHeadersMiddleware config) h context)
  = assign_entry h context (merged_headers config h context)
      (if default false (overwrite config) then true_
       else if to_boolean (cell_member (cell h context) SECURITY_HEADERS_KEY)
            then entry_overwrite h context else false_).
Proof.
  unfold securityHeadersMiddleware, createMiddleware, merged_headers,
    existing_headers, entry_overwrite. simpl.
  destruct (to_boolean _); simpl.
  - by destruct (default false (overwrite config)).
  - destruct (default false (overwrite config)); simpl.
    + by rewrite (right_id_L ∅ (∪)).
    + by rewrite (left_id_L ∅ (∪)).
Qed.

Lemma assign_entry_spec h context props headers overwrite :
  h !! context = Some (CObj props) ->
  entry_headers (assign_entry h context headers overwrite) context = headers
  /\ entry_overwrite (assign_entry h context headers overwrite) context = overwrite
  /\ (forall key, key <> SECURITY_HEADERS_KEY ->
        cell_member (cell (assign_entry h context headers overwrite) context) key
        = cell_member (cell h context) key)
  /\ (forall a, a <> context -> is_Some (h !! a) ->
        assign_entry h context headers overwrite !! a = h !! a).
Proof.
  intros Hcontext. unfold assign_entry, alloc.
  set (a1 := fresh (dom h)).
  set (h1 := <[a1 := CObj headers]> h).
  set (a2 := fresh (dom h1)).
  set (entry := CObj {[ "headers" := VRef a1; "overwrite" := overwrite ]}).
  set (h2 := <[a2 := entry]> h1).
  assert (a1 ∉ dom h) as Hfresh1 by apply is_fresh.
  assert (a2 ∉ dom h1) as Hfresh2 by apply is_fresh.
  assert (context ∈ dom h) as Hdom by (apply elem_of_dom; eauto).
  assert (a1 <> context) as Hne1 by (intros ->; done).
  assert (a2 <> a1) as Hne21.
  { intros Heq. apply Hfresh2. rewrite Heq. unfold h1. rewrite dom_insert_L. set_solver. }
  assert (a2 <> context) as Hne2.
  { intros Heq. apply Hfresh2. rewrite Heq. unfold h1. rewrite dom_insert_L. set_solver. }
  assert (h2 !! context = Some (CObj props)) as Hc2.
  { unfold h2, h1. by rewrite !lookup_insert_ne. }
  assert (cell h2 context = CObj props) as Hcellc by (unfold cell; by rewrite Hc2).
  unfold set_member. rewrite Hcellc.
  set (h3 := <[context := CObj (<[SECURITY_HEADERS_KEY := VRef a2]> props)]> h2).
  assert (cell h3 context = CObj (<[SECURITY_HEADERS_KEY := VRef a2]> props)) as Hcell3.
  { unfold cell, h3. by rewrite lookup_insert_eq. }
  assert (cell h3 a2 = entry) as Hcell2.
  { unfold cell, h3, h2. rewrite lookup_insert_ne by done. by rewrite lookup_insert_eq. }
  assert (cell h3 a1 = CObj headers) as Hcell1.
  { unfold cell, h3, h2, h1. rewrite !lookup_insert_ne by done.
    by rewrite lookup_insert_eq. }
  repeat split.
  - unfold entry_headers. rewrite Hcell3. simpl. rewrite lookup_insert_eq. simpl.
    rewrite Hcell2. simpl. rewrite lookup_insert_eq. simpl. by rewrite Hcell1.
  - unfold entry_overwrite. rewrite Hcell3. simpl. rewrite lookup_insert_eq. simpl.
    rewrite Hcell2. simpl. rewrite lookup_insert_ne by done.
    by rewrite lookup_singleton_eq.
  - intros key Hkey. rewrite Hcell3. unfold cell. rewrite Hcontext. simpl.
    by rewrite lookup_insert_ne.
  - intros a Ha Hin. unfold h3, h2, h1.
    assert (a ∈ dom h) as Hadom by by apply elem_of_dom.
    rewrite !lookup_insert_ne; [done| | |done].
    + intros Heq. apply Hfresh1. by rewrite Heq.
    + intros Heq. apply Hfresh2. rewrite Heq. unfold h1. rewrite dom_insert_L.
      set_solver.
Qed.


Example securityHeadersMiddleware_merges :
  entry_headers (snd (call (securityHeadersMiddleware frame_options_config) merge_heap 0)) 0
  = {[ "X-Existing" := str "value"; "X-Frame-Options" := str "SAMEORIGIN" ]}.
Proof. vm_compute. reflexivity. Qed.


End SecurityHeadersProps.

(** ** The chain executor *)

Section ChainExecutorProps.
Import ChainExecutor.

Context {Context : Type}.
Implicit Types (units : list (Unit Context)) (context : Context).

Lemma answer_at_head u units context :
  answer_at (u :: units) context 0
  = match fst (invoke u context) with
    | Returns r => Some (allows r)
    | Faults _ => None
    end.
Proof. reflexivity. Qed.

Lemma answer_at_tail u units context i :
  answer_at (u :: units) context (S i) = answer_at units (snd (invoke u context)) i.
Proof. reflexivity. Qed.

(** The run from index [i]: the units up to the first denial are invoked,
    in order, and nothing after it. *)
Lemma run_from_short_circuit units :
  forall k i context records,
    (forall j, j < k -> answer_at units context j = Some true) ->
    answer_at units context k = Some false ->
    map ur_index (trace (run_from i units context records))
      = (map ur_index records ++ seq i (S k))%list
    /\ map ur_name (trace (run_from i units context records))
      = (map ur_name records ++ map name (take (S k) units))%list
    /\ (exists redirect reason,
          verdict (run_from i units context records)
          = Denied (i + k) redirect reason)
    /\ final_context (run_from i units context records)
      = context_at units context (S k).
Proof.
  induction units as [|u units IH]; intros k i context records Hallow Hdeny.
  - discriminate.
  - destruct k as [|k].
    + rewrite answer_at_head in Hdeny. simpl.
      destruct (invoke u context) as [[r|error] context'] eqn:Hinvoke; [|discriminate].
      simpl in Hdeny. injection Hdeny as Hdeny. rewrite Hdeny. simpl.
      rewrite !map_app, Nat.add_0_r. simpl.
      repeat split; eauto. by destruct units.
    + pose proof (Hallow 0 ltac:(lia)) as Hfirst.
      rewrite answer_at_head in Hfirst.
      destruct (IH k (S i) (snd (invoke u context))
                  (records ++ [{| ur_name := name u; ur_index := i;
                                  ur_result := true; ur_error := None |}])%list)
        as (Hindex & Hname & (redirect & reason & Hverdict) & Hfinal).
      { intros j Hj. rewrite <- answer_at_tail. apply Hallow. lia. }
      { by rewrite <- answer_at_tail. }
      simpl. destruct (invoke u context) as [[r|error] context'] eqn:Hinvoke;
        [|discriminate].
      simpl in *. injection Hfirst as Hfirst. rewrite Hfirst in *.
      rewrite Hindex, Hname, Hverdict, Hfinal, !map_app. simpl.
      rewrite <- !app_assoc. simpl.
      repeat split. exists redirect, reason. f_equal. lia.
Qed.

(** C1. When the units at positions [0..k-1] allow and the unit at
    position [k] denies, the executor invokes exactly the units at
    positions [0..k], in order, and none after [k]; the run is denied and
    records [stoppedAt = k]; the context it leaves is the one left by the
    unit at position [k]. *)
Theorem execute_short_circuit units context k :
  (forall j, j < k -> answer_at units context j = Some true) ->
  answer_at units context k = Some false ->
  invoked (execute units context) = seq 0 (S k)
  /\ map ur_name (trace (execute units context)) = map name (take (S k) units)
  /\ stoppedAt (execute units context) = Some k
  /\ allowed (execute units context) = false
  /\ final_context (execute units context) = context_at units context (S k).
Proof.
  intros Hallow Hdeny. unfold execute, invoked, stoppedAt, allowed.
  destruct (run_from_short_circuit units k 0 context [] Hallow Hdeny)
    as (Hindex & Hname & (redirect & reason & Hverdict) & Hfinal).
  rewrite Hverdict. by repeat split.
Qed.

End ChainExecutorProps.

Lemma execute_short_circuit_witness :
  ChainExecutor.invoked
    (ChainExecutor.execute ChainExecutor.allow_allow_deny_allow []) = [0; 1; 2]
  /\ map ChainExecutor.ur_name
       (ChainExecutor.trace
          (ChainExecutor.execute ChainExecutor.allow_allow_deny_allow []))
     = ["first"; "second"; "third"]
  /\ ChainExecutor.stoppedAt
       (ChainExecutor.execute ChainExecutor.allow_allow_deny_allow []) = Some 2
  /\ ChainExecutor.allowed
       (ChainExecutor.execute ChainExecutor.allow_allow_deny_allow []) = false
  /\ ChainExecutor.final_context
       (ChainExecutor.execute ChainExecutor.allow_allow_deny_allow [])
     = ["first"; "second"; "third"].
Proof.
  apply (execute_short_circuit ChainExecutor.allow_allow_deny_allow [] 2).
  - intros j Hj. destruct j as [|[|j]]; [reflexivity|reflexivity|lia].
  - reflexivity.
Defined.

(** ** More of the execution store *)

Section ExecutionStoreMore.
Import Js Core DebugHook DebugHookMore.

Lemma push_bounded_keep_last {A} (records : list A) x :
  length records <= maxRecords ->
  push_bounded records x = keep_last maxRecords (records ++ [x])%list.
Proof.
  intros Hle. unfold push_bounded, keep_last.
  destruct (Nat.ltb_spec maxRecords (length (records ++ [x]))) as [Hover|Hfits].
  - rewrite length_app in *. simpl in *.
    replace (length records + 1 - maxRecords) with 1 by lia. done.
  - replace (length (records ++ [x]) - maxRecords) with 0 by lia. done.
Qed.

Lemma keep_last_app {A} n (l xs : list A) :
  keep_last n (keep_last n l ++ xs)%list = keep_last n (l ++ xs)%list.
Proof.
  unfold keep_last.
  rewrite <- (drop_app_le l xs (length l - n)) by lia.
  rewrite drop_drop. f_equal. rewrite length_drop, !length_app. lia.
Qed.

Lemma keep_last_length {A} n (l : list A) : length (keep_last n l) = Nat.min n (length l).
Proof. unfold keep_last. rewrite length_drop. lia. Qed.

Lemma last_drop {A} (l : list A) :
  forall d, d < length l -> last (drop d l) = last l.
Proof.
  induction l as [|x l IH]; intros d Hd; simpl in *; [lia|].
  destruct d as [|d]; [done|]. simpl. rewrite IH by lia.
  destruct l; [simpl in *; lia|done].
Qed.

Lemma last_keep_last {A} n (l : list A) : 0 < n -> last (keep_last n l) = last l.
Proof.
  intros Hn. unfold keep_last. destruct l as [|x l]; [done|].
  apply last_drop. simpl. lia.
Qed.

Lemma store_run_keep_last ops :
  forall s, within_bound s ->
    chains (store_run ops s) = keep_last maxRecords (chains s ++ added_chains ops)%list
    /\ middlewareExecutions (store_run ops s)
       = keep_last maxRecords (middlewareExecutions s ++ added_executions ops)%list.
Proof.
  unfold store_run.
  induction ops as [|op ops IH]; intros s Hs; simpl.
  - rewrite !app_nil_r. destruct Hs as [Hc Hm]. unfold keep_last.
    replace (length (chains s) - maxRecords) with 0 by lia.
    replace (length (middlewareExecutions s) - maxRecords) with 0 by lia. done.
  - destruct (IH (store_step s op) (store_step_within_bound s op Hs)) as [IHc IHm].
    rewrite IHc, IHm. destruct Hs as [Hc Hm]. destruct op as [chain|execution]; simpl.
    + rewrite push_bounded_keep_last by done. rewrite keep_last_app.
      by rewrite <- app_assoc.
    + rewrite push_bounded_keep_last by done. rewrite keep_last_app.
      by rewrite <- app_assoc.
Qed.

Lemma store_run_empty_keep_last ops :
  chains (store_run ops empty_store) = keep_last 100 (added_chains ops)
  /\ middlewareExecutions (store_run ops empty_store)
     = keep_last 100 (added_executions ops).
Proof.
  apply (store_run_keep_last ops empty_store).
  split; simpl; unfold maxRecords; lia.
Qed.

(** X1. Whatever has been added, the store holds exactly the last 100
    chain records added and the last 100 middleware execution records
    added, each in the order of their addition. *)
Theorem store_holds_latest ops :
  chains (store_run ops empty_store) = keep_last 100 (added_chains ops)
  /\ middlewareExecutions (store_run ops empty_store)
     = keep_last 100 (added_executions ops).
Proof. apply store_run_empty_keep_last. Qed.

Lemma getLatestChain_addChain s chain : getLatestChain (addChain chain s) = Some chain.
Proof.
  unfold getLatestChain, addChain. simpl. rewrite last_push_bounded.
  destruct (0 <? length _)%nat eqn:Hlen; [done|].
  apply Nat.ltb_ge in Hlen.
  pose proof (last_push_bounded (chains s) chain) as Hlast.
  destruct (push_bounded (chains s) chain); [done|]. simpl in Hlen. lia.
Qed.

(** X2. [getLatestChain] returns the chain added last, and [null] as long
    as no chain was added or after [clear]. *)
Theorem getLatestChain_latest :
  (forall ops, getLatestChain (store_run ops empty_store) = last (added_chains ops))
  /\ (forall s chain, getLatestChain (addChain chain s) = Some chain)
  /\ (forall s, getLatestChain (clear s) = None).
Proof.
  split; [|split].
  - intros ops. unfold getLatestChain.
    destruct (store_run_keep_last ops empty_store) as [-> _].
    { split; simpl; unfold maxRecords; lia. }
    simpl. rewrite last_keep_last by (unfold maxRecords; lia).
    destruct (0 <? length _)%nat eqn:Hlen; [done|].
    apply Nat.ltb_ge in Hlen. rewrite keep_last_length in Hlen.
    destruct (added_chains ops); [done|]. simpl in Hlen. unfold maxRecords in Hlen. lia.
  - apply getLatestChain_addChain.
  - done.
Qed.

(** X3. In the statistics of a store that received any sequence of adds,
    passed and failed chains add up to the total, which is the number of
    stored chains and at most 100; the passed chains are those whose
    result is [true]. *)
Theorem getStats_counts ops :
  let stats := getStats (store_run ops empty_store) in
  (passedChains stats + failedChains stats = totalChains stats)%nat
  /\ totalChains stats = length (chains (store_run ops empty_store))
  /\ (totalChains stats <= 100)%nat
  /\ (totalMiddlewareExecutions stats <= 100)%nat
  /\ passedChains stats
     = length (List.filter ce_result (keep_last 100 (added_chains ops))).
Proof.
  simpl. destruct (store_run_empty_keep_last ops) as [Hc Hm].
  rewrite Hc, Hm, !keep_last_length.
  pose proof (filter_length_le ce_result (keep_last 100 (added_chains ops))) as Hle.
  rewrite keep_last_length in Hle. repeat split; lia.
Qed.

End ExecutionStoreMore.

(** ** More of the recording functions and of the sanitizer *)

Section RecordingMore.
Import Js Core DebugHook DebugHookMore.

Variable DEFAULT_SENSITIVE_FIELDS : list string.

#[local] Abbreviation sens := DEFAULT_SENSITIVE_FIELDS.

Lemma recordMiddlewareExecution_active env options c w :
  debug_active env = true ->
  snd (recordMiddlewareExecution sens env options (rc_middleware c) (rc_index c)
         (rc_startTime c) (rc_endTime c) (rc_result c) (rc_error c) w)
  = {| heap := heap w;
       store := addMiddlewareExecution (execution_of sens env options (heap w) c)
                  (store w) |}.
Proof.
  unfold debug_active, recordMiddlewareExecution.
  destruct (isDevelopment env), (has_window env); try discriminate. done.
Qed.

(** Pushing records one by one leaves them at the end of the list, as long
    as there are at most [maxRecords] of them. *)
Lemma push_all_suffix {A} (xs : list A) :
  forall (l done : list A),
    length (done ++ xs) <= maxRecords ->
    (exists pre, l = (pre ++ done)%list) ->
    exists pre, foldl push_bounded l xs = (pre ++ done ++ xs)%list.
Proof.
  induction xs as [|x xs IH]; intros l done Hlen [pre Hl]; simpl.
  - exists pre. by rewrite app_nil_r.
  - destruct (IH (push_bounded l x) (done ++ [x])%list) as [pre' Hpre'].
    + rewrite <- app_assoc. done.
    + subst l. unfold push_bounded.
      destruct (maxRecords <? length ((pre ++ done) ++ [x])%list)%nat eqn:Hover.
      * apply Nat.ltb_lt in Hover. destruct pre as [|p pre].
        { rewrite !length_app in *. simpl in *. lia. }
        exists pre. simpl. by rewrite drop_0, <- app_assoc.
      * exists pre. by rewrite <- app_assoc.
    + exists pre'. rewrite Hpre'. by rewrite <- !app_assoc.
Qed.

Lemma record_calls_store env options calls :
  debug_active env = true ->
  forall w,
    heap (record_calls sens env options calls w) = heap w
    /\ chains (store (record_calls sens env options calls w)) = chains (store w)
    /\ middlewareExecutions (store (record_calls sens env options calls w))
       = foldl push_bounded (middlewareExecutions (store w))
           (map (execution_of sens env options (heap w)) calls).
Proof.
  intros Hactive. unfold record_calls.
  induction calls as [|c calls IH]; intros w; simpl; [done|].
  rewrite recordMiddlewareExecution_active by done.
  destruct (IH {| heap := heap w;
                  store := addMiddlewareExecution
                             (execution_of sens env options (heap w) c) (store w) |})
    as (Hheap & Hchains & Hexecutions).
  by rewrite Hheap, Hchains, Hexecutions.
Qed.

Lemma slice_last_suffix {A} (pre xs : list A) :
  xs <> [] -> slice_last (length xs) (pre ++ xs)%list = xs.
Proof.
  intros Hne. unfold slice_last.
  destruct (length xs =? 0)%nat eqn:Hzero.
  - apply Nat.eqb_eq in Hzero. by destruct xs.
  - rewrite length_app.
    replace (length pre + length xs - length xs) with (length pre) by lia.
    by rewrite drop_app_length.
Qed.


(** X5. Given an empty list of executions, [recordChainExecution] does not
    store an empty chain record: in debug mode the record takes the (up
    to) 10 most recent middleware executions of the store, whichever run
    recorded them. *)
Theorem recordChainExecution_empty_run env options result totalDuration w :
  debug_active env = true ->
  exists chain,
    latest_chain (snd (recordChainExecution env options result totalDuration [] w))
    = Some chain
    /\ ce_middlewareExecutions chain = keep_last 10 (middlewareExecutions (store w))
    /\ ce_middlewareCount chain = Nat.min 10 (length (middlewareExecutions (store w))).
Proof.
  intros Hactive. unfold recordChainExecution, latest_chain.
  unfold debug_active in Hactive.
  destruct (isDevelopment env), (has_window env); try discriminate. simpl.
  rewrite getLatestChain_addChain.
  eexists. split; [reflexivity|]. split; [done|].
  apply (keep_last_length 10 (middlewareExecutions (store w))).
Qed.

(** X6. The snapshot of a context object that has no own property named
    [__proto__] has exactly the context's own keys: every key of the
    context appears in it (with its value, a marker, or a sanitized copy),
    and it has no other key. *)
Theorem sanitizeContext_keys h context props :
  cell h context = CObj props ->
  props !! "__proto__" = None ->
  dom (sanitizeContext sens h context) = dom props.
Proof.
  intros Hcell _. apply set_eq. intros key. rewrite !elem_of_dom.
  destruct (props !! key) as [value|] eqn:Hkey.
  - rewrite (sanitizeContext_lookup sens h context props key value) by done.
    split; eauto.
  - assert (sanitizeContext sens h context !! key = None) as ->; [|done].
    unfold sanitizeContext.
    rewrite (filter_object sens h context props) by (done || lia).
    unfold object_assign. apply lookup_union_None. split.
    + by rewrite filter_entries_lookup, Hkey.
    + rewrite Hcell. by repeat apply copy_string_field_lookup_None.
Qed.

Lemma filter_follows h maxDepth a keys a' :
  follows h a keys a' ->
  Forall (fun key => toLowerCase key ∉ sens) keys ->
  forall depth,
    depth + length keys <= maxDepth ->
    out_path (filterSensitiveData sens h (VRef a) depth maxDepth) keys
    = filterSensitiveData sens h (VRef a') (depth + length keys) maxDepth.
Proof.
  induction 1 as [a|a props key next keys a' Hcell Hkey _ IH];
    intros Hplain depth Hdepth; simpl in *.
  - by rewrite Nat.add_0_r.
  - inversion Hplain as [|? ? Hkey_plain Hrest]; subst.
    unfold out_path in *. simpl.
    rewrite (filter_object_member sens h a props) by (done || lia).
    rewrite Hkey. simpl. rewrite filtered_value_plain by done.
    rewrite IH by (done || lia). f_equal. lia.
Qed.

Lemma out_path_snoc o keys key :
  out_path o (keys ++ [key]) = out_member (out_path o keys) key.
Proof. unfold out_path. by rewrite foldl_app. Qed.

Lemma sanitizeContext_follows h context props keys a' :
  cell h context = CObj props ->
  follows h context keys a' -> keys <> [] ->
  Forall (fun key => toLowerCase key ∉ sens) keys ->
  length keys <= 3 ->
  out_path (OObj (sanitizeContext sens h context)) keys
  = filterSensitiveData sens h (VRef a') (length keys) 3.
Proof.
  intros Hcell Hfollows Hne Hplain Hlen.
  transitivity (out_path (filterSensitiveData sens h (VRef context) 0 3) keys);
    [|by apply (filter_follows h 3 context keys a' Hfollows Hplain 0)].
  destruct Hfollows as [a|a props' key next keys a' Hcell' Hkey Hrest]; [done|].
  unfold out_path. simpl. f_equal.
  rewrite Hcell in Hcell'. injection Hcell' as <-.
  rewrite (sanitizeContext_lookup sens h a props key (VRef next)) by done.
  rewrite (filter_object_member sens h a props) by (done || lia).
  by rewrite Hkey.
Qed.


End RecordingMore.


Lemma recordChainExecution_empty_run_witness :
  exists chain,
    DebugHookMore.latest_chain
      (snd (DebugHook.recordChainExecution DebugHook.browser_dev_env
              DebugHook.http_options DebugHook.denied_result 5 []
              DebugHookMore.busy_world))
    = Some chain
    /\ DebugHook.ce_middlewareCount chain = 10.
Proof.
  destruct (recordChainExecution_empty_run DebugHook.browser_dev_env
              DebugHook.http_options DebugHook.denied_result 5
              DebugHookMore.busy_world eq_refl)
    as (chain & Hlatest & _ & Hcount).
  exists chain. split; [exact Hlatest|]. rewrite Hcount. vm_compute. reflexivity.
Defined.

Lemma sanitizeContext_keys_witness :
  dom (DebugHook.sanitizeContext DebugHook.spec_sensitive_fields DebugHook.user_heap 0)
  = dom ({[ "user" := Js.VRef 1%nat ]} : gmap string Js.Value).
Proof.
  apply (sanitizeContext_keys DebugHook.spec_sensitive_fields DebugHook.user_heap 0%nat);
    reflexivity.
Defined.


(** ** More of the extension registry *)

Section ExtensionsMoreProps.
Import Js Extensions ExtensionsMore.

Context {Middleware : Type}.
Implicit Types (r : ExtensionRegistry Middleware) (ext : GatekeeperExtension Middleware).

Lemma register_fresh_eq ext r calls middleware :
  extensions r !! id ext = None ->
  initialize ext = (calls, Ok middleware) ->
  register ext r
  = (Resolved {| extension := ext; success := true; error := None;
                 registeredMiddleware := default [] middleware |},
     {| extensions := <[id ext := ext]> (extensions r);
        registrations :=
          <[id ext := {| extension := ext; success := true; error := None;
                         registeredMiddleware := default [] middleware |}]>
            (registrations r);
        preMiddleware := preMiddleware (foldl context_call r calls);
        postMiddleware := postMiddleware (foldl context_call r calls);
        mergedMiddleware := mergedMiddleware (foldl context_call r calls) |}).
Proof.
  intros Hfree Hinit. unfold register.
  rewrite bool_decide_eq_false_2 by (rewrite Hfree; by intros [? ?]).
  rewrite Hinit. simpl. by destruct (context_calls_maps calls r) as [-> ->].
Qed.

(** X8. Registering an extension whose id is free and whose [initialize]
    resolves stores the extension and a successful registration listing
    the middleware array it returned (nothing when it returned no array);
    extensions registered under other ids are untouched, and registering
    the same extension again then fails without changing anything. *)
Theorem register_fresh_succeeds ext r calls middleware :
  extensions r !! id ext = None ->
  initialize ext = (calls, Ok middleware) ->
  let registration :=
    {| extension := ext; success := true; error := None;
       registeredMiddleware := default [] middleware |} in
  let r' := snd (register ext r) in
  fst (register ext r) = Resolved registration
  /\ getRegistration (id ext) r' = Some registration
  /\ extensions r' !! id ext = Some ext
  /\ (forall other, other <> id ext ->
        extensions r' !! other = extensions r !! other
        /\ getRegistration other r' = getRegistration other r)
  /\ success <$> match fst (register ext r') with
                 | Resolved again => Some again
                 | Rejected _ => None
                 end = Some false
  /\ snd (register ext r') = r'.
Proof.
  intros Hfree Hinit. cbv zeta.
  rewrite (register_fresh_eq ext r calls middleware Hfree Hinit). simpl.
  repeat split.
  - unfold getRegistration. simpl. by rewrite lookup_insert_eq.
  - by rewrite lookup_insert_eq.
  - by rewrite lookup_insert_ne.
  - unfold getRegistration. simpl. by rewrite lookup_insert_ne.
  - unfold register. simpl.
    by rewrite bool_decide_eq_true_2 by (rewrite lookup_insert_eq; eauto).
  - unfold register. simpl.
    by rewrite bool_decide_eq_true_2 by (rewrite lookup_insert_eq; eauto).
Qed.

(** X9. When [initialize] throws, the registration fails with the thrown
    message and the extension is not registered, but the units it had
    already handed to the registration context stay in the lists: the
    failure path does not undo them. *)
Theorem register_failed_initialize ext r calls e :
  extensions r !! id ext = None ->
  initialize ext = (calls, Throw e) ->
  fst (register ext r)
  = Resolved {| extension := ext; success := false; error := Some e;
                registeredMiddleware := [] |}
  /\ extensions (snd (register ext r)) = extensions r
  /\ registrations (snd (register ext r)) = registrations r
  /\ getPreMiddleware (snd (register ext r))
     = (getPreMiddleware r ++ pre_calls calls)%list
  /\ extends r (snd (register ext r)).
Proof.
  intros Hfree Hinit. split; [|split; [|split; [|split]]].
  - unfold register.
    rewrite bool_decide_eq_false_2 by (rewrite Hfree; by intros [? ?]).
    by rewrite Hinit.
  - unfold register.
    rewrite bool_decide_eq_false_2 by (rewrite Hfree; by intros [? ?]).
    rewrite Hinit. simpl. by destruct (context_calls_maps calls r) as [-> _].
  - unfold register.
    rewrite bool_decide_eq_false_2 by (rewrite Hfree; by intros [? ?]).
    rewrite Hinit. simpl. by destruct (context_calls_maps calls r) as [_ ->].
  - unfold getPreMiddleware. rewrite register_fresh_pre by done. by rewrite Hinit.
  - apply register_extends.
Qed.

(** X10. Unregistering a registered extension whose [destroy] does not
    throw removes its extension and its registration and nothing else from
    the two maps, and its id can be registered again; unregistering an
    unknown id, or an extension whose [destroy] throws, resolves to [false]
    and changes nothing. *)
Theorem unregister_removes extensionId r :
  (forall ext,
     extensions r !! extensionId = Some ext ->
     (forall e, destroy ext <> Some (Throw e)) ->
     let r' := snd (unregister extensionId r) in
     fst (unregister extensionId r) = Resolved true
     /\ extensions r' !! extensionId = None
     /\ getRegistration extensionId r' = None
     /\ (forall other, other <> extensionId ->
           extensions r' !! other = extensions r !! other
           /\ getRegistration other r' = getRegistration other r)
     /\ (forall ext', id ext' = extensionId ->
           forall calls middleware,
             initialize ext' = (calls, Ok middleware) ->
             success <$> getRegistration extensionId (snd (register ext' r'))
             = Some true))
  /\ (extensions r !! extensionId = None ->
      unregister extensionId r = (Resolved false, r))
  /\ (forall ext e,
        extensions r !! extensionId = Some ext -> destroy ext = Some (Throw e) ->
        unregister extensionId r = (Resolved false, r)).
Proof.
  split; [|split].
  - intros ext Hext Hdestroy. unfold unregister. rewrite Hext.
    destruct (destroy ext) as [[[]|e]|] eqn:Hd; try (by destruct (Hdestroy e));
      simpl; (repeat split;
        [apply lookup_delete_eq
        |unfold getRegistration; simpl; apply lookup_delete_eq
        |by rewrite lookup_delete_ne
        |unfold getRegistration; simpl; by rewrite lookup_delete_ne
        |]);
      intros ext' Hid calls middleware Hinit; unfold register, getRegistration;
      rewrite bool_decide_eq_false_2
        by (simpl; rewrite Hid, lookup_delete_eq; by intros [? ?]);
      rewrite Hinit; simpl; rewrite Hid; by rewrite lookup_insert_eq.
  - intros Hnone. unfold unregister. by rewrite Hnone.
  - intros ext e Hext Hd. unfold unregister. by rewrite Hext, Hd.
Qed.

Lemma context_call_consistent r c : consistent r -> consistent (context_call r c).
Proof. intros Hr. by destruct c. Qed.

Lemma context_calls_consistent calls :
  forall r, consistent r -> consistent (foldl context_call r calls).
Proof.
  induction calls as [|c calls IH]; intros r Hr; simpl; [done|].
  by apply IH, context_call_consistent.
Qed.

Lemma register_consistent ext r : consistent r -> consistent (snd (register ext r)).
Proof.
  intros Hr. unfold register. destruct (bool_decide _) eqn:Hdup; [done|].
  destruct (initialize ext) as [calls [middleware|e]]; simpl;
    pose proof (context_calls_consistent calls r Hr) as Hcalls; [|done].
  intros extensionId. simpl. destruct (decide (extensionId = id ext)) as [->|Hne].
  - rewrite !lookup_insert_eq. split; [done|]. by intros registration [= <-].
  - rewrite !lookup_insert_ne by done. apply Hcalls.
Qed.

Lemma unregister_consistent extensionId r :
  consistent r -> consistent (snd (unregister extensionId r)).
Proof.
  intros Hr. unfold unregister. destruct (extensions r !! extensionId) as [ext|]; [|done].
  destruct (destroy ext) as [[[]|e]|]; simpl; try done;
    intros other; simpl; (destruct (decide (other = extensionId)) as [->|Hne];
      [rewrite !lookup_delete_eq; by split
      |rewrite !lookup_delete_ne by done; apply Hr]).
Qed.

(** X11. The two maps of the registry stay in step over every sequence of
    registrations, unregistrations and context calls from the empty
    registry: an id has a registration exactly when it has an extension,
    and every stored registration is a successful one, without error, of
    the extension stored under the same id, which is that extension's own
    id. *)
Theorem registry_run_consistent (ops : list (RegistryOp Middleware)) :
  consistent (registry_run ops empty_registry).
Proof.
  assert (forall r, consistent r -> consistent (registry_run ops r)) as Hrun.
  { unfold registry_run. induction ops as [|op ops IH]; intros r Hr; simpl; [done|].
    apply IH. destruct op; simpl.
    - by apply register_consistent.
    - by apply unregister_consistent.
    - by apply context_call_consistent. }
  apply Hrun. intros extensionId. split; [done|].
  intros registration Hregistration. unfold empty_registry in Hregistration.
  cbn [registrations] in Hregistration. by rewrite lookup_empty in Hregistration.
Qed.

End ExtensionsMoreProps.

Lemma register_fresh_succeeds_witness :
  let r := snd (Extensions.register Extensions.ext_a Extensions.empty_registry) in
  Extensions.registeredMiddleware <$> Extensions.getRegistration "ext-a" r
  = Some ["a-unit"]
  /\ Extensions.extensions r !! "ext-a" = Some Extensions.ext_a
  /\ snd (Extensions.register Extensions.ext_a r) = r.
Proof.
  destruct (register_fresh_succeeds Extensions.ext_a Extensions.empty_registry
              [Extensions.registerPreMiddleware ["a-unit"]] (Some ["a-unit"])
              eq_refl eq_refl)
    as (_ & Hregistration & Hextension & _ & _ & Hagain).
  split; [|split].
  - change "ext-a" with (Extensions.id Extensions.ext_a).
    rewrite Hregistration. reflexivity.
  - exact Hextension.
  - exact Hagain.
Defined.

Lemma register_failed_initialize_witness :
  let r := snd (Extensions.register ExtensionsMore.ext_failing
                  Extensions.empty_registry) in
  Extensions.extensions r = ∅
  /\ Extensions.getPreMiddleware r = ["orphan-unit"].
Proof.
  destruct (register_failed_initialize ExtensionsMore.ext_failing
              Extensions.empty_registry
              [Extensions.registerPreMiddleware ["orphan-unit"]] "init failed"
              eq_refl eq_refl)
    as (_ & Hextensions & _ & Hpre & _).
  split; [exact Hextensions|exact Hpre].
Defined.

Lemma unregister_removes_witness :
  let r := Extensions.registry_run [Extensions.OpRegister Extensions.ext_a;
                                    Extensions.OpRegister ExtensionsMore.ext_sticky]
             Extensions.empty_registry in
  fst (Extensions.unregister "ext-a" r) = Extensions.Resolved true
  /\ Extensions.getRegistration "ext-a" (snd (Extensions.unregister "ext-a" r)) = None
  /\ Extensions.unregister "ext-sticky" r = (Extensions.Resolved false, r)
  /\ Extensions.unregister "ext-unknown" r = (Extensions.Resolved false, r).
Proof.
  cbv zeta.
  set (r := Extensions.registry_run [Extensions.OpRegister Extensions.ext_a;
                                     Extensions.OpRegister ExtensionsMore.ext_sticky]
              Extensions.empty_registry).
  destruct (unregister_removes "ext-a" r) as (Hremoves & _ & _).
  destruct (Hremoves Extensions.ext_a eq_refl ltac:(discriminate))
    as (Hresolved & _ & Hregistration & _).
  destruct (unregister_removes "ext-sticky" r) as (_ & _ & Hthrows).
  destruct (unregister_removes "ext-unknown" r) as (_ & Hunknown & _).
  split; [exact Hresolved|]. split; [exact Hregistration|]. split.
  - apply (Hthrows ExtensionsMore.ext_sticky "cannot stop"); reflexivity.
  - apply Hunknown. reflexivity.
Defined.

(** ** More of the security-headers unit: precedence and composition *)

Section SecurityHeadersMore.
Import Js Core SecurityHeaders.

Lemma assign_entry_context h context props headers overwrite :
  h !! context = Some (CObj props) ->
  exists entry,
    assign_entry h context headers overwrite !! context
    = Some (CObj (<[SECURITY_HEADERS_KEY := VRef entry]> props)).
Proof.
  intros Hcontext. unfold assign_entry, alloc.
  set (a1 := fresh (dom h)).
  set (h1 := <[a1 := CObj headers]> h).
  set (a2 := fresh (dom h1)).
  assert (a1 ∉ dom h) as Hfresh1 by apply is_fresh.
  assert (a2 ∉ dom h1) as Hfresh2 by apply is_fresh.
  assert (context ∈ dom h) as Hdom by (apply elem_of_dom; eauto).
  assert (a1 <> context) as Hne1 by (intros ->; done).
  assert (a2 <> context) as Hne2.
  { intros Heq. apply Hfresh2. rewrite Heq. unfold h1. rewrite dom_insert_L. set_solver. }
  assert (<[a2 := CObj {[ "headers" := VRef a1; "overwrite" := overwrite ]}]> h1
            !! context = Some (CObj props)) as Hc2.
  { unfold h1. by rewrite !lookup_insert_ne. }
  exists a2. unfold set_member, cell. rewrite Hc2. simpl.
  by rewrite lookup_insert_eq.
Qed.

Lemma call_entry config h context props :
  h !! context = Some (CObj props) ->
  let h' := snd (call (securityHeadersMiddleware config) h context) in
  entry_headers h' context = merged_headers config h context
  /\ entry_overwrite h' context
     = (if default false (overwrite config) then true_
        else if to_boolean (cell_member (cell h context) SECURITY_HEADERS_KEY)
             then entry_overwrite h context else false_)
  /\ existing_headers h' context = entry_headers h' context
  /\ to_boolean (cell_member (cell h' context) SECURITY_HEADERS_KEY) = true
  /\ exists props', h' !! context = Some (CObj props').
Proof.
  intros Hcontext. cbv zeta. rewrite call_heap.
  set (ow := if default false (overwrite config) then true_ else _).
  destruct (assign_entry_spec h context props (merged_headers config h context) ow
              Hcontext) as (Hheaders & Hoverwrite & _ & _).
  destruct (assign_entry_context h context props (merged_headers config h context) ow
              Hcontext) as (entry & Hentry).
  assert (cell_member (cell (assign_entry h context (merged_headers config h context) ow)
                         context) SECURITY_HEADERS_KEY = VRef entry) as Hmember.
  { unfold cell. rewrite Hentry. simpl. by rewrite lookup_insert_eq. }
  repeat split; try done.
  - unfold existing_headers, entry_headers. by rewrite Hmember.
  - by rewrite Hmember.
  - eauto.
Qed.

(** X12. Which header value wins: after the unit ran on a context object,
    with [overwrite] set every header the configuration resolves has its
    resolved value and the other existing headers are kept; without it
    every header the context already had keeps its value and the resolved
    headers only fill in the names that were missing.  The entry's own
    [overwrite] flag is [true] once the configuration sets it, and
    otherwise stays what it was ([false] for a new entry). *)
Theorem securityHeadersMiddleware_precedence config h context props :
  h !! context = Some (CObj props) ->
  let h' := snd (call (securityHeadersMiddleware config) h context) in
  let resolved := resolve_headers (headers config) in
  let existing := existing_headers h context in
  (overwrite config = Some true ->
   (forall key v, resolved !! key = Some v -> entry_headers h' context !! key = Some (str v))
   /\ (forall key, resolved !! key = None ->
         entry_headers h' context !! key = existing !! key)
   /\ entry_overwrite h' context = true_)
  /\ (overwrite config <> Some true ->
      (forall key x, existing !! key = Some x -> entry_headers h' context !! key = Some x)
      /\ (forall key, existing !! key = None ->
            entry_headers h' context !! key = str <$> resolved !! key)
      /\ entry_overwrite h' context
         = if to_boolean (cell_member (cell h context) SECURITY_HEADERS_KEY)
           then entry_overwrite h context else false_).
Proof.
  intros Hcontext. cbv zeta.
  destruct (call_entry config h context props Hcontext) as (Hheaders & Hflag & _).
  rewrite Hheaders, Hflag. unfold merged_headers. split.
  - intros ->. simpl. repeat split.
    + intros key v Hkey. apply lookup_union_Some_l. by rewrite lookup_fmap, Hkey.
    + intros key Hkey. rewrite lookup_union_r; [done|]. by rewrite lookup_fmap, Hkey.
  - intros Hoff.
    assert (default false (overwrite config) = false) as ->
      by (destruct (overwrite config) as [[]|]; done).
    repeat split.
    + intros key x Hkey. by apply lookup_union_Some_l.
    + intros key Hkey. rewrite lookup_union_r by done. by rewrite lookup_fmap.
Qed.

(** X13. Two security-headers units run one after the other on a context
    object both allow, and the entry they leave holds the headers of both
    merged with those already there: what the first unit left is, for the
    second, the existing entry, so the second unit's headers win over the
    first's exactly when the second sets [overwrite]. *)
Theorem securityHeadersMiddleware_compose config1 config2 h context props :
  h !! context = Some (CObj props) ->
  let run1 := call (securityHeadersMiddleware config1) h context in
  let run2 := call (securityHeadersMiddleware config2) (snd run1) context in
  let resolved2 : gmap string Value := str <$> resolve_headers (headers config2) in
  fst run1 = Ok true_ /\ fst run2 = Ok true_
  /\ entry_headers (snd run2) context
     = (if default false (overwrite config2)
        then resolved2 ∪ merged_headers config1 h context
        else merged_headers config1 h context ∪ resolved2)
  /\ entry_overwrite (snd run2) context
     = (if default false (overwrite config2) then true_
        else if default false (overwrite config1) then true_
        else if to_boolean (cell_member (cell h context) SECURITY_HEADERS_KEY)
             then entry_overwrite h context else false_).
Proof.
  intros Hcontext. cbv zeta.
  destruct (call_entry config1 h context props Hcontext)
    as (Hheaders1 & Hflag1 & Hexisting1 & Htruthy1 & props1 & Hcontext1).
  destruct (call_entry config2 _ context props1 Hcontext1)
    as (Hheaders2 & Hflag2 & _).
  split; [apply call_allows|]. split; [apply call_allows|].
  rewrite Hheaders2, Hflag2. unfold merged_headers at 1.
  rewrite Hexisting1, Hheaders1, Htruthy1, Hflag1. done.
Qed.

End SecurityHeadersMore.

Lemma securityHeadersMiddleware_precedence_witness :
  let overwriting :=
    snd (Core.call (SecurityHeaders.securityHeadersMiddleware
                      SecurityHeaders.frame_options_config)
           SecurityHeaders.merge_heap 0) in
  let filling :=
    snd (Core.call (SecurityHeaders.securityHeadersMiddleware
                      SecurityHeaders.throwing_config)
           SecurityHeaders.merge_heap 0) in
  SecurityHeaders.entry_headers overwriting 0 !! "X-Frame-Options"
  = Some (Js.str "SAMEORIGIN")
  /\ SecurityHeaders.entry_overwrite overwriting 0 = Core.true_
  /\ SecurityHeaders.entry_headers filling 0 !! "X-Existing" = Some (Js.str "value")
  /\ SecurityHeaders.entry_headers filling 0 !! "X-Frame-Options"
     = Some (Js.str "SAMEORIGIN").
Proof.
  cbv zeta.
  destruct (securityHeadersMiddleware_precedence SecurityHeaders.frame_options_config
              SecurityHeaders.merge_heap 0%nat
              {[ "contextType" := Js.str "http"; "_securityHeaders" := Js.VRef 1%nat ]}
              eq_refl) as [Hon _].
  destruct (Hon eq_refl) as (Hresolved & _ & Hflag).
  destruct (securityHeadersMiddleware_precedence SecurityHeaders.throwing_config
              SecurityHeaders.merge_heap 0%nat
              {[ "contextType" := Js.str "http"; "_securityHeaders" := Js.VRef 1%nat ]}
              eq_refl) as [_ Hoff].
  destruct (Hoff ltac:(discriminate)) as (Hkept & Hfilled & _).
  split; [|split; [|split]].
  - apply Hresolved. reflexivity.
  - exact Hflag.
  - apply Hkept. reflexivity.
  - rewrite Hfilled; reflexivity.
Defined.

Lemma securityHeadersMiddleware_compose_witness :
  let run1 :=
    Core.call (SecurityHeaders.securityHeadersMiddleware SecurityHeaders.throwing_config)
      SecurityHeaders.merge_heap 0 in
  let run2 :=
    Core.call (SecurityHeaders.securityHeadersMiddleware
                 SecurityHeaders.frame_options_config) (snd run1) 0 in
  fst run2 = Js.Ok Core.true_
  /\ SecurityHeaders.entry_overwrite (snd run2) 0 = Core.true_.
Proof.
  cbv zeta.
  destruct (securityHeadersMiddleware_compose SecurityHeaders.throwing_config
              SecurityHeaders.frame_options_config SecurityHeaders.merge_heap 0%nat
              {[ "contextType" := Js.str "http"; "_securityHeaders" := Js.VRef 1%nat ]}
              eq_refl) as (_ & Hallow & _ & Hflag).
  split; [exact Hallow|exact Hflag].
Defined.

(** ** helpers/object.utils.ts: setValueByPath *)

Section ObjectUtilsSetProps.
Import Js ObjectUtils SecurityHeaders ObjectUtilsSet.

Lemma assign_member_other h a key v b :
  b <> a -> assign_member h a key v !! b = h !! b.
Proof.
  intros Hne. unfold assign_member. destruct (cell h a) as [props|items].
  - by rewrite lookup_insert_ne.
  - destruct (array_index key); [by rewrite lookup_insert_ne|done].
Qed.

Lemma assign_member_object h a props key v :
  h !! a = Some (CObj props) ->
  assign_member h a key v = <[a := CObj (<[key := v]> props)]> h.
Proof. intros Ha. unfold assign_member, cell. by rewrite Ha. Qed.

Lemma member_ref_present c key next :
  cell_member c key = VRef next -> has_member c key = true.
Proof.
  destruct c as [props|items]; simpl.
  - intros Hm. apply bool_decide_eq_true_2.
    destruct (props !! key) as [v|]; [eauto|discriminate].
  - destruct (String.eqb key "length"); [discriminate|].
    destruct (array_index key) as [i|]; [|discriminate].
    destruct (items !! i) as [v|] eqn:Hi; simpl; [|discriminate].
    intros _. apply Nat.ltb_lt. by eapply lookup_lt_Some.
Qed.

(** The loop creates a new object exactly when the member is no object. *)
Lemma creates_on_atom c key (p : Atom) :
  cell_member c key = VAtom p ->
  negb (has_member c key) || negb (typeof_object (VAtom p)) || is_null (VAtom p) = true.
Proof. intros _. destruct p; simpl; by rewrite ?orb_true_r. Qed.

Lemma follows_on_ref c key next :
  cell_member c key = VRef next ->
  negb (has_member c key) || negb (typeof_object (VRef next)) || is_null (VRef next)
  = false.
Proof. intros Hm. by rewrite (member_ref_present c key next Hm). Qed.

Lemma setValueByPath_loop_step h current key key2 rest value :
  setValueByPath_loop h current (key :: key2 :: rest) value
  = if negb (to_boolean (str key))
    then setValueByPath_loop h current (key2 :: rest) value
    else
      let member := cell_member (cell h current) key in
      if negb (has_member (cell h current) key)
         || negb (typeof_object member) || is_null member
      then
        let '(created, h) := alloc h (CObj ∅) in
        setValueByPath_loop (assign_member h current key (VRef created))
          created (key2 :: rest) value
      else
        match member with
        | VRef next => setValueByPath_loop h next (key2 :: rest) value
        | VAtom _ => h
        end.
Proof. reflexivity. Qed.

Lemma visited_step h current key key2 rest :
  visited h current (key :: key2 :: rest)
  = if negb (to_boolean (str key)) then visited h current (key2 :: rest)
    else current :: match cell_member (cell h current) key with
                    | VRef next => visited h next (key2 :: rest)
                    | VAtom _ => []
                    end.
Proof. reflexivity. Qed.

Lemma visited_self h c :
  (forall key, match cell_member (cell h c) key with
               | VRef next => next = c
               | VAtom _ => True
               end) ->
  forall keys x, x ∈ visited h c keys -> x = c.
Proof.
  intros Hself keys. induction keys as [|key keys IH]; intros x; cbn [visited].
  - by intros ?%elem_of_nil.
  - destruct keys as [|key2 rest].
    + destruct (to_boolean (str key)); [|by intros ?%elem_of_nil].
      by intros ->%list_elem_of_singleton.
    + fold (visited h c (key2 :: rest)).
      destruct (to_boolean (str key)); cbn [negb]; [|apply IH].
      intros [->|Hx]%elem_of_cons; [done|].
      specialize (Hself key). destruct (cell_member (cell h c) key) as [p|next].
      * by apply elem_of_nil in Hx.
      * subst next. by apply IH.
Qed.

(** The object the loop has just created and stored under [key] holds no
    reference, except to itself when [current] was this very address. *)
Lemma created_members h current key :
  forall k,
    match cell_member
            (cell (assign_member (<[fresh (dom h) := CObj ∅]> h) current key
                     (VRef (fresh (dom h)))) (fresh (dom h))) k with
    | VRef next => next = fresh (dom h)
    | VAtom _ => True
    end.
Proof.
  intros k. set (created := fresh (dom h)).
  destruct (decide (created = current)) as [<-|Hne].
  - rewrite (assign_member_object _ created ∅) by by rewrite lookup_insert_eq.
    unfold cell. rewrite lookup_insert_eq. simpl.
    destruct (decide (key = k)) as [->|Hk].
    + by rewrite lookup_insert_eq.
    + rewrite lookup_insert_ne by done. by rewrite lookup_empty.
  - unfold cell. rewrite assign_member_other by done.
    rewrite lookup_insert_eq. simpl. by rewrite lookup_empty.
Qed.

Lemma setValueByPath_loop_frame keys :
  forall h current value a,
    is_Some (h !! a) -> a ∉ visited h current keys ->
    setValueByPath_loop h current keys value !! a = h !! a.
Proof.
  induction keys as [|key keys IH]; intros h current value a Ha Hvisited; [done|].
  destruct keys as [|key2 rest].
  - cbn [setValueByPath_loop visited] in Hvisited |- *.
    destruct (to_boolean (str key)); [|done].
    apply assign_member_other. intros ->. apply Hvisited. by left.
  - rewrite setValueByPath_loop_step. rewrite visited_step in Hvisited.
    destruct (to_boolean (str key)); cbn [negb] in Hvisited |- *; [|by apply IH].
    apply not_elem_of_cons in Hvisited as [Hcurrent Hrest].
    destruct (cell_member (cell h current) key) as [p|next] eqn:Hmember.
    + rewrite (creates_on_atom _ key p Hmember). unfold alloc.
      set (created := fresh (dom h)).
      set (h1 := <[created := CObj ∅]> h).
      set (h2 := assign_member h1 current key (VRef created)).
      assert (created ∉ dom h) as Hfresh by apply is_fresh.
      assert (a <> created) as Hac.
      { intros ->. apply Hfresh. by apply elem_of_dom. }
      assert (h2 !! a = h !! a) as Hsame.
      { unfold h2. rewrite assign_member_other by done.
        unfold h1. by rewrite lookup_insert_ne. }
      rewrite IH; [done|by rewrite Hsame|].
      intros Hin. apply Hac. revert Hin. apply visited_self, created_members.
    + rewrite (follows_on_ref _ key next Hmember). by apply IH.
Qed.

Lemma getValueByPath_loop_ref h a key keys :
  getValueByPath_loop h (VRef a) (key :: keys)
  = getValueByPath_loop h (cell_member (cell h a) key) keys.
Proof. reflexivity. Qed.

Lemma visited_of_empty h c keys :
  cell h c = CObj ∅ -> keys <> [] -> Forall (fun key => nonempty key = true) keys ->
  visited h c keys = [c].
Proof.
  intros Hcell Hne Hkeys. destruct keys as [|key [|key2 rest]]; [done| |].
  - inversion Hkeys as [|? ? Hkey _]; subst. unfold nonempty in Hkey.
    cbn [visited]. by rewrite Hkey.
  - inversion Hkeys as [|? ? Hkey _]; subst. unfold nonempty in Hkey.
    rewrite visited_step, Hkey, Hcell. simpl. by rewrite lookup_empty.
Qed.

Lemma setValueByPath_loop_get keys :
  forall h current value,
    keys <> [] -> Forall (fun key => nonempty key = true) keys ->
    NoDup (visited h current keys) ->
    (forall a, a ∈ visited h current keys -> exists props, h !! a = Some (CObj props)) ->
    getValueByPath_loop (setValueByPath_loop h current keys value) (VRef current) keys
    = Ok value.
Proof.
  induction keys as [|key keys IH]; intros h current value Hne Hkeys Hdup Hobj; [done|].
  inversion Hkeys as [|? ? Hkey Hrest]; subst. unfold nonempty in Hkey.
  destruct keys as [|key2 rest].
  - cbn [setValueByPath_loop visited] in Hobj |- *. rewrite Hkey in *.
    destruct (Hobj current) as [props Hcurrent]; [by left|].
    rewrite (assign_member_object h current props) by done.
    simpl. unfold cell. rewrite lookup_insert_eq. simpl. by rewrite lookup_insert_eq.
  - rewrite setValueByPath_loop_step. rewrite visited_step in Hdup, Hobj.
    rewrite Hkey in *. cbn [negb] in *.
    destruct (Hobj current) as [props Hcurrent]; [by left|].
    apply NoDup_cons in Hdup as [Hfirst Hdup].
    destruct (cell_member (cell h current) key) as [p|next] eqn:Hmember.
    + rewrite (creates_on_atom _ key p Hmember). unfold alloc.
      set (created := fresh (dom h)).
      set (h1 := <[created := CObj ∅]> h).
      assert (created ∉ dom h) as Hfresh by apply is_fresh.
      assert (created <> current) as Hcc.
      { intros Heq. apply Hfresh. rewrite Heq. apply elem_of_dom. eauto. }
      assert (h1 !! current = Some (CObj props)) as Hcurrent1.
      { unfold h1. by rewrite lookup_insert_ne. }
      rewrite (assign_member_object h1 current props) by done.
      set (h2 := <[current := CObj (<[key := VRef created]> props)]> h1).
      assert (h2 !! created = Some (CObj ∅)) as Hcreated.
      { unfold h2, h1. rewrite lookup_insert_ne by done. by rewrite lookup_insert_eq. }
      assert (visited h2 created (key2 :: rest) = [created]) as Hvisited.
      { apply visited_of_empty; [|done|done]. unfold cell. by rewrite Hcreated. }
      rewrite getValueByPath_loop_ref.
      unfold cell at 1. rewrite setValueByPath_loop_frame.
      * assert (h2 !! current = Some (CObj (<[key := VRef created]> props))) as Hc2
          by (unfold h2; by rewrite lookup_insert_eq).
        rewrite Hc2. simpl. rewrite lookup_insert_eq. simpl.
        apply IH; [done|done| |].
        -- rewrite Hvisited. apply NoDup_singleton.
        -- rewrite Hvisited. intros a ->%list_elem_of_singleton. eauto.
      * unfold h2. rewrite lookup_insert_eq. eauto.
      * rewrite Hvisited. intros ?%list_elem_of_singleton. done.
    + rewrite (follows_on_ref _ key next Hmember).
      rewrite getValueByPath_loop_ref.
      unfold cell at 1. rewrite setValueByPath_loop_frame by eauto.
      fold (cell h current). rewrite Hmember.
      apply IH; [done|done|done|].
      intros a Ha. apply Hobj. by right.
Qed.

Lemma setValueByPath_loop_skips init :
  forall h current last value,
    setValueByPath_loop h current (init ++ [last]) value
    = setValueByPath_loop h current (List.filter nonempty init ++ [last]) value.
Proof.
  induction init as [|key init IH]; intros h current last value; [done|].
  assert (forall (l : list string), exists key2 rest, (l ++ [last])%list = key2 :: rest)
    as Hcons.
  { intros [|x l]; simpl; eauto. }
  destruct (Hcons init) as (key2 & rest & Hinit).
  change ((key :: init) ++ [last])%list with (key :: (init ++ [last]))%list.
  rewrite Hinit, setValueByPath_loop_step, <- Hinit.
  cbn [List.filter]. unfold nonempty at 1.
  destruct (to_boolean (str key)) eqn:Hkey; cbn [negb].
  - destruct (Hcons (List.filter nonempty init)) as (key2' & rest' & Hfiltered).
    change ((key :: List.filter nonempty init) ++ [last])%list
      with (key :: (List.filter nonempty init ++ [last]))%list.
    rewrite Hfiltered, setValueByPath_loop_step, <- Hfiltered, Hkey.
    cbn [negb]. cbv zeta.
    destruct (negb _ || _ || _).
    + unfold alloc. apply IH.
    + destruct (cell_member (cell h current) key); [done|apply IH].
  - apply IH.
Qed.

Example setValueByPath_nested :
  getValueByPath (setValueByPath empty_profile_heap 0 "user.profile.name" (str "John"))
    (VRef 0) "user.profile.name" = Ok (str "John").
Proof. vm_compute. reflexivity. Qed.

Example setValueByPath_array_index :
  getValueByPath (setValueByPath empty_users_heap 0 "users.0" (str "John"))
    (VRef 0) "users.0" = Ok (str "John").
Proof. vm_compute. reflexivity. Qed.

(** Writing through an alias of the object written to: the value stored
    under [self] replaces the reference the path went through. *)
Example setValueByPath_through_alias :
  getValueByPath (setValueByPath self_heap 0 "self.self" (VAtom (ANum 5)))
    (VRef 0) "self.self" = Ok undefined.
Proof. vm_compute. reflexivity. Qed.

(** X14. [setValueByPath] changes only the objects on the path: every
    object of the heap that the traversal does not pass through is exactly
    as it was (new intermediate objects are new addresses). *)
Theorem setValueByPath_frame h obj path value a :
  is_Some (h !! a) -> a ∉ visited h obj (split_dot path) ->
  setValueByPath h obj path value !! a = h !! a.
Proof. apply setValueByPath_loop_frame. Qed.

(** X15. Reading back what was written: when no segment of the path is
    empty or [__proto__] and the traversal passes through plain objects of
    the heap, each at most once, [getValueByPath] after [setValueByPath]
    on the same path returns the value written, whether the intermediate
    objects existed or had to be created. *)
Theorem setValueByPath_getValueByPath h obj path value :
  Forall (fun key => nonempty key = true) (split_dot path) ->
  Forall (fun key => key <> "__proto__") (split_dot path) ->
  NoDup (visited h obj (split_dot path)) ->
  (forall a, a ∈ visited h obj (split_dot path) ->
             exists props, h !! a = Some (CObj props)) ->
  getValueByPath (setValueByPath h obj path value) (VRef obj) path = Ok value.
Proof.
  intros Hkeys _ Hdup Hobj. unfold getValueByPath, setValueByPath.
  apply setValueByPath_loop_get; try done. apply split_dot_nonempty.
Qed.

(** X16. Empty segments before the last one are skipped when writing:
    a path and the path without them write the same heap. *)
Theorem setValueByPath_skips_empty h obj path path' init last value :
  split_dot path = (init ++ [last])%list ->
  split_dot path' = (List.filter nonempty init ++ [last])%list ->
  setValueByPath h obj path value = setValueByPath h obj path' value.
Proof.
  intros Hpath Hpath'. unfold setValueByPath. rewrite Hpath, Hpath'.
  apply setValueByPath_loop_skips.
Qed.

End ObjectUtilsSetProps.

Lemma setValueByPath_frame_witness :
  ObjectUtilsSet.setValueByPath RoleMiddleware.editor_admin_heap 0 "user.name"
    (Js.str "Ann") !! 2%nat
  = Some (Js.CArr [Js.str "editor"; Js.str "admin"]).
Proof.
  rewrite (setValueByPath_frame RoleMiddleware.editor_admin_heap 0%nat "user.name"
             (Js.str "Ann") 2%nat).
  - reflexivity.
  - eexists. reflexivity.
  - apply (bool_decide_unpack _). vm_compute. reflexivity.
Defined.

Lemma setValueByPath_getValueByPath_witness :
  ObjectUtils.getValueByPath
    (ObjectUtilsSet.setValueByPath ObjectUtilsSet.empty_object_heap 0
       "user.profile.name" (Js.str "John"))
    (Js.VRef 0) "user.profile.name"
  = Js.Ok (Js.str "John").
Proof.
  apply (setValueByPath_getValueByPath ObjectUtilsSet.empty_object_heap 0%nat
           "user.profile.name" (Js.str "John")).
  - repeat constructor.
  - repeat constructor; discriminate.
  - apply (bool_decide_unpack _). vm_compute. reflexivity.
  - intros a Ha.
    change (ObjectUtilsSet.visited ObjectUtilsSet.empty_object_heap 0
              (Js.split_dot "user.profile.name")) with [0%nat] in Ha.
    apply list_elem_of_singleton in Ha as ->. eexists. reflexivity.
Defined.

Lemma setValueByPath_skips_empty_witness :
  ObjectUtilsSet.setValueByPath ObjectUtilsSet.empty_object_heap 0 "user..name"
    (Js.str "John")
  = ObjectUtilsSet.setValueByPath ObjectUtilsSet.empty_object_heap 0 "user.name"
      (Js.str "John").
Proof.
  apply (setValueByPath_skips_empty ObjectUtilsSet.empty_object_heap 0%nat
           "user..name" "user.name" ["user"; EmptyString] "name" (Js.str "John"));
    reflexivity.
Defined.

(** ** middlewares/role.middleware.ts *)

Section RoleMiddlewareProps.
Import Js Core ObjectUtils RoleMiddleware.

Lemma includes_elem userRoles role :
  includes userRoles role = true <-> str role ∈ userRoles.
Proof.
  unfold includes. rewrite existsb_exists. split.
  - intros (item & Hin & Hrole). destruct item as [[]|]; try discriminate.
    apply String.eqb_eq in Hrole. subst. by apply list_elem_of_In.
  - intros Hin. exists (str role). split; [by apply list_elem_of_In|].
    apply String.eqb_refl.
Qed.

Lemma role_call options h context a userRoles :
  user_present options h context ->
  getValueByPath h (VRef context) (effective_rolesPath options) = Ok (VRef a) ->
  cell h a = CArr userRoles ->
  call (createRoleMiddleware options) h context
  = (Ok (VAtom (ABool
       match effective_mode options with
       | ModeAll => forallb (includes userRoles) (requiredRoles options)
       | ModeAny => existsb (includes userRoles) (requiredRoles options)
       end)), h).
Proof.
  intros Huser Hroles Hcell.
  cbv beta iota zeta delta [createRoleMiddleware createMiddleware reading call].
  fold (effective_rolesPath options). fold (effective_mode options).
  rewrite Hroles.
  assert ((if default true (RoleMiddleware.requireUser options)
           then user ← getValueByPath h (VRef context) "user"; mret (is_nullish user)
           else mret false) = Ok false) as ->.
  { destruct Huser as [->|(user & -> & Hexists)]; [done|].
    destruct (default true _); [|done]. cbn. by rewrite Hexists. }
  cbn. rewrite Hcell. by destruct (effective_mode options).
Qed.

(** X17. With a user present and an array of roles at [rolesPath], the
    role unit answers a plain boolean and leaves the context alone: in mode
    ['all'] it allows exactly when every required role is one of the
    user's roles, otherwise (mode ['any'], the default) exactly when at
    least one is. *)
Theorem createRoleMiddleware_decides options h context a userRoles :
  user_present options h context ->
  getValueByPath h (VRef context) (effective_rolesPath options) = Ok (VRef a) ->
  cell h a = CArr userRoles ->
  exists allowed : bool,
    call (createRoleMiddleware options) h context = (Ok (VAtom (ABool allowed)), h)
    /\ (allowed = true <->
        match effective_mode options with
        | ModeAll => forall role, role ∈ requiredRoles options -> str role ∈ userRoles
        | ModeAny => exists role, role ∈ requiredRoles options /\ str role ∈ userRoles
        end).
Proof.
  intros Huser Hroles Hcell. eexists.
  split; [by apply (role_call options h context a userRoles)|].
  destruct (effective_mode options).
  - rewrite existsb_exists. split.
    + intros (role & Hin & Hrole). exists role.
      split; [by apply list_elem_of_In|by apply includes_elem].
    + intros (role & Hin & Hrole). exists role.
      split; [by apply list_elem_of_In|by apply includes_elem].
  - rewrite forallb_forall. split.
    + intros Hall role Hin. apply includes_elem, Hall. by apply list_elem_of_In.
    + intros Hall role Hin. apply includes_elem, Hall. by apply list_elem_of_In.
Qed.

(** X18. The role unit denies with the plain [false], without throwing
    and without touching the context, when the user is missing (unless
    [requireUser] is off) and when the value at [rolesPath] is not an
    array: absent, a single role given as a string, or an object. *)
Theorem createRoleMiddleware_denies options h context :
  (forall user,
     RoleMiddleware.requireUser options <> Some false ->
     getValueByPath h (VRef context) "user" = Ok user -> is_nullish user = true ->
     call (createRoleMiddleware options) h context = (Ok false_, h))
  /\ (forall p : Atom,
        getValueByPath h (VRef context) (effective_rolesPath options) = Ok (VAtom p) ->
        call (createRoleMiddleware options) h context = (Ok false_, h))
  /\ (forall a props,
        getValueByPath h (VRef context) (effective_rolesPath options) = Ok (VRef a) ->
        cell h a = CObj props ->
        call (createRoleMiddleware options) h context = (Ok false_, h)).
Proof.
  assert (exists missing,
            (if default true (RoleMiddleware.requireUser options)
             then user ← getValueByPath h (VRef context) "user"; mret (is_nullish user)
             else mret false) = Ok missing) as [missing Hmissing].
  { destruct (default true _); [|by eexists].
    destruct (getValueByPath_loop_returns h (split_dot "user") (VRef context))
      as [user Huser].
    exists (is_nullish user). unfold getValueByPath. by rewrite Huser. }
  split; [|split].
  - intros user Hreq Huser Hnull.
    cbv beta iota zeta delta [createRoleMiddleware createMiddleware reading call].
    destruct (RoleMiddleware.requireUser options) as [[]|]; try done; cbn [default];
      by rewrite Huser; cbn; rewrite Hnull.
  - intros p Hroles.
    cbv beta iota zeta delta [createRoleMiddleware createMiddleware reading call].
    fold (effective_rolesPath options). rewrite Hmissing, Hroles. cbn.
    by destruct missing.
  - intros a props Hroles Hcell.
    cbv beta iota zeta delta [createRoleMiddleware createMiddleware reading call].
    fold (effective_rolesPath options). rewrite Hmissing, Hroles. cbn.
    rewrite Hcell. by destruct missing.
Qed.

(** X19. How the two modes and the user's roles relate, for a user with
    an array of roles: with no required role at all, mode ['all'] allows
    and mode ['any'] denies; with at least one, whoever passes ['all']
    passes ['any']; and in either mode a user who is allowed stays allowed
    when given more roles. *)
Theorem createRoleMiddleware_modes options h context a userRoles :
  user_present options h context ->
  getValueByPath h (VRef context) (effective_rolesPath options) = Ok (VRef a) ->
  cell h a = CArr userRoles ->
  (requiredRoles options = [] ->
   fst (call (createRoleMiddleware (with_mode ModeAll options)) h context) = Ok true_
   /\ fst (call (createRoleMiddleware (with_mode ModeAny options)) h context) = Ok false_)
  /\ (requiredRoles options <> [] ->
      fst (call (createRoleMiddleware (with_mode ModeAll options)) h context) = Ok true_ ->
      fst (call (createRoleMiddleware (with_mode ModeAny options)) h context) = Ok true_)
  /\ (forall h' context' a' moreRoles,
        user_present options h' context' ->
        getValueByPath h' (VRef context') (effective_rolesPath options) = Ok (VRef a') ->
        cell h' a' = CArr moreRoles ->
        (forall role, role ∈ userRoles -> role ∈ moreRoles) ->
        fst (call (createRoleMiddleware options) h context) = Ok true_ ->
        fst (call (createRoleMiddleware options) h' context') = Ok true_).
Proof.
  intros Huser Hroles Hcell.
  assert (forall m, call (createRoleMiddleware (with_mode m options)) h context
                    = (Ok (VAtom (ABool
                         match m with
                         | ModeAll => forallb (includes userRoles) (requiredRoles options)
                         | ModeAny => existsb (includes userRoles) (requiredRoles options)
                         end)), h)) as Hmode.
  { intros m. by rewrite (role_call (with_mode m options) h context a userRoles). }
  split; [|split].
  - intros Hnone. rewrite !Hmode, Hnone. done.
  - intros Hsome. rewrite !Hmode. simpl. intros [= Hall].
    destruct (requiredRoles options) as [|role required]; [done|].
    simpl in *. apply andb_prop in Hall as [-> _]. done.
  - intros h' context' a' moreRoles Huser' Hroles' Hcell' Hmore.
    rewrite (role_call options h context a userRoles) by done.
    rewrite (role_call options h' context' a' moreRoles) by done.
    assert (forall role, includes userRoles role = true -> includes moreRoles role = true)
      as Hincludes.
    { intros role. rewrite !includes_elem. apply Hmore. }
    simpl. intros [= Hallowed]. do 3 f_equal.
    destruct (effective_mode options).
    + apply existsb_exists in Hallowed as (role & Hin & Hrole).
      apply existsb_exists. exists role. split; [done|by apply Hincludes].
    + apply forallb_forall. intros role Hin. apply Hincludes.
      by apply (proj1 (forallb_forall _ _) Hallowed).
Qed.

End RoleMiddlewareProps.

Lemma createRoleMiddleware_decides_witness :
  Core.call (RoleMiddleware.createRoleMiddleware RoleMiddleware.admin_or_moderator)
    RoleMiddleware.editor_admin_heap 0
  = (Js.Ok Core.true_, RoleMiddleware.editor_admin_heap).
Proof.
  destruct (createRoleMiddleware_decides RoleMiddleware.admin_or_moderator
              RoleMiddleware.editor_admin_heap 0%nat 2%nat
              [Js.str "editor"; Js.str "admin"])
    as (allowed & Hcall & Hallowed).
  - right. exists (Js.VRef 1). split; reflexivity.
  - reflexivity.
  - reflexivity.
  - rewrite Hcall. rewrite (proj2 Hallowed); [reflexivity|].
    exists "admin". split; repeat constructor.
Defined.

Lemma createRoleMiddleware_denies_witness :
  Core.call (RoleMiddleware.createRoleMiddleware RoleMiddleware.admin_or_moderator)
    AuthMiddleware.unauthenticated_heap 0
  = (Js.Ok Core.false_, AuthMiddleware.unauthenticated_heap)
  /\ Core.call (RoleMiddleware.createRoleMiddleware RoleMiddleware.admin_or_moderator)
       ObjectUtilsSet.empty_object_heap 0
     = (Js.Ok Core.false_, ObjectUtilsSet.empty_object_heap).
Proof.
  split.
  - destruct (createRoleMiddleware_denies RoleMiddleware.admin_or_moderator
                AuthMiddleware.unauthenticated_heap 0%nat) as (_ & Hatom & _).
    apply (Hatom Js.AUndefined). reflexivity.
  - destruct (createRoleMiddleware_denies RoleMiddleware.admin_or_moderator
                ObjectUtilsSet.empty_object_heap 0%nat) as (Hmissing & _ & _).
    apply (Hmissing Js.undefined); [discriminate|reflexivity|reflexivity].
Defined.

Lemma createRoleMiddleware_modes_witness :
  fst (Core.call (RoleMiddleware.createRoleMiddleware
                    (RoleMiddleware.with_mode RoleMiddleware.ModeAny
                       RoleMiddleware.editor_and_admin))
         RoleMiddleware.editor_admin_heap 0) = Js.Ok Core.true_.
Proof.
  destruct (createRoleMiddleware_modes RoleMiddleware.editor_and_admin
              RoleMiddleware.editor_admin_heap 0%nat 2%nat
              [Js.str "editor"; Js.str "admin"])
    as (_ & Himplies & _).
  - right. exists (Js.VRef 1). split; reflexivity.
  - reflexivity.
  - reflexivity.
  - apply Himplies; [discriminate|reflexivity].
Defined.

(** ** middlewares/mfa.middleware.ts *)

Section MfaMiddlewareProps.
Import Js Core ObjectUtils SecurityHeaders MfaMiddleware.

Lemma deny_not_allow h redirect reason : fst (deny h redirect reason) <> Ok true_.
Proof.
  unfold deny. destruct redirect as [target|]; [|discriminate].
  destruct (to_boolean (str target)); discriminate.
Qed.

(** The method check of the unit, as the code writes it. *)
Lemma method_allowed_check allowed mfaMethod :
  method_allowed allowed mfaMethod <->
  (to_boolean mfaMethod && typeof_string mfaMethod && (0 <? length allowed)%nat = true ->
   forall method, mfaMethod = str method -> method ∈ allowed).
Proof.
  unfold method_allowed. split.
  - intros Hallowed Hcheck method ->. simpl in Hcheck.
    apply andb_prop in Hcheck as [Hcheck Hlen]. apply andb_prop in Hcheck as [Hne _].
    apply Hallowed; [done| |].
    + intros ->. done.
    + intros ->. done.
  - intros Hcheck method -> Hne Hlist. apply Hcheck; [|done]. simpl.
    destruct method; [done|]. simpl. destruct allowed; done.
Qed.

Lemma mfa_call options h context :
  MfaMiddleware.required options <> Some false ->
  exists mfaVerified mfaMethod,
    getValueByPath h (VRef context) (effective_mfaPath options) = Ok mfaVerified
    /\ getValueByPath h (VRef context) (effective_mfaMethodPath options) = Ok mfaMethod
    /\ call (createMFAMiddleware options) h context
       = if negb (is_true mfaVerified)
         then deny h (MfaMiddleware.redirect options)
                (default "Multi-factor authentication required"
                   (MfaMiddleware.message options))
         else if to_boolean mfaMethod && typeof_string mfaMethod
                 && (0 <? length (effective_methods options))%nat
         then match mfaMethod with
              | VAtom (AStr method) =>
                  if negb (bool_decide (method ∈ effective_methods options))
                  then deny h (MfaMiddleware.redirect options)
                         ("MFA method " ++ method ++ " is not allowed")
                  else (Ok true_, h)
              | _ => (Ok true_, h)
              end
         else (Ok true_, h).
Proof.
  intros Hrequired.
  destruct (getValueByPath_loop_returns h (split_dot (effective_mfaPath options))
              (VRef context)) as [mfaVerified Hverified].
  destruct (getValueByPath_loop_returns h (split_dot (effective_mfaMethodPath options))
              (VRef context)) as [mfaMethod Hmethod].
  exists mfaVerified, mfaMethod. split; [done|]. split; [done|].
  cbv beta iota zeta delta [createMFAMiddleware createMiddleware call].
  fold (effective_mfaPath options). fold (effective_mfaMethodPath options).
  fold (effective_methods options).
  unfold getValueByPath. rewrite Hverified, Hmethod.
  destruct (MfaMiddleware.required options) as [[]|]; done.
Qed.

(** X20. Unless [required] is switched off, the MFA unit allows exactly
    when the value at [mfaPath] is the boolean [true] itself (a truthy
    value such as [1] or ['true'] is not enough) and the method at
    [mfaMethodPath] is not a non-empty string outside the non-empty list of
    allowed methods; when it allows, it returns [true] and leaves the heap
    as it was.  With [required: false] it always allows. *)
Theorem createMFAMiddleware_allows options h context :
  (MfaMiddleware.required options = Some false ->
   call (createMFAMiddleware options) h context = (Ok true_, h))
  /\ (MfaMiddleware.required options <> Some false ->
      (fst (call (createMFAMiddleware options) h context) = Ok true_ <->
       exists mfaMethod,
         getValueByPath h (VRef context) (effective_mfaPath options) = Ok true_
         /\ getValueByPath h (VRef context) (effective_mfaMethodPath options)
            = Ok mfaMethod
         /\ method_allowed (effective_methods options) mfaMethod)
      /\ (fst (call (createMFAMiddleware options) h context) = Ok true_ ->
          snd (call (createMFAMiddleware options) h context) = h)).
Proof.
  split.
  - intros Hoff.
    cbv beta iota zeta delta [createMFAMiddleware createMiddleware call].
    by rewrite Hoff.
  - intros Hrequired.
    destruct (mfa_call options h context Hrequired)
      as (mfaVerified & mfaMethod & Hverified & Hmethod & Hcall).
    rewrite Hcall, Hverified, Hmethod. split; [split|].
    + intros Hallow. exists mfaMethod.
      destruct (is_true mfaVerified) eqn:Htrue; simpl in Hallow;
        [|by apply deny_not_allow in Hallow].
      split; [by destruct mfaVerified as [[| |[]| | | |]|]|]. split; [done|].
      apply method_allowed_check. intros Hcheck method ->. rewrite Hcheck in Hallow.
      simpl in Hallow.
      destruct (bool_decide (method ∈ effective_methods options)) eqn:Hin;
        simpl in Hallow; [by apply bool_decide_eq_true_1 in Hin|].
      by apply deny_not_allow in Hallow.
    + intros (mfaMethod' & [= ->] & [= <-] & Hallowed). simpl.
      pose proof (proj1 (method_allowed_check _ _) Hallowed) as Hchecked.
      destruct (to_boolean mfaMethod && typeof_string mfaMethod
                && (0 <? length (effective_methods options))%nat) eqn:Hcheck; [|done].
      destruct mfaMethod as [[| | | | |method|]|]; try done.
      by rewrite bool_decide_eq_true_2 by (by apply Hchecked).
    + destruct (negb (is_true mfaVerified)).
      { intros Hallow. by apply deny_not_allow in Hallow. }
      destruct (to_boolean mfaMethod && typeof_string mfaMethod && _); [|done].
      destruct mfaMethod as [[| | | | |method|]|]; try done.
      destruct (negb _); [|done].
      intros Hallow. by apply deny_not_allow in Hallow.
Qed.

(** X21. When the MFA unit denies, the denial is the plain [false], with
    the heap unchanged, if no redirect (or an empty one) is configured;
    with a redirect it is a new object [{allow: false, redirect, reason}]
    at an address the heap did not use, every existing object unchanged,
    the reason being the configured message or the one naming the method
    that is not allowed. *)
Theorem createMFAMiddleware_denial options h context :
  MfaMiddleware.required options <> Some false ->
  fst (call (createMFAMiddleware options) h context) <> Ok true_ ->
  ((MfaMiddleware.redirect options = None
    \/ MfaMiddleware.redirect options = Some EmptyString) ->
   call (createMFAMiddleware options) h context = (Ok false_, h))
  /\ (forall target,
        MfaMiddleware.redirect options = Some target -> target <> EmptyString ->
        exists response reason,
          call (createMFAMiddleware options) h context
          = (Ok (VRef response),
             <[response := CObj {[ "allow" := false_; "redirect" := str target;
                                   "reason" := str reason ]}]> h)
          /\ h !! response = None
          /\ (reason = default "Multi-factor authentication required"
                         (MfaMiddleware.message options)
              \/ exists method,
                   getValueByPath h (VRef context) (effective_mfaMethodPath options)
                   = Ok (str method)
                   /\ reason = "MFA method " ++ method ++ " is not allowed")).
Proof.
  intros Hrequired Hdenied.
  destruct (mfa_call options h context Hrequired)
    as (mfaVerified & mfaMethod & Hverified & Hmethod & Hcall).
  rewrite Hcall in Hdenied |- *.
  assert (forall reason target,
            MfaMiddleware.redirect options = Some target -> target <> EmptyString ->
            deny h (MfaMiddleware.redirect options) reason
            = (Ok (VRef (fresh (dom h))),
               <[fresh (dom h) := CObj {[ "allow" := false_; "redirect" := str target;
                                          "reason" := str reason ]}]> h)
            /\ h !! fresh (dom h) = None) as Hredirect.
  { intros reason target -> Hne. unfold deny, alloc.
    destruct target; [done|]. split; [done|].
    apply not_elem_of_dom, is_fresh. }
  assert (forall reason,
            (MfaMiddleware.redirect options = None
             \/ MfaMiddleware.redirect options = Some EmptyString) ->
            deny h (MfaMiddleware.redirect options) reason = (Ok false_, h)) as Hplain.
  { intros reason [-> | ->]; done. }
  destruct (negb (is_true mfaVerified)).
  { split; [apply Hplain|].
    intros target Htarget Hne.
    destruct (Hredirect (default "Multi-factor authentication required"
                           (MfaMiddleware.message options)) target Htarget Hne)
      as [Hdeny Hfresh].
    eexists _, _. split; [exact Hdeny|]. split; [exact Hfresh|by left]. }
  destruct (to_boolean mfaMethod && typeof_string mfaMethod && _); [|done].
  destruct mfaMethod as [[| | | | |method|]|]; try done.
  destruct (negb _); [|done].
  split; [apply Hplain|].
  intros target Htarget Hne.
  destruct (Hredirect ("MFA method " ++ method ++ " is not allowed") target Htarget Hne)
    as [Hdeny Hfresh].
  eexists _, _. split; [exact Hdeny|]. split; [exact Hfresh|].
  right. exists method. by split.
Qed.

End MfaMiddlewareProps.

Lemma createMFAMiddleware_allows_witness :
  fst (Core.call (MfaMiddleware.createMFAMiddleware MfaMiddleware.default_options)
         MfaMiddleware.totp_heap 0) = Js.Ok Core.true_
  /\ fst (Core.call (MfaMiddleware.createMFAMiddleware MfaMiddleware.default_options)
            MfaMiddleware.truthy_heap 0) <> Js.Ok Core.true_.
Proof.
  split.
  - destruct (createMFAMiddleware_allows MfaMiddleware.default_options
                MfaMiddleware.totp_heap 0%nat) as [_ Hrequired].
    destruct (Hrequired ltac:(discriminate)) as [Hiff _].
    apply Hiff. exists (Js.str "totp"). split; [reflexivity|]. split; [reflexivity|].
    intros method [= <-] _ _. repeat constructor.
  - destruct (createMFAMiddleware_allows MfaMiddleware.default_options
                MfaMiddleware.truthy_heap 0%nat) as [_ Hrequired].
    destruct (Hrequired ltac:(discriminate)) as [Hiff _].
    intros Hallow. apply Hiff in Hallow as (mfaMethod & Hverified & _).
    discriminate Hverified.
Defined.

Lemma createMFAMiddleware_denial_witness :
  exists response,
    fst (Core.call (MfaMiddleware.createMFAMiddleware MfaMiddleware.redirecting_options)
           MfaMiddleware.push_heap 0) = Js.Ok (Js.VRef response)
    /\ MfaMiddleware.push_heap !! response = None
    /\ Js.cell_member
         (Js.cell
            (snd (Core.call
                    (MfaMiddleware.createMFAMiddleware MfaMiddleware.redirecting_options)
                    MfaMiddleware.push_heap 0)) response) "redirect"
       = Js.str "/mfa".
Proof.
  destruct (createMFAMiddleware_denial MfaMiddleware.redirecting_options
              MfaMiddleware.push_heap 0%nat) as [_ Hredirect].
  - discriminate.
  - vm_compute. discriminate.
  - destruct (Hredirect "/mfa" eq_refl ltac:(discriminate))
      as (response & reason & Hcall & Hfresh & _).
    exists response. rewrite Hcall. split; [reflexivity|]. split; [exact Hfresh|].
    simpl. unfold Js.cell. rewrite lookup_insert_eq. reflexivity.
Defined.

(** ** audit/audit.sanitize.ts: the user identifier *)

Section AuditSanitizeProps.
Import Js ObjectUtils AuditSanitize.

Lemma extractUserId_loop_step h context path paths :
  extractUserId_loop h context (path :: paths)
  = match identifier h context path with
    | Some id => Ok (str id)
    | None => extractUserId_loop h context paths
    end.
Proof.
  cbn [extractUserId_loop]. unfold identifier, getValueByPath.
  destruct (getValueByPath_loop_returns h (split_dot path) context) as [value ->].
  simpl. destruct value as [[]|]; reflexivity.
Qed.

Lemma extractUserId_loop_found h context paths id :
  extractUserId_loop h context paths = Ok (str id)
  <-> exists before path after,
        paths = (before ++ path :: after)%list
        /\ Forall (fun p => identifier h context p = None) before
        /\ identifier h context path = Some id.
Proof.
  induction paths as [|path paths IH].
  - simpl. split; [discriminate|].
    intros (before & path & after & Happ & _). by destruct before.
  - rewrite extractUserId_loop_step.
    destruct (identifier h context path) as [id0|] eqn:Hpath.
    + split.
      * intros [= ->]. exists [], path, paths. by repeat split.
      * intros ([|p before] & path' & after & Happ & Hbefore & Hfound).
        -- injection Happ as <- _. rewrite Hpath in Hfound. by injection Hfound as ->.
        -- injection Happ as <- _. apply Forall_cons in Hbefore as [Hnone _].
           rewrite Hpath in Hnone. discriminate.
    + rewrite IH. split.
      * intros (before & path' & after & -> & Hbefore & Hfound).
        exists (path :: before), path', after. repeat split; [|done].
        by apply Forall_cons.
      * intros ([|p before] & path' & after & Happ & Hbefore & Hfound).
        -- injection Happ as <- _. rewrite Hpath in Hfound. discriminate.
        -- injection Happ as <- ->. apply Forall_cons in Hbefore as [_ Hbefore].
           by exists before, path', after.
Qed.

Lemma extractUserId_loop_none h context paths :
  extractUserId_loop h context paths = Ok undefined
  <-> Forall (fun p => identifier h context p = None) paths.
Proof.
  induction paths as [|path paths IH].
  - simpl. split; [constructor|done].
  - rewrite extractUserId_loop_step, Forall_cons.
    destruct (identifier h context path) as [id0|] eqn:Hpath.
    + split; [discriminate|]. by intros [? _].
    + rewrite IH. by split; [|intros [_ ?]].
Qed.

Lemma extractUserId_loop_result h context paths :
  (exists id, extractUserId_loop h context paths = Ok (str id))
  \/ extractUserId_loop h context paths = Ok undefined.
Proof.
  induction paths as [|path paths IH]; [by right|].
  rewrite extractUserId_loop_step.
  destruct (identifier h context path) as [id0|]; [left; by exists id0|done].
Qed.

(** X22. [extractUserId] never throws and returns a string or
    [undefined].  It returns the identifier of the first path that yields
    one, where a path yields an identifier when the value found there is a
    string (also the empty string) or a number, which is printed; the
    paths before it yield none.  It returns [undefined] exactly when no
    path yields an identifier.  Without a list of paths the four default
    paths are tried. *)
Theorem extractUserId_first_match h context userIdPaths :
  (forall id,
     extractUserId h context userIdPaths = Ok (str id)
     <-> exists before path after,
           default DEFAULT_USER_ID_PATHS userIdPaths = (before ++ path :: after)%list
           /\ Forall (fun p => identifier h context p = None) before
           /\ identifier h context path = Some id)
  /\ (extractUserId h context userIdPaths = Ok undefined
      <-> Forall (fun p => identifier h context p = None)
            (default DEFAULT_USER_ID_PATHS userIdPaths))
  /\ ((exists id, extractUserId h context userIdPaths = Ok (str id))
      \/ extractUserId h context userIdPaths = Ok undefined).
Proof.
  unfold extractUserId. split; [|split].
  - intros id. apply extractUserId_loop_found.
  - apply extractUserId_loop_none.
  - apply extractUserId_loop_result.
Qed.

Example extractUserId_empty_string :
  extractUserId session_heap (VRef 0) None = Ok (str EmptyString).
Proof. reflexivity. Qed.

Example extractUserId_number :
  extractUserId session_heap (VRef 0) (Some ["user.id"; "user.userId"; "session.id"])
  = Ok (str "7").
Proof. reflexivity. Qed.

Example extractUserId_of_undefined :
  extractUserId session_heap undefined None = Ok undefined.
Proof. reflexivity. Qed.

End AuditSanitizeProps.

(** ** security-headers: the policy generator and the helper units *)

Section SecurityHeaderHelpersProps.
Import Js Core SecurityHeaders SecurityHeaderHelpers.

Lemma string_append_assoc (s1 s2 s3 : string) : (s1 ++ s2) ++ s3 = s1 ++ s2 ++ s3.
Proof.
  induction s1 as [|c s1 IH]; [reflexivity|].
  change (String c ((s1 ++ s2) ++ s3) = String c (s1 ++ s2 ++ s3)). by f_equal.
Qed.

Lemma join_app sep (parts more : list string) :
  parts <> [] -> more <> [] ->
  join sep (parts ++ more) = join sep parts ++ sep ++ join sep more.
Proof.
  intros Hparts Hmore. induction parts as [|part parts IH]; [done|].
  destruct parts as [|part' parts].
  - destruct more as [|m more]; [done|]. reflexivity.
  - change (join sep ((part :: part' :: parts) ++ more))
      with (part ++ sep ++ join sep ((part' :: parts) ++ more)).
    rewrite IH by done.
    change (join sep (part :: part' :: parts))
      with (part ++ sep ++ join sep (part' :: parts)).
    by rewrite !string_append_assoc.
Qed.

Lemma generateCSP_step_acc parts entry :
  generateCSP_step parts entry = (parts ++ generateCSP_step [] entry)%list.
Proof.
  destruct entry as [key [[]|value|]]; simpl; rewrite ?app_nil_r; try done.
  by destruct (0 <? length value)%nat; rewrite ?app_nil_r.
Qed.

Lemma generateCSP_steps_acc directives :
  forall parts,
    fold_left generateCSP_step directives parts
    = (parts ++ fold_left generateCSP_step directives [])%list.
Proof.
  induction directives as [|entry directives IH]; intros parts; simpl.
  - by rewrite app_nil_r.
  - rewrite IH, (IH (generateCSP_step [] entry)), generateCSP_step_acc.
    by rewrite <- app_assoc.
Qed.

Lemma generateCSP_steps_cons entry directives :
  fold_left generateCSP_step (entry :: directives) []
  = (generateCSP_step [] entry ++ fold_left generateCSP_step directives [])%list.
Proof. simpl. apply generateCSP_steps_acc. Qed.

Lemma generateCSP_steps_app directives more :
  fold_left generateCSP_step (directives ++ more) []
  = (fold_left generateCSP_step directives []
     ++ fold_left generateCSP_step more [])%list.
Proof. rewrite fold_left_app. apply generateCSP_steps_acc. Qed.

Lemma generateCSP_step_inactive entry :
  active entry = false -> generateCSP_step [] entry = [].
Proof.
  destruct entry as [key [b|value|]]; unfold active; simpl; try done.
  - by intros ->.
  - by intros ->.
Qed.

Lemma generateCSP_step_active entry :
  active entry = true -> generateCSP_step [] entry <> [].
Proof.
  destruct entry as [key [b|value|]]; unfold active; simpl; try done.
  - by intros ->.
  - by intros ->.
Qed.

Lemma generateCSP_steps_filter directives :
  fold_left generateCSP_step (List.filter active directives) []
  = fold_left generateCSP_step directives [].
Proof.
  induction directives as [|entry directives IH]; [done|].
  cbn [List.filter]. destruct (active entry) eqn:Hactive.
  - by rewrite !generateCSP_steps_cons, IH.
  - by rewrite generateCSP_steps_cons, generateCSP_step_inactive, IH.
Qed.

Lemma generateCSP_steps_inactive directives :
  Forall (fun entry => active entry = false) directives ->
  fold_left generateCSP_step directives [] = [].
Proof.
  induction 1 as [|entry directives Hentry _ IH]; [done|].
  by rewrite generateCSP_steps_cons, generateCSP_step_inactive, IH.
Qed.

Lemma generateCSP_steps_active directives :
  Exists (fun entry => active entry = true) directives ->
  fold_left generateCSP_step directives [] <> [].
Proof.
  induction 1 as [entry directives Hentry|entry directives _ IH];
    rewrite generateCSP_steps_cons; intros Hnil;
    apply app_eq_nil in Hnil as [Hstep Hrest]; [|done].
  by apply generateCSP_step_active in Hstep.
Qed.

(** X23. The policy [generateCSP] builds.  A flag that is on contributes
    its name, a directive with sources its name followed by the sources
    separated by spaces.  A flag that is off, an empty list of sources and
    a directive set to anything else contribute nothing: leaving them out
    gives the same policy, and a directives object that has only such
    entries gives the empty string.  The contributions are separated by a
    semicolon and a space, in the order of the directives: the policy of
    two groups of directives, each with a contribution, is the policy of
    the first, the separator, the policy of the second. *)
Theorem generateCSP_parts directives more :
  (forall key, generateCSP [(key, Flag true)] = key)
  /\ (forall key source sources,
        generateCSP [(key, Sources (source :: sources))]
        = key ++ " " ++ join " " (source :: sources))
  /\ generateCSP (List.filter active directives) = generateCSP directives
  /\ (Forall (fun entry => active entry = false) directives ->
      generateCSP directives = EmptyString)
  /\ (Exists (fun entry => active entry = true) directives ->
      Exists (fun entry => active entry = true) more ->
      generateCSP (directives ++ more)
      = generateCSP directives ++ "; " ++ generateCSP more).
Proof.
  unfold generateCSP. repeat split.
  - by rewrite generateCSP_steps_filter.
  - intros Hinactive. by rewrite generateCSP_steps_inactive.
  - intros Hdirectives Hmore. rewrite generateCSP_steps_app.
    apply join_app; by apply generateCSP_steps_active.
Qed.

Example generateCSP_strict :
  generateCSP strict_directives
  = "default-src 'self'; upgrade-insecure-requests; img-src 'self' data:".
Proof. reflexivity. Qed.

Lemma single_header_entry name value h context props :
  h !! context = Some (CObj props) ->
  let config := {| headers := {[ name := Static value ]}; overwrite := Some true |} in
  let h' := snd (call (securityHeadersMiddleware config) h context) in
  entry_headers h' context !! name = Some (str value)
  /\ (forall key, key <> name ->
        entry_headers h' context !! key = existing_headers h context !! key)
  /\ entry_overwrite h' context = true_.
Proof.
  intros Hcontext. cbv zeta.
  destruct (call_entry {| headers := {[ name := Static value ]}; overwrite := Some true |}
              h context props Hcontext) as (Hheaders & Hflag & _).
  rewrite Hheaders, Hflag. unfold merged_headers. simpl. repeat split.
  - apply lookup_union_Some_l.
    by rewrite lookup_fmap, resolve_headers_lookup, lookup_singleton_eq.
  - intros key Hkey. apply lookup_union_r.
    by rewrite lookup_fmap, resolve_headers_lookup, lookup_singleton_ne.
Qed.

(** X24. The unit [createCSP] builds allows, and after it ran on a context
    object the context's security-headers entry carries the generated
    policy under [Content-Security-Policy-Report-Only] when [reportOnly]
    is set and under [Content-Security-Policy] otherwise, replacing a
    value already there; every other header of the entry, the policy
    header of the other kind among them, is as before, and the entry's
    [overwrite] flag is [true]. *)
Theorem createCSP_installs options h context props :
  h !! context = Some (CObj props) ->
  fst (call (createCSP options) h context) = Ok true_
  /\ entry_headers (snd (call (createCSP options) h context)) context
       !! csp_header_name options
     = Some (str (generateCSP (directives options)))
  /\ (forall key, key <> csp_header_name options ->
        entry_headers (snd (call (createCSP options) h context)) context !! key
        = existing_headers h context !! key)
  /\ entry_overwrite (snd (call (createCSP options) h context)) context = true_
  /\ (csp_header_name options = "Content-Security-Policy-Report-Only"
      <-> reportOnly options = Some true)
  /\ (csp_header_name options = "Content-Security-Policy"
      <-> reportOnly options <> Some true).
Proof.
  intros Hcontext. unfold createCSP. cbv zeta.
  split; [apply call_allows|].
  destruct (single_header_entry (csp_header_name options)
              (generateCSP (directives options)) h context props Hcontext)
    as (Hname & Hothers & Hflag).
  split; [exact Hname|]. split; [exact Hothers|]. split; [exact Hflag|].
  unfold csp_header_name. destruct (reportOnly options) as [[]|]; simpl; split; split;
    (done || discriminate || (intros Hne; by destruct Hne)).
Qed.

Lemma spread_given_lookup name value key :
  spread_given name value !! key
  = if decide (key = name) then (if given value then value else None) else None.
Proof.
  unfold spread_given.
  destruct value as [v|]; [|by destruct (decide (key = name))].
  destruct (given (Some v)).
  - destruct (decide (key = name)) as [->|Hne].
    + by rewrite lookup_singleton_eq.
    + by rewrite lookup_singleton_ne.
  - by destruct (decide (key = name)).
Qed.

Lemma common_headers_lookup options key :
  common_headers options !! key
  = match default ∅ (customHeaders options) !! key with
    | Some value => Some value
    | None =>
        if decide (key = "X-Client-Version")
        then (if given (clientVersion options) then clientVersion options else None)
        else if decide (key = "X-Request-Source")
             then (if given (requestSource options) then requestSource options else None)
             else None
    end.
Proof.
  unfold common_headers. rewrite !lookup_union, !spread_given_lookup.
  destruct (default ∅ (customHeaders options) !! key) as [value|]; simpl.
  - by destruct (decide (key = "X-Client-Version")),
         (decide (key = "X-Request-Source")),
         (given (clientVersion options)), (given (requestSource options)),
         (clientVersion options), (requestSource options).
  - destruct (decide (key = "X-Client-Version")) as [->|Hne].
    + rewrite decide_False by discriminate.
      by destruct (given (clientVersion options)), (clientVersion options).
    + by destruct (decide (key = "X-Request-Source")),
           (given (requestSource options)), (requestSource options).
Qed.


End SecurityHeaderHelpersProps.

Lemma createCSP_installs_witness :
  fst (Core.call (SecurityHeaderHelpers.createCSP SecurityHeaderHelpers.report_only_options)
         SecurityHeaders.merge_heap 0) = Js.Ok Core.true_
  /\ SecurityHeaders.entry_headers
       (snd (Core.call
               (SecurityHeaderHelpers.createCSP SecurityHeaderHelpers.report_only_options)
               SecurityHeaders.merge_heap 0)) 0
       !! "Content-Security-Policy-Report-Only"
     = Some (Js.str
               "default-src 'self'; upgrade-insecure-requests; img-src 'self' data:")
  /\ SecurityHeaders.entry_headers
       (snd (Core.call
               (SecurityHeaderHelpers.createCSP SecurityHeaderHelpers.report_only_options)
               SecurityHeaders.merge_heap 0)) 0
       !! "X-Existing"
     = Some (Js.str "value").
Proof.
  destruct (createCSP_installs SecurityHeaderHelpers.report_only_options
              SecurityHeaders.merge_heap 0%nat
              {[ "contextType" := Js.str "http"; "_securityHeaders" := Js.VRef 1%nat ]}
              eq_refl) as (Hallow & Hpolicy & Hothers & _).
  split; [exact Hallow|]. split; [exact Hpolicy|].
  rewrite Hothers; [reflexivity|discriminate].
Defined.

